(** * update_leaderboard_data.py: fetch, extract, merge

    A shallow embedding of [src/update_leaderboard_data.py] and the
    properties its specification states about it.

    Layout:
    - [Text]    Python [str] values as lists of code points, the ASCII
                character classes, and the interpreter tables the
                program relies on but does not define ([PyRuntime]);
    - [F64]     IEEE-754 binary64 values as Python's [float] has them;
    - [Re]      a backtracking matcher for the fragment of Python's [re]
                syntax the program uses, with [findall], [search], [sub];
    - the program's functions, under their own names;
    - the properties. *)

From Stdlib Require Import ZArith NArith List Bool Lia String Ascii.
From Stdlib Require Floats.SpecFloat.
Import ListNotations.

(* ================================================================== *)
(** ** Python strings *)
(* ================================================================== *)

Module Text.

(** A Python [str] is a sequence of Unicode code points. *)
Definition char := N.
Definition str := list char.

(** ASCII literals of the source text. A double quote is written by its
    code point, [dquote]. *)
Definition lit (s : string) : str :=
  List.map N_of_ascii (list_ascii_of_string s).

Definition dquote : char := 34%N.
Definition squote : char := 39%N.

Local Open Scope N_scope.

Definition is_ascii (c : char) : bool := c <? 128.

(** [str.isspace] on ASCII: TAB, LF, VT, FF, CR, FS, GS, RS, US, space. *)
Definition ascii_space (c : char) : bool :=
  ((9 <=? c) && (c <=? 13)) || ((28 <=? c) && (c <=? 32)).

Definition ascii_digit (c : char) : bool := (48 <=? c) && (c <=? 57).

Definition ascii_upper (c : char) : bool := (65 <=? c) && (c <=? 90).
Definition ascii_lower (c : char) : bool := (97 <=? c) && (c <=? 122).
Definition ascii_letter (c : char) : bool := ascii_upper c || ascii_lower c.

Definition ascii_word (c : char) : bool :=
  ascii_letter c || ascii_digit c || (c =? 95).

Definition ascii_tolower (c : char) : char :=
  if ascii_upper c then c + 32 else c.

(** A decimal digit value. *)
Inductive digit := D0 | D1 | D2 | D3 | D4 | D5 | D6 | D7 | D8 | D9.

Definition digit_value (d : digit) : N :=
  match d with
  | D0 => 0 | D1 => 1 | D2 => 2 | D3 => 3 | D4 => 4
  | D5 => 5 | D6 => 6 | D7 => 7 | D8 => 8 | D9 => 9
  end.

Definition ascii_decimal (c : char) : option digit :=
  match c with
  | 48 => Some D0 | 49 => Some D1 | 50 => Some D2 | 51 => Some D3
  | 52 => Some D4 | 53 => Some D5 | 54 => Some D6 | 55 => Some D7
  | 56 => Some D8 | 57 => Some D9 | _ => None
  end.

(** What the interpreter supplies and the repository does not define:
    the Unicode character database beyond ASCII, the HTML5 entity
    table behind [html.unescape], and [repr] of a string.  Every
    property below holds whatever these tables contain; on ASCII their
    behaviour is fixed by the definitions that follow. *)
Class PyRuntime := {
  (** [Py_UNICODE_ISSPACE] on a non-ASCII code point *)
  uni_space : char -> bool;
  (** [Py_UNICODE_TODECIMAL] on a non-ASCII code point *)
  uni_decimal : char -> option digit;
  (** [Py_UNICODE_ISALNUM] on a non-ASCII code point *)
  uni_word : char -> bool;
  (** [uni_ieq p c]: under [re.I], pattern letter [p] matches the
      non-ASCII code point [c] *)
  uni_ieq : char -> char -> bool;
  (** under [re.I], a back-reference to a captured [a] matches [b]
      when one of the two is not ASCII *)
  uni_ref_eq : char -> char -> bool;
  (** the lower-casing of the non-ASCII code point at an index of a
      string (it depends on the context: final sigma) *)
  uni_lower_at : str -> nat -> str;
  (** [_charref.sub(_replace_charref, s)] of [html.unescape] *)
  replace_charrefs : str -> str;
  (** [repr(s)] *)
  py_repr : str -> str
}.

Section Classes.
Context {R : PyRuntime}.

(** [str.isspace] of one code point; also [\s] of a [str] pattern. *)
Definition is_space (c : char) : bool :=
  if is_ascii c then ascii_space c else uni_space c.

(** The decimal value of a code point; [\d] matches where it is
    defined, and [float] reads the digit through it. *)
Definition decimal (c : char) : option digit :=
  if is_ascii c then ascii_decimal c else uni_decimal c.

Definition is_digit (c : char) : bool :=
  match decimal c with Some _ => true | None => false end.

(** [\w] of a [str] pattern. *)
Definition is_word (c : char) : bool :=
  if is_ascii c then ascii_word c else uni_word c.

(** A literal pattern character [p] against a text character [c]
    under [re.I]: an uncased [p] matches itself only. *)
Definition ieq (p c : char) : bool :=
  if ascii_letter p then
    if is_ascii c then ascii_tolower c =? ascii_tolower p
    else uni_ieq p c
  else c =? p.

(** A captured character [a] against a text character [c] under
    [re.I]. *)
Definition ref_ieq (a c : char) : bool :=
  if is_ascii a && is_ascii c then ascii_tolower a =? ascii_tolower c
  else uni_ref_eq a c.

(** [s.lower()] *)
Fixpoint lower_from (whole : str) (i : nat) (s : str) : str :=
  match s with
  | [] => []
  | c :: s' =>
      (if is_ascii c then [ascii_tolower c] else uni_lower_at whole i)
        ++ lower_from whole (S i) s'
  end.

Definition lower (s : str) : str := lower_from s 0 s.

(** [html.unescape(s)]: unchanged when [s] has no ampersand. *)
Definition unescape (s : str) : str :=
  if existsb (N.eqb 38) s then replace_charrefs s else s.

(** [s.strip()] *)
Fixpoint lstrip (s : str) : str :=
  match s with
  | [] => []
  | c :: s' => if is_space c then lstrip s' else s
  end.

Definition rstrip (s : str) : str := rev (lstrip (rev s)).

Definition strip (s : str) : str := rstrip (lstrip s).
End Classes.

(** [s.startswith(p)] *)
Fixpoint starts_with (p s : str) : bool :=
  match p, s with
  | [], _ => true
  | _ :: _, [] => false
  | a :: p', c :: s' => (a =? c) && starts_with p' s'
  end.

(** [p in s] *)
Fixpoint contains (p s : str) : bool :=
  starts_with p s ||
  match s with
  | [] => false
  | _ :: s' => contains p s'
  end.

(** [s.replace(",", "")]: the one use of [replace] in the program
    removes every occurrence of a single character. *)
Definition remove_char (c : char) (s : str) : str :=
  filter (fun x => negb (x =? c)) s.

Definition str_eqb (a b : str) : bool :=
  if list_eq_dec N.eq_dec a b then true else false.

(** [str(n)] of a non-negative [int]. *)
Fixpoint digits_fuel (fuel : nat) (n : N) (acc : str) : str :=
  match fuel with
  | O => acc
  | S f =>
      let acc' := (48 + n mod 10) :: acc in
      if n <? 10 then acc' else digits_fuel f (n / 10) acc'
  end.

Definition str_of_N (n : N) : str :=
  digits_fuel (S (N.to_nat (N.log2 n))) n [].

(** The runtime with no non-ASCII special characters, for running the
    model on ASCII inputs. *)
Definition ascii_runtime : PyRuntime := {|
  uni_space := fun _ => false;
  uni_decimal := fun _ => None;
  uni_word := fun _ => false;
  uni_ieq := fun _ _ => false;
  uni_ref_eq := N.eqb;
  uni_lower_at := fun s i => match nth_error s i with Some c => [c] | None => [] end;
  replace_charrefs := fun s => s;
  py_repr := fun s => squote :: s ++ [squote]
|}.

End Text.


(* ================================================================== *)
(** ** Python floats *)
(* ================================================================== *)

Module F64.
Local Open Scope N_scope.

(** A Python [float] is an IEEE-754 binary64 value.  Every finite
    binary64 value is a whole number of units of [2^-1074] (the least
    subnormal), so a finite value is kept as its sign and that whole
    number: [Fin neg k] is [(-1)^neg * k * 2^-1074].  The values of the
    format are the [k] below [2^2098] with at most 53 significant bits;
    every operation rounds its exact result to such a [k], to nearest,
    ties to even, and overflows to an infinity. *)
Inductive t :=
| NaN
| Inf (neg : bool)
| Fin (neg : bool) (k : N).

Definition unit_exp : N := 1074.

(** [2^1024], in units: the least magnitude that overflows. *)
Definition top : N := 2 ^ 2098.

(** The exact value [num / den] units, rounded to 53 significant bits,
    to nearest, ties to even.  [j] is the exponent of the spacing of the
    format around the value. *)
Definition round_units (num den : N) : N :=
  let q := num / den in
  let j := N.log2 q - 52 in
  let d := den * 2 ^ j in
  let m := num / d in
  let r := num mod d in
  let m' :=
    if 2 * r <? d then m
    else if d <? 2 * r then m + 1
    else if N.even m then m else m + 1 in
  m' * 2 ^ j.

Definition finish (neg : bool) (k : N) : t :=
  if k <? top then Fin neg k else Inf neg.

(** The float nearest to [(-1)^neg * num / den]. *)
Definition of_rat (neg : bool) (num den : N) : t :=
  finish neg (round_units (num * 2 ^ unit_exp) den).

(** [float(n)] of a non-negative [int]. *)
Definition of_N (n : N) : t := of_rat false n 1.

Definition zero : t := Fin false 0.

Definition opp (x : t) : t :=
  match x with
  | NaN => NaN
  | Inf s => Inf (negb s)
  | Fin s k => Fin (negb s) k
  end.

(** [x + y] *)
Definition add (x y : t) : t :=
  match x, y with
  | NaN, _ | _, NaN => NaN
  | Inf a, Inf b => if Bool.eqb a b then Inf a else NaN
  | Inf a, Fin _ _ => Inf a
  | Fin _ _, Inf b => Inf b
  | Fin a k, Fin b l =>
      if Bool.eqb a b then finish a (round_units (k + l) 1)
      else if k <? l then finish b (round_units (l - k) 1)
      else if l <? k then finish a (round_units (k - l) 1)
      else Fin false 0
  end.

(** [x - y] *)
Definition sub (x y : t) : t := add x (opp y).

(** [x * y] *)
Definition mul (x y : t) : t :=
  match x, y with
  | NaN, _ | _, NaN => NaN
  | Inf a, Inf b => Inf (xorb a b)
  | Inf a, Fin b l => if l =? 0 then NaN else Inf (xorb a b)
  | Fin a k, Inf b => if k =? 0 then NaN else Inf (xorb a b)
  | Fin a k, Fin b l => finish (xorb a b) (round_units (k * l) (2 ^ unit_exp))
  end.

(** The signed number of units of a finite value. *)
Definition signed (neg : bool) (k : N) : Z :=
  if neg then (- Z.of_N k)%Z else Z.of_N k.

(** [x <= y]: false as soon as one side is a NaN. *)
Definition le (x y : t) : bool :=
  match x, y with
  | NaN, _ | _, NaN => false
  | Inf true, _ => true
  | _, Inf false => true
  | Inf false, _ => false
  | _, Inf true => false
  | Fin a k, Fin b l => (signed a k <=? signed b l)%Z
  end.

(** [x == y] *)
Definition eqb (x y : t) : bool := le x y && le y x.

Definition is_nan (x : t) : bool :=
  match x with NaN => true | _ => false end.

(** The same value in the Standard Library's specification of IEEE
    floats: sign, 53-bit mantissa and exponent. *)
Definition to_spec (x : t) : SpecFloat.spec_float :=
  match x with
  | NaN => SpecFloat.S754_nan
  | Inf s => SpecFloat.S754_infinity s
  | Fin s 0 => SpecFloat.S754_zero s
  | Fin s (Npos p) =>
      let j := N.log2 (Npos p) - 52 in
      match Npos p / 2 ^ j with
      | 0 => SpecFloat.S754_nan
      | Npos m => SpecFloat.S754_finite s m (Z.of_N j - 1074)
      end
  end.

(** The magnitudes of the format: at most 53 significant bits. *)
Definition representable (k : N) : Prop :=
  exists m j, k = m * 2 ^ j /\ m < 2 ^ 53.

(** A value of the format that is not negative and not a NaN: what
    [float] returns for an unsigned literal. *)
Definition nonneg (x : t) : Prop :=
  match x with
  | NaN => False
  | Inf neg => neg = false
  | Fin neg k => neg = false /\ representable k /\ k < top
  end.

(** The float literal [1.2] of [http_get_text]. *)
Definition lit_1_2 : t := of_rat false 12 10.

(** The float literal [0.0] of [parse_rating_cell]. *)
Definition lit_0_0 : t := zero.

End F64.

Arguments F64.round_units : simpl never.
Arguments F64.of_rat : simpl never.
Arguments F64.finish : simpl never.
Arguments F64.add : simpl never.
Arguments F64.sub : simpl never.
Arguments F64.mul : simpl never.
Arguments F64.top : simpl never.
Arguments F64.lit_1_2 : simpl never.


(* ================================================================== *)
(** ** Regular expressions *)
(* ================================================================== *)

Module Re.
Import Text.
Local Open Scope N_scope.

(** The flags the program passes: [re.S] and [re.I]. *)
Record flags := { dotall : bool; ignorecase : bool }.

Definition no_flags : flags := {| dotall := false; ignorecase := false |}.
Definition flag_S : flags := {| dotall := true; ignorecase := false |}.
Definition flag_SI : flags := {| dotall := true; ignorecase := true |}.

(** The pattern syntax the program uses. *)
Inductive re :=
| Eps                                 (* the empty pattern *)
| Chr (c : char)                      (* a literal character *)
| Any                                 (* [.] *)
| NotChr (c : char)                   (* [[^c]] *)
| OneOf (cs : list char)              (* [[c1c2]] *)
| Digit                               (* [\d] *)
| Space                               (* [\s] *)
| WordB                               (* [\b] *)
| Cat (a b : re)                      (* [ab] *)
| Star (a : re)                       (* [a*] *)
| Plus (a : re)                       (* [a+] *)
| Opt (a : re)                        (* [a?] *)
| LazyStar (a : re)                   (* [a*?] *)
| Times (n : nat) (a : re)            (* [a{n}] *)
| Group (n : nat) (a : re)            (* the capturing group number [n] *)
| Backref (n : nat).                  (* [\n] *)

Definition seq (rs : list re) : re := fold_right Cat Eps rs.

(** A run of literal characters. *)
Definition text (s : string) : re := seq (List.map Chr (lit s)).

(** The groups captured so far, latest first. *)
Definition caps := list (nat * str).

Fixpoint group (n : nat) (g : caps) : option str :=
  match g with
  | [] => None
  | (m, s) :: g' => if Nat.eqb n m then Some s else group n g'
  end.

Section Matcher.
Context {R : PyRuntime}.
Variable fl : flags.
Variable A : Type.

(** What remains to be matched after a pattern: it receives the
    character before the position, the rest of the text and the
    groups, and answers [None] to make the matcher backtrack. *)
Definition cont := option char -> str -> caps -> option A.

Definition chr_match (p c : char) : bool :=
  if ignorecase fl then ieq p c else c =? p.

Definition any_match (c : char) : bool :=
  dotall fl || negb (c =? 10).

Definition word_opt (c : option char) : bool :=
  match c with Some x => is_word x | None => false end.

(** [\b]: exactly one side of the position is a word character. *)
Definition at_boundary (prev : option char) (s : str) : bool :=
  xorb (word_opt prev) (word_opt (hd_error s)).

Definition one (ok : char -> bool) (s : str) (g : caps) (k : cont) : option A :=
  match s with
  | c :: s' => if ok c then k (Some c) s' g else None
  | [] => None
  end.

(** The text of a captured group, again at the position. *)
Fixpoint same_text (w : str) (prev : option char) (s : str) : option (option char * str) :=
  match w with
  | [] => Some (prev, s)
  | a :: w' =>
      match s with
      | c :: s' =>
          if (if ignorecase fl then ref_ieq a c else c =? a)
          then same_text w' (Some c) s' else None
      | [] => None
      end
  end.

Definition matcher := option char -> str -> caps -> cont -> option A.

(** [a*]: as many [a] as possible, fewer on backtracking.  An iteration
    that consumes nothing is not repeated. *)
Fixpoint greedy (step : matcher) (fuel : nat)
    (prev : option char) (s : str) (g : caps) (k : cont) : option A :=
  match fuel with
  | O => k prev s g
  | S f =>
      match step prev s g
              (fun p' s' g' =>
                 if (List.length s' <? List.length s)%nat
                 then greedy step f p' s' g' k else None) with
      | Some a => Some a
      | None => k prev s g
      end
  end.

(** [a*?]: as few [a] as possible, more on backtracking. *)
Fixpoint lazy (step : matcher) (fuel : nat)
    (prev : option char) (s : str) (g : caps) (k : cont) : option A :=
  match k prev s g with
  | Some a => Some a
  | None =>
      match fuel with
      | O => None
      | S f =>
          step prev s g
            (fun p' s' g' =>
               if (List.length s' <? List.length s)%nat
               then lazy step f p' s' g' k else None)
      end
  end.

(** [a{n}] *)
Fixpoint times (step : matcher) (n : nat)
    (prev : option char) (s : str) (g : caps) (k : cont) : option A :=
  match n with
  | O => k prev s g
  | S n' => step prev s g (fun p' s' g' => times step n' p' s' g' k)
  end.

(** The matcher: [run r prev s g k] matches [r] at the start of [s],
    which [prev] precedes, then continues with [k]; alternatives are
    tried in the order of Python's engine. *)
Fixpoint run (r : re) (prev : option char) (s : str) (g : caps) (k : cont)
  : option A :=
  match r with
  | Eps => k prev s g
  | Chr c => one (chr_match c) s g k
  | Any => one any_match s g k
  | NotChr c => one (fun x => negb (chr_match c x)) s g k
  | OneOf cs => one (fun x => existsb (fun c => chr_match c x) cs) s g k
  | Digit => one is_digit s g k
  | Space => one is_space s g k
  | WordB => if at_boundary prev s then k prev s g else None
  | Cat a b => run a prev s g (fun p' s' g' => run b p' s' g' k)
  | Star a => greedy (run a) (S (List.length s)) prev s g k
  | Plus a =>
      run a prev s g
        (fun p' s' g' => greedy (run a) (S (List.length s')) p' s' g' k)
  | Opt a =>
      match run a prev s g k with
      | Some x => Some x
      | None => k prev s g
      end
  | LazyStar a => lazy (run a) (S (List.length s)) prev s g k
  | Times n a => times (run a) n prev s g k
  | Group n a =>
      run a prev s g
        (fun p' s' g' =>
           k p' s' ((n, firstn (List.length s - List.length s') s) :: g'))
  | Backref n =>
      match group n g with
      | Some w =>
          match same_text w prev s with
          | Some (p', s') => k p' s' g
          | None => None
          end
      | None => None
      end
  end.

End Matcher.

Arguments cont : clear implicits.
Arguments matcher : clear implicits.
Arguments one {A} ok s g k.
Arguments greedy {A} step fuel prev s g k.
Arguments lazy {A} step fuel prev s g k.
Arguments times {A} step n prev s g k.
Arguments run {R} fl {A} r prev s g k.

Section Search.
Context {R : PyRuntime}.
Variable fl : flags.
Variable r : re.

(** One match attempt at a position: the List.length of the match and the
    groups. *)
Definition match_at (prev : option char) (s : str) : option (nat * caps) :=
  run fl r prev s []
    (fun _ s' g => Some ((List.length s - List.length s')%nat, g)).

(** [re.findall(r, s)] for a pattern without groups: the matches from
    left to right, each search starting where the last match ended.
    [skip] counts the characters of the last match still to pass. *)
Fixpoint findall_from (prev : option char) (s : str) (skip : nat) : list str :=
  match skip with
  | S n =>
      match s with
      | [] => []
      | c :: s' => findall_from (Some c) s' n
      end
  | O =>
      match match_at prev s with
      | Some (n, _) =>
          firstn n s ::
          match s with
          | [] => []
          | c :: s' => findall_from (Some c) s' (n - 1)
          end
      | None =>
          match s with
          | [] => []
          | c :: s' => findall_from (Some c) s' 0
          end
      end
  end.

Definition findall (s : str) : list str := findall_from None s 0.

(** [re.sub(r, repl, s)] for a replacement without group references. *)
Fixpoint sub_from (repl : str) (prev : option char) (s : str) (skip : nat) : str :=
  match skip with
  | S n =>
      match s with
      | [] => []
      | c :: s' => sub_from repl (Some c) s' n
      end
  | O =>
      match match_at prev s with
      | Some (O, _) =>
          repl ++
          match s with
          | [] => []
          | c :: s' => c :: sub_from repl (Some c) s' 0
          end
      | Some (S n, _) =>
          repl ++
          match s with
          | [] => []
          | c :: s' => sub_from repl (Some c) s' n
          end
      | None =>
          match s with
          | [] => []
          | c :: s' => c :: sub_from repl (Some c) s' 0
          end
      end
  end.

Definition sub (repl : str) (s : str) : str := sub_from repl None s 0.

(** [re.search(r, s)]: the groups of the leftmost match. *)
Fixpoint search_from (prev : option char) (s : str) : option caps :=
  match match_at prev s with
  | Some (_, g) => Some g
  | None =>
      match s with
      | [] => None
      | c :: s' => search_from (Some c) s'
      end
  end.

Definition search (s : str) : option caps := search_from None s.

End Search.

Section Language.
Context {R : PyRuntime}.
Variable fl : flags.

(** The texts a pattern can match, whatever stands around them: [\b]
    is read as the empty text and a back-reference as any text. *)
Fixpoint lang (r : re) (w : str) : Prop :=
  match r with
  | Eps => w = []
  | Chr c => exists x, w = [x] /\ chr_match fl c x = true
  | Any => exists x, w = [x] /\ any_match fl x = true
  | NotChr c => exists x, w = [x] /\ chr_match fl c x = false
  | OneOf cs =>
      exists x, w = [x] /\ existsb (fun c => chr_match fl c x) cs = true
  | Digit => exists x, w = [x] /\ is_digit x = true
  | Space => exists x, w = [x] /\ is_space x = true
  | WordB => w = []
  | Cat a b => exists u v, w = u ++ v /\ lang a u /\ lang b v
  | Star a => exists ws, w = List.concat ws /\ Forall (lang a) ws
  | Plus a => exists u ws, w = u ++ List.concat ws /\ lang a u /\ Forall (lang a) ws
  | Opt a => w = [] \/ lang a w
  | LazyStar a => exists ws, w = List.concat ws /\ Forall (lang a) ws
  | Times n a =>
      exists ws, List.length ws = n /\ w = List.concat ws /\ Forall (lang a) ws
  | Group _ a => lang a w
  | Backref _ => True
  end.

End Language.

(** What a matcher does is within a set of texts [P]: when it
    succeeds, it has consumed a text of [P] before calling its
    continuation. *)
Definition within {A} (step : matcher A) (P : str -> Prop) : Prop :=
  forall prev s g (k : cont A) x,
    step prev s g k = Some x ->
    exists w p' s' g', s = w ++ s' /\ P w /\ k p' s' g' = Some x.

End Re.


(* ================================================================== *)
(** ** The program *)
(* ================================================================== *)

Import Text.
Local Open Scope N_scope.

(** *** Exceptions and results *)

(** The exception classes the program raises or names in an [except]
    clause; [OtherException] is any other subclass of [Exception].
    What is raised outside [Exception] ([KeyboardInterrupt],
    [SystemExit]) ends the process and is not modelled. *)
Inductive exn_class :=
| HTTPError | URLError | TimeoutError
| RuntimeError | ValueError | OtherException.

(** An exception, with [str(exc)]. *)
Record exn := { cls : exn_class; message : str }.

Inductive result (A : Type) :=
| Ok (a : A)
| Raise (e : exn).
Arguments Ok {A} a.
Arguments Raise {A} e.

(** *** Dictionaries *)

(** A Python [dict] with string keys: the pairs in insertion order.
    Storing under a key that is present replaces the value where the
    key stands. *)
Definition dict (V : Type) := list (str * V).

Fixpoint dict_get {V} (k : str) (d : dict V) : option V :=
  match d with
  | [] => None
  | (k', v) :: d' => if str_eqb k k' then Some v else dict_get k d'
  end.

Fixpoint dict_set {V} (k : str) (v : V) (d : dict V) : dict V :=
  match d with
  | [] => [(k, v)]
  | (k', v') :: d' =>
      if str_eqb k k' then (k', v) :: d' else (k', v') :: dict_set k v d'
  end.

Definition keys {V} (d : dict V) : list str := List.map fst d.

(** *** Constants *)

Definition ARENA_BASE_URL : str := lit "https://arena.ai".

Definition BROWSER_HEADERS : dict str :=
  [ (lit "User-Agent",
     lit "Mozilla/5.0 (Windows NT 10.0; Win64; x64) AppleWebKit/537.36 (KHTML, like Gecko) Chrome/145.0.0.0 Safari/537.36");
    (lit "Accept-Language", lit "en-US,en;q=0.9") ].

(** *** The patterns *)

Import Re.

(** [<tr\b[^>]*>.*?</tr>] *)
Definition row_re : re :=
  seq [text "<tr"; WordB; Star (NotChr 62); Chr 62; LazyStar Any; text "</tr>"].

(** [<td\b[^>]*>.*?</td>] *)
Definition cell_re : re :=
  seq [text "<td"; WordB; Star (NotChr 62); Chr 62; LazyStar Any; text "</td>"].

(** [<a\b[^>]*\btitle=(['Q])(.*?)\1], where Q stands for the double
    quote *)
Definition title_re : re :=
  seq [text "<a"; WordB; Star (NotChr 62); WordB; text "title=";
       Group 1%nat (OneOf [squote; dquote]); Group 2%nat (LazyStar Any);
       Backref 1%nat].

(** [<[^>]+>] *)
Definition tag_re : re :=
  seq [Chr 60; Plus (NotChr 62); Chr 62].

(** [\s+] *)
Definition spaces_re : re := Plus Space.

(** [\d+(?:,\d{3})*(?:\.\d+)?] *)
Definition number_re : re :=
  seq [Plus Digit; Star (Cat (Chr 44) (Times 3%nat Digit));
       Opt (Cat (Chr 46) (Plus Digit))].

Section Extractor.
Context {R : PyRuntime}.

(** *** [float] *)

(** The digits at the start of a string: their number so far extended,
    how many they are, and what follows them. *)
Fixpoint read_digits (s : str) (acc : N) (count : N) : N * N * str :=
  match s with
  | [] => (acc, count, [])
  | c :: s' =>
      match decimal c with
      | Some d => read_digits s' (10 * acc + digit_value d) (count + 1)
      | None => (acc, count, s)
      end
  end.

Definition float_error (s : str) : exn :=
  {| cls := ValueError;
     message := lit "could not convert string to float: " ++ py_repr s |}.

(** [float(s)] on an unsigned decimal literal, [digits], [digits.digits],
    [digits.] or [.digits]: the nearest float.  The other forms [float]
    reads (a sign, an exponent, [inf], [nan], underscores, blanks
    around) are not modelled and answered like a malformed string; the
    program never passes one ([float_of_token] below). *)
Definition py_float (s : str) : result F64.t :=
  let '(ip, n1, rest) := read_digits s 0 0 in
  match rest with
  | [] =>
      if (n1 =? 0) then Raise (float_error s)
      else Ok (F64.of_rat false ip 1)
  | c :: frac =>
      if (c =? 46) then
        let '(v, n2, rest2) := read_digits frac ip 0 in
        match rest2 with
        | [] =>
            if (n1 + n2 =? 0) then Raise (float_error s)
            else Ok (F64.of_rat false v (10 ^ n2))
        | _ :: _ => Raise (float_error s)
        end
      else Raise (float_error s)
  end.

(** *** [strip_tags] *)

Definition strip_tags (text : str) : str :=
  let without_tags := sub flag_S tag_re (lit " ") text in
  strip (sub no_flags spaces_re (lit " ") (unescape without_tags)).

(** *** [parse_rating_cell] *)

Definition parse_rating_cell (cell_text : str) : result (F64.t * F64.t) :=
  let numbers := findall no_flags number_re cell_text in
  match numbers with
  | [] =>
      Raise {| cls := ValueError;
               message := lit "No rating number parsed from: "
                            ++ py_repr cell_text |}
  | first :: more =>
      match py_float (remove_char 44 first) with
      | Raise e => Raise e
      | Ok rating =>
          match more with
          | second :: _ =>
              match py_float (remove_char 44 second) with
              | Raise e => Raise e
              | Ok uncertainty => Ok (rating, uncertainty)
              end
          | [] => Ok (rating, F64.lit_0_0)
          end
      end
  end.

(** *** [parse_leaderboard_table] *)

(** The value stored for a model: the dictionary with the keys
    ["rating"], ["rating_q975"] and ["rating_q025"]. *)
Record score_record := {
  rating : F64.t;
  rating_q975 : F64.t;
  rating_q025 : F64.t
}.

Definition table := dict score_record.

(** What one turn of the loop over the rows does. *)
Inductive row_result :=
| Continue                                  (* [continue] *)
| Store (model_name : str) (rec : score_record)
| Abort (e : exn).

(** The body of the loop, for one row. *)
Definition row_body (row : str) : row_result :=
  let cells := findall flag_SI cell_re row in
  if (List.length cells <? 4)%nat then Continue
  else
    match search flag_SI title_re row with
    | None => Continue
    | Some model_match =>
        let group2 :=
          match group 2%nat model_match with Some w => w | None => [] end in
        let model_name := strip (unescape group2) in
        match model_name with
        | [] => Continue
        | _ :: _ =>
            let rating_text := strip_tags (nth 3%nat cells []) in
            match parse_rating_cell rating_text with
            | Raise e => Abort e
            | Ok (rating, uncertainty) =>
                Store model_name
                  {| rating := rating;
                     rating_q975 := F64.add rating uncertainty;
                     rating_q025 := F64.sub rating uncertainty |}
            end
        end
    end.

(** The parts of the body, by name: the cells of a row, the name in
    its first titled anchor, the two tests that make the loop go on to
    the next row, and the text of the fourth cell. *)
Definition row_cells (row : str) : list str := findall flag_SI cell_re row.

Definition row_name (row : str) : option str :=
  match search flag_SI title_re row with
  | None => None
  | Some model_match =>
      Some (strip (unescape
              (match group 2%nat model_match with Some w => w | None => [] end)))
  end.

Definition passes_filters (row : str) : bool :=
  (4 <=? List.length (row_cells row))%nat &&
  match row_name row with
  | Some (_ :: _) => true
  | _ => false
  end.

Definition rating_text (row : str) : str :=
  strip_tags (nth 3%nat (row_cells row) []).

Definition no_rating_error (cell_text : str) : exn :=
  {| cls := ValueError;
     message := lit "No rating number parsed from: " ++ py_repr cell_text |}.

(** A row that passes the two tests and whose fourth cell, stripped,
    has no number. *)
Definition lacks_rating (row : str) : bool :=
  passes_filters row &&
  match findall no_flags number_re (rating_text row) with
  | [] => true
  | _ :: _ => false
  end.

(** The record stored for a rating and its uncertainty. *)
Definition record_of (rating uncertainty : F64.t) : score_record :=
  {| rating := rating;
     rating_q975 := F64.add rating uncertainty;
     rating_q025 := F64.sub rating uncertainty |}.

(** The loop over the rows, from the dictionary built so far. *)
Fixpoint parse_rows (rows : list str) (parsed : table) : result table :=
  match rows with
  | [] => Ok parsed
  | row :: rest =>
      match row_body row with
      | Continue => parse_rows rest parsed
      | Store model_name rec => parse_rows rest (dict_set model_name rec parsed)
      | Abort e => Raise e
      end
  end.

Definition empty_table_error : exn :=
  {| cls := RuntimeError;
     message := lit "Parsed 0 models from leaderboard table." |}.

Definition parse_leaderboard_table (html : str) : result table :=
  let rows := findall flag_SI row_re html in
  match parse_rows rows [] with
  | Raise e => Raise e
  | Ok [] => Raise empty_table_error
  | Ok parsed => Ok parsed
  end.

End Extractor.

(** *** [build_leaderboard_path] *)

(** [style_control] is [None], [True] or [False]. *)
Definition build_leaderboard_path
    (modality category_slug : str) (style_control : option bool) : str :=
  match style_control with
  | None => lit "/leaderboard/" ++ modality ++ lit "/" ++ category_slug
  | Some true => lit "/leaderboard/" ++ modality ++ lit "/" ++ category_slug
  | Some false =>
      lit "/leaderboard/" ++ modality ++ lit "/" ++ category_slug
        ++ lit "-no-style-control"
  end.

(** *** The network and the clock *)

(** What the program does to the outside, in order: a GET request
    ([urlopen] of a [Request] with its headers and a timeout) and a
    [time.sleep]. *)
Inductive event :=
| Requested (url : str) (headers : dict str) (timeout : Z)
| Slept (seconds : F64.t).

Definition trace := list event.

(** What comes back for a request: the final HTTP response (after
    [urllib] has followed the redirections), with its status, its
    reason phrase and its body as [read().decode("utf-8",
    errors="ignore")] gives it; or no response, and the exception
    raised while opening or reading. *)
Inductive reply :=
| Response (status : N) (reason : str) (body : str)
| NoResponse (e : exn).

(** A computation that acts on the outside and may raise: from the
    events so far to a result and the events then. *)
Definition M (A : Type) := trace -> result A * trace.

Definition ret {A} (a : A) : M A := fun tr => (Ok a, tr).

Definition raise {A} (e : exn) : M A := fun tr => (Raise e, tr).

Definition bind {A B} (m : M A) (f : A -> M B) : M B :=
  fun tr =>
    match m tr with
    | (Ok a, tr') => f a tr'
    | (Raise e, tr') => (Raise e, tr')
    end.

(** [try: m except Exception as exc: h exc] *)
Definition try_except {A} (m : M A) (h : exn -> M A) : M A :=
  fun tr =>
    match m tr with
    | (Ok a, tr') => (Ok a, tr')
    | (Raise e, tr') => h e tr'
    end.

Definition lift {A} (r : result A) : M A := fun tr => (r, tr).

Declare Scope py_scope.
Delimit Scope py_scope with py.
Notation "x <- m ;; k" := (bind m (fun x => k))
  (at level 61, m at next level, right associativity) : py_scope.
Notation "m ;;; k" := (bind m (fun _ => k))
  (at level 61, right associativity) : py_scope.

(** [float(z)] and [str(z)] of an [int]. *)
Definition float_of_Z (z : Z) : F64.t :=
  F64.of_rat (z <? 0)%Z (Z.abs_N z) 1.

Definition str_of_Z (z : Z) : str :=
  if (z <? 0)%Z then 45 :: str_of_N (Z.abs_N z) else str_of_N (Z.abs_N z).

(** [range(n)] *)
Definition range (n : Z) : list Z :=
  List.map Z.of_nat (List.seq 0 (Z.to_nat n)).

(** A value of the document: one that was loaded with the document
    ([J] is the type of those), or a table the program extracted. *)
Inductive entry (J : Type) :=
| Loaded (j : J)
| Extracted (t : table).
Arguments Loaded {J} j.
Arguments Extracted {J} t.

(** The variables of the loop of [refresh_categories]: the document,
    which the program updates in place, and the two lists it returns. *)
Record refresh_state (J : Type) := {
  target_data : dict (entry J);
  updated : list str;
  skipped : list (str * str)
}.
Arguments target_data {J} r.
Arguments updated {J} r.
Arguments skipped {J} r.
Arguments Build_refresh_state {J} target_data updated skipped.

(** The address [refresh_categories] asks for a category. *)
Definition category_url (modality : str) (style_control : option bool)
    (category_slug : str) : str :=
  ARENA_BASE_URL ++ build_leaderboard_path modality category_slug style_control.

(** The variables of the loop after a category was skipped for the
    exception [e], and after a table was stored for it. *)
Definition skip_state {J} (st : refresh_state J) (output_key : str) (e : exn)
  : refresh_state J :=
  {| target_data := target_data st;
     updated := updated st;
     skipped := skipped st ++ [(output_key, message e)] |}.

Definition store_state {J} (st : refresh_state J) (output_key : str)
    (parsed : table) : refresh_state J :=
  {| target_data := dict_set output_key (Extracted parsed) (target_data st);
     updated := updated st ++ [output_key];
     skipped := skipped st |}.

Section Fetcher.
Context {R : PyRuntime}.

(** The outside world: the reply to a request, given all that happened
    before it. *)
Variable network : trace -> str -> Z -> reply.

(** [time.sleep(seconds)] *)
Definition sleep (seconds : F64.t) : M unit :=
  fun tr => (Ok tt, tr ++ [Slept seconds]).

(** [with urlopen(request, timeout=timeout) as response:
       return response.read().decode("utf-8", errors="ignore")]
    [urlopen] raises [HTTPError] for a response whose status is not
    2xx. *)
Definition urlopen_read (url : str) (timeout : Z) : M str :=
  fun tr =>
    let tr' := tr ++ [Requested url BROWSER_HEADERS timeout] in
    match network tr url timeout with
    | Response status reason body =>
        if (200 <=? status) && (status <? 300) then (Ok body, tr')
        else
          (Raise {| cls := HTTPError;
                    message := lit "HTTP Error " ++ str_of_N status
                                 ++ lit ": " ++ reason |}, tr')
    | NoResponse e => (Raise e, tr')
    end.

(** [except (HTTPError, URLError, TimeoutError)] *)
Definition is_transport_error (e : exn) : bool :=
  match cls e with
  | HTTPError | URLError | TimeoutError => true
  | _ => false
  end.

(** [str(last_error)], which is [None] before the first failure. *)
Definition str_of_last_error (last_error : option exn) : str :=
  match last_error with
  | Some e => message e
  | None => lit "None"
  end.

Definition retries_exhausted (retries : Z) (url : str) (last_error : option exn) : exn :=
  {| cls := RuntimeError;
     message := lit "Request failed after " ++ str_of_Z retries
                  ++ lit " retries: " ++ url ++ lit " ("
                  ++ str_of_last_error last_error ++ lit ")" |}.

(** The loop of [http_get_text] over the attempts still to make. *)
Fixpoint http_get_text_loop (url : str) (timeout retries : Z)
    (attempts : list Z) (last_error : option exn) : M str :=
  match attempts with
  | [] => raise (retries_exhausted retries url last_error)
  | attempt :: rest =>
      fun tr =>
        match urlopen_read url timeout tr with
        | (Ok text, tr') => (Ok text, tr')
        | (Raise exc, tr') =>
            if is_transport_error exc then
              ((if (attempt <? retries - 1)%Z
                then sleep (F64.mul F64.lit_1_2 (float_of_Z (attempt + 1)))
                else ret tt) ;;;
               http_get_text_loop url timeout retries rest (Some exc))%py tr'
            else (Raise exc, tr')
        end
  end.

Definition http_get_text (url : str) (timeout retries : Z) : M str :=
  http_get_text_loop url timeout retries (range retries) None.

(** The defaults [timeout=75, retries=3]. *)
Definition default_timeout : Z := 75.
Definition default_retries : Z := 3.

(** The event of a request. *)
Definition request (url : str) (timeout : Z) : event :=
  Requested url BROWSER_HEADERS timeout.

(** An attempt fails with an error of the classes that are retried. *)
Definition attempt_fails (url : str) (timeout : Z) (tr : trace) (e : exn) : Prop :=
  fst (urlopen_read url timeout tr) = Raise e /\
  is_transport_error e = true.

(** What the loop does after a failed attempt that is retried. *)
Definition after_failure (url : str) (timeout retries attempt : Z)
    (rest : list Z) (exc : exn) : M str :=
  ((if (attempt <? retries - 1)%Z
    then sleep (F64.mul F64.lit_1_2 (float_of_Z (attempt + 1)))
    else ret tt) ;;;
   http_get_text_loop url timeout retries rest (Some exc))%py.

(** *** [refresh_categories] *)

Section Refresher.
Variable J : Type.

Definition no_table_error : exn :=
  {| cls := RuntimeError; message := lit "No table in response" |}.

(** The statements under [try] up to the call of the extractor: the
    table to store for a category. *)
Definition fetch_table (url : str) : M table :=
  (html <- http_get_text url default_timeout default_retries ;;
   if negb (contains (lit "<table") (lower html))
   then raise no_table_error
   else lift (parse_leaderboard_table html))%py.

(** One turn of the loop of [refresh_categories]. *)
Definition refresh_category (modality : str) (style_control : option bool)
    (output_key category_slug : str) (st : refresh_state J)
  : M (refresh_state J) :=
  let path := build_leaderboard_path modality category_slug style_control in
  let url := ARENA_BASE_URL ++ path in
  try_except
    (parsed <- fetch_table url ;;
     ret {| target_data := dict_set output_key (Extracted parsed) (target_data st);
            updated := updated st ++ [output_key];
            skipped := skipped st |})%py
    (fun exc =>
       ret {| target_data := target_data st;
              updated := updated st;
              skipped := skipped st ++ [(output_key, message exc)] |}).

Fixpoint refresh_loop (modality : str) (style_control : option bool)
    (items : list (str * str)) (st : refresh_state J)
  : M (refresh_state J) :=
  match items with
  | [] => ret st
  | (output_key, category_slug) :: rest =>
      (st' <- refresh_category modality style_control output_key category_slug st ;;
       refresh_loop modality style_control rest st')%py
  end.

(** [refresh_categories(target_data, modality, category_map,
    style_control)]: the document as the call leaves it, with the
    returned [updated] and [skipped]. *)
Definition refresh_categories (data : dict (entry J)) (modality : str)
    (category_map : dict str) (style_control : option bool)
  : M (refresh_state J) :=
  refresh_loop modality style_control category_map
    {| target_data := data; updated := []; skipped := [] |}.

End Refresher.
End Fetcher.

Arguments refresh_category {R} network {J} modality style_control
  output_key category_slug st.
Arguments refresh_loop {R} network {J} modality style_control items st.
Arguments refresh_categories {R} network {J} data modality category_map
  style_control.


(* ================================================================== *)
(** ** Inputs of the examples *)
(* ================================================================== *)

Import Text Re.

(** The row of the specification's scenario: its fourth cell holds a
    titled anchor, then [1200], the plus-minus sign (code point 177)
    and [15]. *)
Definition row_model_a : str :=
  lit "<tr><td>1</td><td>X</td><td>1200</td><td><a title=" ++ [dquote]
    ++ lit "Model A" ++ [dquote] ++ lit ">A</a>1200" ++ [177]
    ++ lit "15</td></tr>".

Definition cell_model_a : str :=
  lit "<td><a title=" ++ [dquote]
    ++ lit "Model A" ++ [dquote] ++ lit ">A</a>1200" ++ [177]
    ++ lit "15</td>".

Definition text_model_a : str := lit "A 1200" ++ [177] ++ lit "15".

(** A row whose fourth cell holds two numbers of 310 digits each. *)
Definition row_overflow : str :=
  lit "<tr><td>1</td><td>X</td><td>0</td><td><a title='M'>M</a>"
    ++ repeat 57 310 ++ lit " " ++ repeat 57 310 ++ lit "</td></tr>".

(** A page with two rows for one name. *)
Definition page_two_rows : str :=
  lit "<table><tr><td>1</td><td>X</td><td>1200</td><td><a title='Model A'>A</a>1200 15</td></tr><tr><td>2</td><td>X</td><td>1300</td><td><a title='Model A'>A</a>1300 10</td></tr></table>".

Definition row_two_rows_1 : str :=
  lit "<tr><td>1</td><td>X</td><td>1200</td><td><a title='Model A'>A</a>1200 15</td></tr>".

Definition row_two_rows_2 : str :=
  lit "<tr><td>2</td><td>X</td><td>1300</td><td><a title='Model A'>A</a>1300 10</td></tr>".

(** A row of four cells without a titled anchor, whose fourth cell has
    no number. *)
Definition row_untitled : str :=
  lit "<tr><td>1</td><td>X</td><td>2</td><td>n/a</td></tr>".

(** A row that passes the tests and whose fourth cell has no number,
    and a page with it. *)
Definition row_unrated : str :=
  lit "<tr><td>1</td><td>X</td><td>2</td><td><a title='Model B'>B</a>n/a</td></tr>".

Definition page_unrated : str :=
  lit "<table><tr><td>1</td><td>X</td><td>2</td><td><a title='Model B'>B</a>n/a</td></tr></table>".

(** A page whose table has a header row only. *)
Definition page_header_only : str :=
  lit "<table><tr><th>Rank</th><th>Model</th></tr></table>".

(** Networks: one that never answers in time, one that answers 404 to
    every request, one that answers every request with a page, and one
    that serves the [coding] category and times out for the others. *)
Definition timed_out : exn :=
  {| cls := TimeoutError; message := lit "timed out" |}.

Definition network_timeout : trace -> str -> Z -> reply :=
  fun _ _ _ => NoResponse timed_out.

Definition network_404 : trace -> str -> Z -> reply :=
  fun _ _ _ => Response 404 (lit "Not Found") (lit "<html>gone</html>").

Definition network_page (html : str) : trace -> str -> Z -> reply :=
  fun _ _ _ => Response 200 (lit "OK") html.

Definition network_coding_only : trace -> str -> Z -> reply :=
  fun _ url _ =>
    if contains (lit "/coding") url
    then Response 200 (lit "OK") page_two_rows
    else NoResponse timed_out.

Definition url_math : str := lit "https://arena.ai/leaderboard/text/math".

(** The records of the two rows of [page_two_rows]. *)
Definition rec_1300_10 : score_record :=
  record_of (F64.of_rat false 1300 1) (F64.of_rat false 10 1).

Definition rec_1200_15 : score_record :=
  record_of (F64.of_rat false 1200 1) (F64.of_rat false 15 1).

(** A run over two categories, of which the network serves the first:
    the category map, the document before the run, the table of the
    served page, and the state and the events when the turn of the
    second category comes and when it ends. *)
Definition map_example : dict str :=
  [(lit "coding", lit "coding"); (lit "math", lit "math")].

Definition data_example : dict (entry unit) :=
  [(lit "coding", Loaded tt); (lit "math", Loaded tt)].

Definition table_example : table := [(lit "Model A", rec_1300_10)].

Definition url_coding : str := lit "https://arena.ai/leaderboard/text/coding".

Definition state_after_coding : refresh_state unit :=
  {| target_data := [(lit "coding", Extracted table_example); (lit "math", Loaded tt)];
     updated := [lit "coding"];
     skipped := [] |}.

Definition trace_after_coding : trace := [request url_coding default_timeout].

Definition trace_after_math : trace :=
  let req := request url_math default_timeout in
  trace_after_coding ++
  [req; Slept (F64.mul F64.lit_1_2 (float_of_Z 1));
   req; Slept (F64.mul F64.lit_1_2 (float_of_Z 2)); req].


(* ================================================================== *)
(** ** The rest of the program, and what its properties speak of *)
(* ================================================================== *)

(** *** The events of a call of [http_get_text] *)

(** The events of [k] attempts in a row, the first with the number
    [attempt]: a request each, and between two of them the sleep of
    [1.2 * (attempt + 1)] seconds that follows a failed attempt which
    is not the last. *)
Fixpoint attempt_events (url : str) (timeout : Z) (attempt : Z) (k : nat) : trace :=
  match k with
  | O => []
  | S k' =>
      match k' with
      | O => [request url timeout]
      | S _ =>
          request url timeout
            :: Slept (F64.mul F64.lit_1_2 (float_of_Z (attempt + 1)))
            :: attempt_events url timeout (attempt + 1) k'
      end
  end.

(** The events before the attempt with the number [attempt + k], when
    the [k] attempts from [attempt] on have failed and been retried:
    each is a request and the sleep after it. *)
Fixpoint failed_events (url : str) (timeout : Z) (attempt : Z) (k : nat) : trace :=
  match k with
  | O => []
  | S k' =>
      request url timeout
        :: Slept (F64.mul F64.lit_1_2 (float_of_Z (attempt + 1)))
        :: failed_events url timeout (attempt + 1) k'
  end.

(** The attempts of the loop of [http_get_text], [n] from the one
    with the number [i]. *)
Definition attempts_from (i n : nat) : list Z :=
  List.map Z.of_nat (List.seq i n).

(** The requests among events. *)
Definition is_request (ev : event) : bool :=
  match ev with Requested _ _ _ => true | Slept _ => false end.

Definition requests (tr : trace) : trace := filter is_request tr.

Definition sleeps (tr : trace) : trace :=
  filter (fun ev => negb (is_request ev)) tr.

(** *** Texts without blanks to spare *)

Section Blanks.
Context {R : PyRuntime}.

(** A text [strip] leaves as it is: no blank at either end. *)
Definition trimmed (s : str) : Prop :=
  match s with
  | [] => True
  | c :: _ => is_space c = false /\ is_space (last s c) = false
  end.

(** A text in which every blank is one space character with no blank
    after it. *)
Fixpoint single_spaced (s : str) : Prop :=
  match s with
  | [] => True
  | c :: s' =>
      (is_space c = true ->
       c = 32 /\ match s' with [] => True | d :: _ => is_space d = false end) /\
      single_spaced s'
  end.

(** The names the rows of a page store, in the order of the rows. *)
Definition stored_names (rows : list str) : list str :=
  flat_map (fun row =>
              match row_body row with
              | Store model_name _ => [model_name]
              | _ => []
              end) rows.

End Blanks.

(** The elements of [l] that are not in [seen], each once, in the
    order in which [l] has them first. *)
Fixpoint first_seen (l seen : list str) : list str :=
  match l with
  | [] => []
  | x :: l' =>
      if existsb (str_eqb x) seen then first_seen l' seen
      else x :: first_seen l' (seen ++ [x])
  end.

(** The elements of [l] at the places where [mask] is true. *)
Fixpoint select {A} (mask : list bool) (l : list A) : list A :=
  match mask, l with
  | b :: mask', x :: l' => if b then x :: select mask' l' else select mask' l'
  | _, _ => []
  end.

(** *** Why a category is skipped *)

Section SkipReasons.
Context {R : PyRuntime}.
Variable network : trace -> str -> Z -> reply.

(** The exceptions for which [refresh_categories] skips a category
    whose page is at [url]: the attempts used up, an exception of a
    class that is not retried raised by a request, the page without
    the table marker, and the two errors of the extractor. *)
Definition skip_cause (url : str) (e : exn) : Prop :=
  (exists e', e = retries_exhausted default_retries url (Some e') /\
              is_transport_error e' = true) \/
  (is_transport_error e = false /\
   exists tr, fst (urlopen_read network url default_timeout tr) = Raise e) \/
  e = no_table_error \/
  e = empty_table_error \/
  (exists cell_text, e = no_rating_error cell_text).

End SkipReasons.

(** The events of a run of [refresh_categories]: for each category in
    turn, those of [k] attempts at its address, with the default
    timeout. *)
Definition refresh_events (modality : str) (style_control : option bool)
    (items : list (str * str)) (ks : list nat) : trace :=
  List.concat
    (List.map (fun p : (str * str) * nat =>
                 attempt_events
                   (category_url modality style_control (snd (fst p)))
                   default_timeout 0 (snd p))
              (combine items ks)).

(** An entry of a document that is a table the program extracted, with
    a model at least. *)
Definition extracted_entry {J} (d : dict (entry J)) (k : str) : Prop :=
  exists t, dict_get k d = Some (Extracted t) /\ t <> [].

(** *** The catalog, the files and the specifications of the files *)

Definition CATALOG_BASE_URL : str :=
  lit "https://raw.githubusercontent.com/lmarena/arena-catalog/main/data".

Definition TEXT_CATEGORY_SLUGS : dict str :=
  [ (lit "chinese", lit "chinese");
    (lit "coding", lit "coding");
    (lit "creative_writing", lit "creative-writing");
    (lit "english", lit "english");
    (lit "expert", lit "expert");
    (lit "french", lit "french");
    (lit "full", lit "overall");
    (lit "german", lit "german");
    (lit "hard_6", lit "hard-prompts");
    (lit "hard_english_6", lit "hard-prompts-english");
    (lit "if", lit "instruction-following");
    (lit "industry_business_and_management_and_financial_operations",
     lit "industry-business-and-management-and-financial-operations");
    (lit "industry_entertainment_and_sports_and_media",
     lit "industry-entertainment-and-sports-and-media");
    (lit "industry_legal_and_government", lit "industry-legal-and-government");
    (lit "industry_life_and_physical_and_social_science",
     lit "industry-life-and-physical-and-social-science");
    (lit "industry_mathematical", lit "industry-mathematical");
    (lit "industry_medicine_and_healthcare", lit "industry-medicine-and-healthcare");
    (lit "industry_software_and_it_services", lit "industry-software-and-it-services");
    (lit "industry_writing_and_literature_and_language",
     lit "industry-writing-and-literature-and-language");
    (lit "japanese", lit "japanese");
    (lit "korean", lit "korean");
    (lit "long_user", lit "longer-query");
    (lit "math", lit "math");
    (lit "multiturn", lit "multi-turn");
    (lit "no_tie", lit "exclude-ties");
    (lit "russian", lit "russian");
    (lit "spanish", lit "spanish") ].

Definition VISION_CATEGORY_SLUGS : dict str :=
  [ (lit "captioning", lit "captioning");
    (lit "chinese", lit "chinese");
    (lit "creative_writing_vision", lit "creative-writing");
    (lit "diagram", lit "diagram");
    (lit "english", lit "english");
    (lit "entity_recognition", lit "entity-recognition");
    (lit "full", lit "overall");
    (lit "homework", lit "homework");
    (lit "humor", lit "humor");
    (lit "ocr", lit "ocr") ].

Definition IMAGE_CATEGORY_SLUGS : dict str := [ (lit "full", lit "overall") ].

(** For a file: the modality, the category map and the flag. *)
Definition file_spec : Type := str * dict str * option bool.

Definition FILE_SPECS : dict file_spec :=
  [ (lit "leaderboard-text.json", (lit "text", TEXT_CATEGORY_SLUGS, Some false));
    (lit "leaderboard-text-style-control.json",
     (lit "text", TEXT_CATEGORY_SLUGS, Some true));
    (lit "leaderboard-vision.json", (lit "vision", VISION_CATEGORY_SLUGS, Some false));
    (lit "leaderboard-vision-style-control.json",
     (lit "vision", VISION_CATEGORY_SLUGS, Some true));
    (lit "leaderboard-image.json", (lit "text-to-image", IMAGE_CATEGORY_SLUGS, None)) ].

(** What [json.load] returns: a dict when the text is a JSON object;
    any other JSON value otherwise, on which the assignment
    [target_data[output_key] = ...] raises a [TypeError], whose message
    is kept with the value. *)
Inductive document (J : Type) :=
| Object (d : dict (entry J))
| NotObject (j : J) (assign_error : str).
Arguments Object {J} d.
Arguments NotObject {J} j assign_error.

(** The [json] module, which the repository does not define:
    [json.loads] (and [json.load] of a file that was read), which
    raises [JSONDecodeError] on a text that is not JSON, and the text
    [json.dump(data, file, indent=4)] writes. *)
Class JsonCodec (J : Type) := {
  json_loads : str -> result (document J);
  json_dumps : document J -> str
}.

(** A file of the data directory: its text, or the exception that
    opening or reading it raises (a directory, no permission, bytes
    that are not UTF-8). *)
Inductive file :=
| FileText (content : str)
| FileError (e : exn).

(** What the program acts on: the files of the data directory, by
    name; the network events so far; the lines printed so far. *)
Record world := {
  files : dict file;
  net : trace;
  console : list str
}.

(** A computation on the world that may raise. *)
Definition IO (A : Type) := world -> result A * world.

Definition io_ret {A} (a : A) : IO A := fun w => (Ok a, w).

Definition io_raise {A} (e : exn) : IO A := fun w => (Raise e, w).

Definition io_bind {A B} (m : IO A) (f : A -> IO B) : IO B :=
  fun w =>
    match m w with
    | (Ok a, w') => f a w'
    | (Raise e, w') => (Raise e, w')
    end.

(** A computation on the network, in the world. *)
Definition on_net {A} (m : M A) : IO A :=
  fun w =>
    let '(r, tr') := m (net w) in
    (r, {| files := files w; net := tr'; console := console w |}).

(** [print(line)] *)
Definition print (line : str) : IO unit :=
  fun w =>
    (Ok tt, {| files := files w; net := net w; console := console w ++ [line] |}).

Declare Scope io_scope.
Delimit Scope io_scope with io.
Notation "x <- m ;; k" := (io_bind m (fun x => k))
  (at level 61, m at next level, right associativity) : io_scope.
Notation "m ;;; k" := (io_bind m (fun _ => k))
  (at level 61, right associativity) : io_scope.

Definition done_line : str := lit "Done. Source: arena.ai live pages.".

Section Driver.
Context {R : PyRuntime}.
Variable J : Type.
Context {codec : JsonCodec J}.

(** The outside world: the network; the exception, if any, that
    opening a file of the data directory for writing raises (the file
    is then left as it is); the exception, if any, that
    [data_dir.mkdir(parents=True, exist_ok=True)] raises. *)
Variable network : trace -> str -> Z -> reply.
Variable write_error : str -> option exn.
Variable mkdir_error : option exn.

(** *** [fetch_catalog_json] *)

Definition catalog_url (filename : str) : str :=
  CATALOG_BASE_URL ++ lit "/" ++ filename.

Definition fetch_catalog_json (filename : str) : M (document J) :=
  (text <- http_get_text network (catalog_url filename) 60 2 ;;
   lift (json_loads text))%py.

(** *** [load_base_data] *)

(** [data_dir / filename] is the file of that name in the data
    directory. *)
Definition load_base_data (filename : str) : IO (document J) :=
  fun w =>
    match dict_get filename (files w) with
    | Some (FileText content) => (json_loads content, w)
    | Some (FileError e) => (Raise e, w)
    | None => on_net (fetch_catalog_json filename) w
    end.

(** *** [write_json] *)

Definition write_json (filename : str) (data : document J) : IO unit :=
  fun w =>
    match write_error filename with
    | Some e => (Raise e, w)
    | None =>
        (Ok tt,
         {| files := dict_set filename (FileText (json_dumps data)) (files w);
            net := net w;
            console := console w |})
    end.

(** *** [refresh_categories] on any document *)

(** One turn of the loop of [refresh_categories] when [target_data] is
    not a dict: the assignment raises, after the page was fetched and
    the table extracted, and the category is skipped. *)
Definition refresh_category_not_object (assign_error : str) (modality : str)
    (style_control : option bool) (output_key category_slug : str)
    (skipped : list (str * str)) : M (list (str * str)) :=
  let path := build_leaderboard_path modality category_slug style_control in
  let url := ARENA_BASE_URL ++ path in
  try_except
    (parsed <- fetch_table network url ;;
     raise {| cls := OtherException; message := assign_error |})%py
    (fun exc => ret (skipped ++ [(output_key, message exc)])).

Fixpoint refresh_loop_not_object (assign_error : str) (modality : str)
    (style_control : option bool) (items : list (str * str))
    (skipped : list (str * str)) : M (list (str * str)) :=
  match items with
  | [] => ret skipped
  | (output_key, category_slug) :: rest =>
      (skipped' <- refresh_category_not_object assign_error modality
                     style_control output_key category_slug skipped ;;
       refresh_loop_not_object assign_error modality style_control rest skipped')%py
  end.

(** [refresh_categories(base_data, ...)] on what [load_base_data]
    returned: the document as the call leaves it, [updated] and
    [skipped]. *)
Definition refresh_document (base_data : document J) (modality : str)
    (category_map : dict str) (style_control : option bool)
  : M (document J * list str * list (str * str)) :=
  match base_data with
  | Object d =>
      (st <- refresh_categories network d modality category_map style_control ;;
       ret (Object (target_data st), updated st, skipped st))%py
  | NotObject j assign_error =>
      (skipped <- refresh_loop_not_object assign_error modality style_control
                    category_map [] ;;
       ret (base_data, [], skipped))%py
  end.

(** *** [update_all_files] *)

Definition updated_line (filename : str) (count : nat) : str :=
  filename ++ lit ": updated " ++ str_of_N (N.of_nat count) ++ lit " categories".

Definition skipped_line (item : str * str * str) : str :=
  let '(filename, key, reason) := item in
  lit "- " ++ filename ++ lit " -> " ++ key ++ lit ": " ++ reason.

(** [for line in lines: print(line)] *)
Fixpoint print_all (lines : list str) : IO unit :=
  match lines with
  | [] => io_ret tt
  | line :: rest => (print line ;;; print_all rest)%io
  end.

(** The loop of [update_all_files] over the specifications. *)
Fixpoint update_files_loop (specs : dict file_spec)
    (all_skipped : list (str * str * str)) : IO (list (str * str * str)) :=
  match specs with
  | [] => io_ret all_skipped
  | (filename, (modality, category_map, style_control)) :: rest =>
      (base_data <- load_base_data filename ;;
       refreshed <- on_net (refresh_document base_data modality category_map
                              style_control) ;;
       let '(data, updated, skipped) := refreshed in
       write_json filename data ;;;
       print (updated_line filename (List.length updated)) ;;;
       update_files_loop rest
         (all_skipped
            ++ List.map (fun p : str * str => (filename, fst p, snd p)) skipped))%io
  end.

Definition skipped_header : str := lit "Skipped categories (kept existing values):".

(** The report at the end of [update_all_files]. *)
Definition report (all_skipped : list (str * str * str)) : list str :=
  match all_skipped with
  | [] => []
  | _ :: _ => skipped_header :: List.map skipped_line all_skipped
  end.

Definition update_all_files : IO unit :=
  (match mkdir_error with
   | Some e => io_raise e
   | None => io_ret tt
   end ;;;
   all_skipped <- update_files_loop FILE_SPECS [] ;;
   print_all (report all_skipped))%io.

(** *** [main], once the arguments are parsed *)

Definition main : IO unit :=
  (update_all_files ;;;
   print done_line)%io.

End Driver.

Arguments fetch_catalog_json {J codec} network filename.
Arguments load_base_data {J codec} network filename.
Arguments write_json {J codec} write_error filename data.
Arguments refresh_category_not_object {R} network assign_error modality
  style_control output_key category_slug skipped.
Arguments refresh_loop_not_object {R} network assign_error modality
  style_control items skipped.
Arguments refresh_document {R J} network base_data modality category_map
  style_control.
Arguments update_files_loop {R J codec} network write_error specs all_skipped.
Arguments update_all_files {R J codec} network write_error mkdir_error.
Arguments main {R J codec} network write_error mkdir_error.

(** *** What a run leaves of a document, and what it may ask for *)

(** How the document written for a file stands to the one loaded: a
    dict keeps its keys, and its entries outside the category map; an
    entry that differs is a table the program extracted, with a model
    at least.  A document that is not a dict is written as loaded. *)
Definition carried_over {J} (category_map : dict str)
    (loaded refreshed : document J) : Prop :=
  match loaded, refreshed with
  | Object d, Object d' =>
      (forall k, In k (keys d) -> In k (keys d')) /\
      (forall k, ~ In k (keys category_map) -> dict_get k d' = dict_get k d) /\
      (forall k, dict_get k d' <> dict_get k d -> extracted_entry d' k)
  | NotObject j m, NotObject j' m' => j = j' /\ m = m'
  | _, _ => False
  end.

(** The numbers of categories, of requests and of sleeps that the
    specifications allow in all: two requests and a sleep for the
    catalog, three requests and two sleeps for a category. *)
Definition total_categories (specs : dict file_spec) : nat :=
  list_sum (List.map (fun p : str * file_spec =>
                        List.length (snd (fst (snd p)))) specs).

Definition request_budget (specs : dict file_spec) : nat :=
  list_sum (List.map (fun p : str * file_spec =>
                        2 + 3 * List.length (snd (fst (snd p))))%nat specs).

Definition sleep_budget (specs : dict file_spec) : nat :=
  list_sum (List.map (fun p : str * file_spec =>
                        1 + 2 * List.length (snd (fst (snd p))))%nat specs).

(** A request a run may make, given the files at its start: for the
    catalog's copy of a file that is missing, with a timeout of 60, or
    for the page of a category of a file, with the default timeout. *)
Definition allowed_request (specs : dict file_spec) (start : dict file)
    (ev : event) : Prop :=
  (exists filename,
      In filename (keys specs) /\ dict_get filename start = None /\
      ev = request (CATALOG_BASE_URL ++ lit "/" ++ filename) 60) \/
  (exists filename modality category_map style_control key slug,
      In (filename, (modality, category_map, style_control)) specs /\
      In (key, slug) category_map /\
      ev = request (category_url modality style_control slug) default_timeout).

(** The lines [update_all_files] prints for the files, given the
    numbers of their updated categories. *)
Definition updated_lines (names : list str) (counts : list nat) : list str :=
  List.map (fun p : str * nat => updated_line (fst p) (snd p))
           (combine names counts).


(** *** Inputs of the examples for the driver *)

(** A network whose first request times out and whose later requests
    get a page. *)
Definition network_second_try : trace -> str -> Z -> reply :=
  fun tr _ _ =>
    match tr with
    | [] => NoResponse timed_out
    | _ :: _ => Response 200 (lit "OK") page_two_rows
    end.

(** A network that answers every request with a page without a
    table. *)
Definition network_no_table : trace -> str -> Z -> reply :=
  network_page (lit "<html>maintenance</html>").

(** A stand-in for the [json] module on the two texts of the examples:
    the empty object and [null]; it writes the keys of a dict only. *)
Definition not_json : exn :=
  {| cls := ValueError; message := lit "Expecting value: line 1 column 1 (char 0)" |}.

Definition none_assign_error : str :=
  lit "'NoneType' object does not support item assignment".

Definition keys_codec : JsonCodec unit := {|
  json_loads := fun text =>
    if str_eqb text (lit "{}") then Ok (Object [])
    else if str_eqb text (lit "null") then Ok (NotObject tt none_assign_error)
    else Raise not_json;
  json_dumps := fun data =>
    match data with
    | Object d => lit "{" ++ List.concat (keys d) ++ lit "}"
    | NotObject _ _ => lit "null"
    end
|}.

(** A data directory with the five files, each an empty object, and
    one where the first file cannot be read. *)
Definition files_empty_objects : dict file :=
  List.map (fun name => (name, FileText (lit "{}"))) (keys FILE_SPECS).

Definition world_empty_objects : world :=
  {| files := files_empty_objects; net := []; console := [] |}.



Definition no_write_error : str -> option exn := fun _ => None.


(* ================================================================== *)
(** ** Properties *)
(* ================================================================== *)

(** *** Strings and dictionaries *)

Lemma str_eqb_eq (a b : str) : str_eqb a b = true <-> a = b.
Proof.
  unfold str_eqb. destruct (list_eq_dec N.eq_dec a b); split; congruence.
Qed.

Lemma str_eqb_refl (a : str) : str_eqb a a = true.
Proof. now apply str_eqb_eq. Qed.

Lemma str_eqb_neq (a b : str) : str_eqb a b = false <-> a <> b.
Proof.
  unfold str_eqb. destruct (list_eq_dec N.eq_dec a b); split; congruence.
Qed.

Lemma dict_get_set_same {V} (k : str) (v : V) (d : dict V) :
  dict_get k (dict_set k v d) = Some v.
Proof.
  induction d as [|[k' v'] d IH]; simpl.
  - now rewrite str_eqb_refl.
  - destruct (str_eqb k k') eqn:E; simpl; rewrite E; auto.
Qed.

Lemma dict_get_set_other {V} (k k' : str) (v : V) (d : dict V) :
  k <> k' -> dict_get k' (dict_set k v d) = dict_get k' d.
Proof.
  intros Hne. induction d as [|[k0 v0] d IH]; simpl.
  - assert (str_eqb k' k = false) as -> by (apply str_eqb_neq; congruence).
    reflexivity.
  - destruct (str_eqb k k0) eqn:E; simpl.
    + apply str_eqb_eq in E. subst k0.
      assert (str_eqb k' k = false) as -> by (apply str_eqb_neq; congruence).
      reflexivity.
    + destruct (str_eqb k' k0); auto.
Qed.

Lemma dict_set_not_empty {V} (k : str) (v : V) (d : dict V) :
  dict_set k v d <> [].
Proof.
  destruct d as [|[k' v'] d]; simpl; [discriminate|].
  destruct (str_eqb k k'); discriminate.
Qed.

Lemma dict_set_keys_in {V} (k : str) (v : V) (d : dict V) (x : str) :
  In x (keys (dict_set k v d)) <-> x = k \/ In x (keys d).
Proof.
  unfold keys. induction d as [|[k' v'] d IH]; simpl.
  - intuition.
  - destruct (str_eqb k k') eqn:E; simpl.
    + apply str_eqb_eq in E. subst. intuition.
    + rewrite IH. intuition.
Qed.

Lemma dict_set_keys_nodup {V} (k : str) (v : V) (d : dict V) :
  NoDup (keys d) -> NoDup (keys (dict_set k v d)).
Proof.
  unfold keys. induction d as [|[k' v'] d IH]; simpl; intros Hnd.
  - constructor; [intros []|constructor].
  - destruct (str_eqb k k') eqn:E; simpl; [exact Hnd|].
    inversion Hnd as [|? ? Hnotin Hnd']; subst.
    constructor; [|auto].
    intros Hin. apply (dict_set_keys_in k v d k') in Hin.
    destruct Hin as [->|Hin]; [|contradiction].
    rewrite str_eqb_refl in E. discriminate.
Qed.

Lemma dict_get_in {V} (k : str) (v : V) (d : dict V) :
  dict_get k d = Some v -> In (k, v) d.
Proof.
  induction d as [|[k' v'] d IH]; simpl; [discriminate|].
  destruct (str_eqb k k') eqn:E.
  - apply str_eqb_eq in E. subst. intros [= ->]. now left.
  - intros H. right. auto.
Qed.

Lemma dict_in_set {V} (k : str) (v : V) (d : dict V) (k' : str) (v' : V) :
  In (k', v') (dict_set k v d) -> (k' = k /\ v' = v) \/ In (k', v') d.
Proof.
  induction d as [|[k0 v0] d IH]; simpl.
  - intros [[= <- <-]|[]]. now left.
  - destruct (str_eqb k k0) eqn:E; simpl.
    + apply str_eqb_eq in E. subst k0.
      intros [[= <- <-]|H]; [now left|now right; right].
    + intros [H|H]; [now right; left|].
      destruct (IH H) as [H'|H']; [now left|now right; right].
Qed.

(** *** The path of a category *)

(** C8. [build_leaderboard_path] is a total function of its three
    arguments: without a flag ([None]) and with the flag on ([True]) it
    returns ["/leaderboard/{modality}/{slug}"], the same path for both;
    with the flag off ([False]) it returns that path followed by
    ["-no-style-control"]. *)
Theorem build_leaderboard_path_variants (modality category_slug : str) :
  let canonical := lit "/leaderboard/" ++ modality ++ lit "/" ++ category_slug in
  build_leaderboard_path modality category_slug None = canonical /\
  build_leaderboard_path modality category_slug (Some true) = canonical /\
  build_leaderboard_path modality category_slug (Some true)
    = build_leaderboard_path modality category_slug None /\
  build_leaderboard_path modality category_slug (Some false)
    = canonical ++ lit "-no-style-control".
Proof.
  simpl. repeat split.
  now rewrite <- !app_assoc.
Qed.

(** *** The fetcher *)

Section FetcherFacts.
Context {R : PyRuntime}.
Variable network : trace -> str -> Z -> reply.

Lemma urlopen_read_trace (url : str) (timeout : Z) (tr : trace) :
  snd (urlopen_read network url timeout tr) = tr ++ [request url timeout].
Proof.
  unfold urlopen_read.
  destruct (network tr url timeout) as [status reason body|e]; [|reflexivity].
  destruct ((200 <=? status) && (status <? 300)); reflexivity.
Qed.

Lemma urlopen_read_eq (url : str) (timeout : Z) (tr : trace) :
  urlopen_read network url timeout tr
  = (fst (urlopen_read network url timeout tr), tr ++ [request url timeout]).
Proof.
  rewrite <- urlopen_read_trace. now destruct (urlopen_read _ _ _ _).
Qed.

Lemma loop_step_ok (url : str) (timeout retries attempt : Z) (rest : list Z)
    (last : option exn) (tr : trace) (text : str) :
  fst (urlopen_read network url timeout tr) = Ok text ->
  http_get_text_loop network url timeout retries (attempt :: rest) last tr
  = (Ok text, tr ++ [request url timeout]).
Proof.
  intros H. cbn [http_get_text_loop]. rewrite urlopen_read_eq, H. reflexivity.
Qed.

Lemma loop_step_retry (url : str) (timeout retries attempt : Z) (rest : list Z)
    (last : option exn) (tr : trace) (e : exn) :
  attempt_fails network url timeout tr e ->
  http_get_text_loop network url timeout retries (attempt :: rest) last tr
  = after_failure network url timeout retries attempt rest e (tr ++ [request url timeout]).
Proof.
  intros [H Ht]. cbn [http_get_text_loop].
  rewrite urlopen_read_eq, H, Ht. reflexivity.
Qed.

Lemma loop_step_raise (url : str) (timeout retries attempt : Z) (rest : list Z)
    (last : option exn) (tr : trace) (e : exn) :
  fst (urlopen_read network url timeout tr) = Raise e ->
  is_transport_error e = false ->
  http_get_text_loop network url timeout retries (attempt :: rest) last tr
  = (Raise e, tr ++ [request url timeout]).
Proof.
  intros H Ht. cbn [http_get_text_loop].
  rewrite urlopen_read_eq, H, Ht. reflexivity.
Qed.

Lemma range_pos (n : Z) :
  (0 < n)%Z -> range n = 0%Z :: List.map Z.of_nat (List.seq 1 (Z.to_nat n - 1)).
Proof.
  intros H. unfold range.
  destruct (Z.to_nat n) as [|k] eqn:E; [lia|].
  simpl. now rewrite Nat.sub_0_r.
Qed.

Lemma after_failure_sleep (url : str) (timeout retries attempt : Z)
    (rest : list Z) (e : exn) (tr : trace) :
  (attempt < retries - 1)%Z ->
  after_failure network url timeout retries attempt rest e tr
  = http_get_text_loop network url timeout retries rest (Some e)
      (tr ++ [Slept (F64.mul F64.lit_1_2 (float_of_Z (attempt + 1)))]).
Proof.
  intros H. unfold after_failure, bind.
  apply Z.ltb_lt in H. rewrite H. reflexivity.
Qed.

Lemma after_failure_last (url : str) (timeout retries attempt : Z)
    (rest : list Z) (e : exn) (tr : trace) :
  (retries - 1 <= attempt)%Z ->
  after_failure network url timeout retries attempt rest e tr
  = http_get_text_loop network url timeout retries rest (Some e) tr.
Proof.
  intros H. unfold after_failure, bind.
  apply Z.ltb_ge in H. rewrite H. reflexivity.
Qed.

(** The three failed attempts of a call with the defaults. *)
Lemma three_failures (url : str) (tr : trace) (e1 e2 e3 : exn) :
  let req := request url default_timeout in
  let d1 := F64.mul F64.lit_1_2 (float_of_Z 1) in
  let d2 := F64.mul F64.lit_1_2 (float_of_Z 2) in
  attempt_fails network url default_timeout tr e1 ->
  attempt_fails network url default_timeout (tr ++ [req; Slept d1]) e2 ->
  attempt_fails network url default_timeout (tr ++ [req; Slept d1; req; Slept d2]) e3 ->
  http_get_text network url default_timeout default_retries tr
  = (Raise (retries_exhausted default_retries url (Some e3)),
     tr ++ [req; Slept d1; req; Slept d2; req]).
Proof.
  intros req d1 d2 H1 H2 H3.
  unfold http_get_text, default_retries.
  change (range 3) with [0%Z; 1%Z; 2%Z].
  rewrite (loop_step_retry _ _ _ _ _ _ _ _ H1).
  rewrite after_failure_sleep by lia.
  change (0 + 1)%Z with 1%Z. fold d1. fold req.
  rewrite <- app_assoc. cbn [app].
  rewrite (loop_step_retry _ _ _ _ _ _ _ _ H2).
  rewrite after_failure_sleep by lia.
  change (1 + 1)%Z with 2%Z. fold d2. fold req.
  rewrite <- !app_assoc. cbn [app].
  rewrite (loop_step_retry _ _ _ _ _ _ _ _ H3).
  rewrite after_failure_last by lia.
  cbn [http_get_text_loop]. unfold raise. fold req.
  rewrite <- !app_assoc. reflexivity.
Qed.

Section RefresherFacts.
Variable J : Type.
Variables (modality : str) (style_control : option bool).

Lemma refresh_category_fail (output_key category_slug : str)
    (st : refresh_state J) (tr tr' : trace) (e : exn) :
  fetch_table network (category_url modality style_control category_slug) tr = (Raise e, tr') ->
  refresh_category network modality style_control output_key category_slug st tr
  = (Ok (skip_state st output_key e), tr').
Proof.
  intros H. unfold refresh_category, try_except, bind.
  fold (category_url modality style_control category_slug). now rewrite H.
Qed.

Lemma refresh_category_ok (output_key category_slug : str)
    (st : refresh_state J) (tr tr' : trace) (parsed : table) :
  fetch_table network (category_url modality style_control category_slug) tr = (Ok parsed, tr') ->
  refresh_category network modality style_control output_key category_slug st tr
  = (Ok (store_state st output_key parsed), tr').
Proof.
  intros H. unfold refresh_category, try_except, bind.
  fold (category_url modality style_control category_slug). now rewrite H.
Qed.

(** A turn of the loop never raises: it stores or it skips. *)
Lemma refresh_category_cases (output_key category_slug : str)
    (st : refresh_state J) (tr : trace) :
  exists tr',
    (exists parsed,
        fetch_table network (category_url modality style_control category_slug) tr = (Ok parsed, tr') /\
        refresh_category network modality style_control output_key category_slug st tr
        = (Ok (store_state st output_key parsed), tr')) \/
    (exists e,
        fetch_table network (category_url modality style_control category_slug) tr = (Raise e, tr') /\
        refresh_category network modality style_control output_key category_slug st tr
        = (Ok (skip_state st output_key e), tr')).
Proof.
  destruct (fetch_table network (category_url modality style_control category_slug) tr) as [[parsed|e] tr'] eqn:E;
    exists tr'.
  - left. exists parsed. split; [reflexivity|]. now apply refresh_category_ok.
  - right. exists e. split; [reflexivity|]. now apply refresh_category_fail.
Qed.

Lemma fetch_table_fetched (url : str) (tr tr' : trace) (html : str) :
  http_get_text network url default_timeout default_retries tr = (Ok html, tr') ->
  fetch_table network url tr
  = (if contains (lit "<table") (lower html)
     then parse_leaderboard_table html else Raise no_table_error, tr').
Proof.
  intros H. unfold fetch_table, bind. rewrite H.
  destruct (contains (lit "<table") (lower html)); reflexivity.
Qed.

Lemma fetch_table_not_fetched (url : str) (tr tr' : trace) (e : exn) :
  http_get_text network url default_timeout default_retries tr = (Raise e, tr') ->
  fetch_table network url tr = (Raise e, tr').
Proof.
  intros H. unfold fetch_table, bind. now rewrite H.
Qed.

Lemma refresh_loop_cons (output_key category_slug : str) (rest : dict str)
    (st st1 : refresh_state J) (tr tr1 : trace) :
  refresh_category network modality style_control output_key category_slug st tr
  = (Ok st1, tr1) ->
  refresh_loop network modality style_control ((output_key, category_slug) :: rest) st tr
  = refresh_loop network modality style_control rest st1 tr1.
Proof.
  intros H. simpl. unfold bind. now rewrite H.
Qed.

(** The loop never raises, whatever the network does. *)
Lemma refresh_loop_total (items : dict str) (st : refresh_state J) (tr : trace) :
  exists st' tr',
    refresh_loop network modality style_control items st tr = (Ok st', tr').
Proof.
  revert st tr. induction items as [|[k slug] items IH]; intros st tr.
  - exists st, tr. reflexivity.
  - destruct (refresh_category_cases k slug st tr) as [tr1 [[p [_ H]]|[e [_ H]]]];
      rewrite (refresh_loop_cons _ _ _ _ _ _ _ H); apply IH.
Qed.

Lemma refresh_loop_app (items1 items2 : dict str) (st st1 : refresh_state J)
    (tr tr1 : trace) :
  refresh_loop network modality style_control items1 st tr = (Ok st1, tr1) ->
  refresh_loop network modality style_control (items1 ++ items2) st tr
  = refresh_loop network modality style_control items2 st1 tr1.
Proof.
  revert st tr. induction items1 as [|[k slug] items1 IH]; intros st tr H.
  - simpl in *. unfold ret in H. now inversion H.
  - simpl app.
    destruct (refresh_category_cases k slug st tr) as [tr0 [[p [_ H0]]|[e [_ H0]]]];
      rewrite (refresh_loop_cons _ _ (items1 ++ items2) _ _ _ _ H0);
      rewrite (refresh_loop_cons _ _ items1 _ _ _ _ H0) in H; now apply IH.
Qed.

(** What the loop leaves as it found it: the entries of the keys it
    does not go through, and what the lists already hold; and what it
    adds: one key to one of the lists for each category. *)
Lemma refresh_loop_frame (items : dict str) (st st' : refresh_state J)
    (tr tr' : trace) :
  refresh_loop network modality style_control items st tr = (Ok st', tr') ->
  (forall k, ~ In k (keys items) ->
             dict_get k (target_data st') = dict_get k (target_data st)) /\
  (forall x, In x (skipped st) -> In x (skipped st')) /\
  (forall k, In k (updated st') -> In k (updated st) \/ In k (keys items)) /\
  (List.length (updated st') + List.length (skipped st')
   = List.length (updated st) + List.length (skipped st) + List.length items)%nat.
Proof.
  revert st tr. induction items as [|[k slug] items IH]; intros st tr H.
  - simpl in H. unfold ret in H. inversion H; subst.
    repeat split; auto; simpl; lia.
  - destruct (refresh_category_cases k slug st tr) as [tr0 [[p [_ H0]]|[e [_ H0]]]];
      rewrite (refresh_loop_cons _ _ _ _ _ _ _ H0) in H;
      destruct (IH _ _ H) as (Hd & Hs & Hu & Hl); simpl in *.
    + repeat split.
      * intros k' Hk'. rewrite Hd by tauto.
        apply dict_get_set_other. tauto.
      * auto.
      * intros k' Hk'. destruct (Hu _ Hk') as [Hin|Hin]; [|tauto].
        apply in_app_or in Hin. simpl in Hin. tauto.
      * rewrite Hl, length_app. simpl. lia.
    + repeat split.
      * intros k' Hk'. apply Hd. tauto.
      * intros x Hx. apply Hs. apply in_or_app. now left.
      * intros k' Hk'. destruct (Hu _ Hk'); tauto.
      * rewrite Hl, length_app. simpl. lia.
Qed.

(** When the fetch or the extraction of a category raises: the state
    at the end of the run. *)
Lemma refresh_split_fail (data : dict (entry J)) (before after : dict str)
    (key slug : str) (tr0 tr1 tr2 : trace) (st1 : refresh_state J) (e : exn) :
  NoDup (keys (before ++ (key, slug) :: after)) ->
  refresh_categories network data modality before style_control tr0 = (Ok st1, tr1) ->
  fetch_table network (category_url modality style_control slug) tr1 = (Raise e, tr2) ->
  exists final tr3,
    refresh_categories network data modality (before ++ (key, slug) :: after)
      style_control tr0 = (Ok final, tr3) /\
    refresh_loop network modality style_control after (skip_state st1 key e) tr2
    = (Ok final, tr3) /\
    target_data st1 = target_data (skip_state st1 key e) /\
    dict_get key (target_data final) = dict_get key data /\
    In (key, message e) (skipped final) /\
    ~ In key (updated final) /\
    (List.length (updated final) + List.length (skipped final)
     = List.length (before ++ (key, slug) :: after))%nat.
Proof.
  intros Hnd Hbefore Hfail.
  unfold refresh_categories in *.
  destruct (refresh_loop_total after (skip_state st1 key e) tr2) as (final & tr3 & Hafter).
  exists final, tr3.
  assert (Hrun : refresh_loop network modality style_control
                   (before ++ (key, slug) :: after)
                   {| target_data := data; updated := []; skipped := [] |} tr0
                 = (Ok final, tr3)).
  { rewrite (refresh_loop_app _ _ _ _ _ _ Hbefore).
    rewrite (refresh_loop_cons _ _ _ _ _ _ _
               (refresh_category_fail key slug st1 _ _ _ Hfail)).
    exact Hafter. }
  unfold keys in Hnd. rewrite map_app in Hnd. simpl in Hnd.
  apply NoDup_remove in Hnd. destruct Hnd as [_ Hnotin].
  destruct (refresh_loop_frame _ _ _ _ _ Hbefore) as (Hd1 & _ & Hu1 & _).
  destruct (refresh_loop_frame _ _ _ _ _ Hafter) as (Hd2 & Hs2 & Hu2 & _).
  destruct (refresh_loop_frame _ _ _ _ _ Hrun) as (_ & _ & _ & Hl).
  simpl in *.
  repeat split; auto.
  - rewrite Hd2, Hd1; auto; unfold keys; intros Hin; apply Hnotin, in_or_app; tauto.
  - apply Hs2, in_or_app. right. now left.
  - intros Hin. destruct (Hu2 _ Hin) as [Hin'|Hin'].
    + destruct (Hu1 _ Hin') as [[]|Hin'']. apply Hnotin, in_or_app. now left.
    + apply Hnotin, in_or_app. now right.
Qed.

End RefresherFacts.
End FetcherFacts.

(** *** The loop over the rows *)

Section ExtractorFacts.
Context {R : PyRuntime}.

Lemma row_body_filtered (row : str) :
  passes_filters row = false -> row_body row = Continue.
Proof.
  unfold passes_filters, row_body, row_name, row_cells.
  destruct (Nat.ltb_spec (List.length (findall flag_SI cell_re row)) 4) as [Hlt|Hge];
    [reflexivity|].
  assert ((4 <=? List.length (findall flag_SI cell_re row))%nat = true) as ->
    by now apply Nat.leb_le.
  simpl.
  destruct (search flag_SI title_re row) as [g|]; [|reflexivity].
  destruct (strip _); [reflexivity|discriminate].
Qed.

Lemma row_body_passed (row : str) :
  passes_filters row = true ->
  exists model_name,
    row_name row = Some model_name /\ model_name <> [] /\
    row_body row =
      match parse_rating_cell (rating_text row) with
      | Raise e => Abort e
      | Ok (rating, uncertainty) => Store model_name (record_of rating uncertainty)
      end.
Proof.
  unfold passes_filters, row_body, row_name, rating_text, row_cells.
  intros H. apply andb_prop in H. destruct H as [Hlen Hname].
  apply Nat.leb_le in Hlen.
  destruct (Nat.ltb_spec (List.length (findall flag_SI cell_re row)) 4) as [Hlt|_];
    [lia|].
  destruct (search flag_SI title_re row) as [g|]; [|discriminate].
  destruct (strip _) as [|c name] eqn:E; [discriminate|].
  exists (c :: name). split; [reflexivity|split; [discriminate|]].
  destruct (parse_rating_cell _) as [[r u]|e]; reflexivity.
Qed.

Lemma parse_rating_cell_no_number (cell_text : str) :
  findall no_flags number_re cell_text = [] ->
  parse_rating_cell cell_text = Raise (no_rating_error cell_text).
Proof.
  intros H. unfold parse_rating_cell. now rewrite H.
Qed.

Lemma parse_rows_app (rows1 rows2 : list str) (parsed : table) :
  parse_rows (rows1 ++ rows2) parsed =
  match parse_rows rows1 parsed with
  | Ok parsed1 => parse_rows rows2 parsed1
  | Raise e => Raise e
  end.
Proof.
  revert parsed. induction rows1 as [|row rows1 IH]; intros parsed; simpl.
  - reflexivity.
  - destruct (row_body row); auto.
Qed.

Lemma parse_rows_all_continue (rows : list str) (parsed : table) :
  (forall row, In row rows -> row_body row = Continue) ->
  parse_rows rows parsed = Ok parsed.
Proof.
  induction rows as [|row rows IH]; intros H; simpl.
  - reflexivity.
  - rewrite (H row) by now left. apply IH. intros r Hr. apply H. now right.
Qed.

Lemma parse_rows_skip (before after : list str) (row : str) (parsed : table) :
  row_body row = Continue ->
  parse_rows (before ++ row :: after) parsed = parse_rows (before ++ after) parsed.
Proof.
  intros H. rewrite !parse_rows_app.
  destruct (parse_rows before parsed); [|reflexivity].
  simpl. now rewrite H.
Qed.

(** The loop raises at the first row whose body raises. *)
Lemma parse_rows_abort (before after : list str) (row : str) (parsed : table)
    (e : exn) :
  (forall r, In r before -> forall e', row_body r <> Abort e') ->
  row_body row = Abort e ->
  parse_rows (before ++ row :: after) parsed = Raise e.
Proof.
  revert parsed. induction before as [|r before IH]; intros parsed Hb Hrow; simpl.
  - now rewrite Hrow.
  - destruct (row_body r) eqn:E.
    + apply IH; auto. intros r' Hr'. apply Hb. now right.
    + apply IH; auto. intros r' Hr'. apply Hb. now right.
    + exfalso. apply (Hb r (or_introl eq_refl) e0). exact E.
Qed.

(** A name keeps its record through the rows that do not store it. *)
Lemma parse_rows_keeps (rows : list str) (parsed final : table) (name : str) :
  (forall r rec, In r rows -> row_body r <> Store name rec) ->
  parse_rows rows parsed = Ok final ->
  dict_get name final = dict_get name parsed.
Proof.
  revert parsed. induction rows as [|row rows IH]; intros parsed Hno H; simpl in H.
  - now inversion H.
  - assert (Hno' : forall r rec, In r rows -> row_body r <> Store name rec)
      by (intros r rec Hr; apply Hno; now right).
    destruct (row_body row) as [|n rec|e] eqn:E.
    + now apply IH.
    + rewrite (IH _ Hno' H). apply dict_get_set_other.
      intros ->. apply (Hno row rec (or_introl eq_refl)). exact E.
    + discriminate.
Qed.

Lemma parse_rows_last_store (before after : list str) (row : str)
    (parsed final : table) (name : str) (rec : score_record) :
  row_body row = Store name rec ->
  (forall r rec', In r after -> row_body r <> Store name rec') ->
  parse_rows (before ++ row :: after) parsed = Ok final ->
  dict_get name final = Some rec.
Proof.
  intros Hrow Hafter H. rewrite parse_rows_app in H.
  destruct (parse_rows before parsed) as [p1|e]; [|discriminate].
  simpl in H. rewrite Hrow in H.
  rewrite (parse_rows_keeps _ _ _ _ Hafter H).
  apply dict_get_set_same.
Qed.

(** Every pair of the result was in the dictionary at the start or was
    stored by a row. *)
Lemma parse_rows_origin (rows : list str) (parsed final : table)
    (name : str) (rec : score_record) :
  parse_rows rows parsed = Ok final ->
  In (name, rec) final ->
  In (name, rec) parsed \/ exists row, In row rows /\ row_body row = Store name rec.
Proof.
  revert parsed. induction rows as [|row rows IH]; intros parsed H Hin; simpl in H.
  - inversion H; subst. now left.
  - destruct (row_body row) as [|n r|e] eqn:E.
    + destruct (IH _ H Hin) as [Hp|[r' [Hr' Hb]]]; [now left|].
      right. exists r'. split; [now right|exact Hb].
    + destruct (IH _ H Hin) as [Hp|[r' [Hr' Hb]]].
      * destruct (dict_in_set _ _ _ _ _ Hp) as [[-> ->]|Hp']; [|now left].
        right. exists row. split; [now left|exact E].
      * right. exists r'. split; [now right|exact Hb].
    + discriminate.
Qed.

Lemma parse_rows_not_empty (rows : list str) (parsed final : table) :
  parsed <> [] -> parse_rows rows parsed = Ok final -> final <> [].
Proof.
  revert parsed. induction rows as [|row rows IH]; intros parsed Hne H; simpl in H.
  - now inversion H; subst.
  - destruct (row_body row) as [|n r|e].
    + now apply (IH parsed).
    + apply (IH (dict_set n r parsed)); [apply dict_set_not_empty|exact H].
    + discriminate.
Qed.

Lemma parse_rows_keys_nodup (rows : list str) (parsed final : table) :
  NoDup (keys parsed) -> parse_rows rows parsed = Ok final -> NoDup (keys final).
Proof.
  revert parsed. induction rows as [|row rows IH]; intros parsed Hnd H; simpl in H.
  - now inversion H; subst.
  - destruct (row_body row) as [|n r|e].
    + now apply (IH parsed).
    + apply (IH (dict_set n r parsed)); [now apply dict_set_keys_nodup|exact H].
    + discriminate.
Qed.

Lemma parse_leaderboard_table_ok (html : str) (parsed : table) :
  parse_leaderboard_table html = Ok parsed ->
  parse_rows (findall flag_SI row_re html) [] = Ok parsed /\ parsed <> [].
Proof.
  unfold parse_leaderboard_table.
  destruct (parse_rows _ []) as [[|p t]|e]; try discriminate.
  intros [= <-]. split; [reflexivity|discriminate].
Qed.

Lemma parse_leaderboard_table_raise (html : str) (e : exn) :
  parse_rows (findall flag_SI row_re html) [] = Raise e ->
  parse_leaderboard_table html = Raise e.
Proof.
  unfold parse_leaderboard_table. now intros ->.
Qed.

Lemma parse_leaderboard_table_empty (html : str) :
  (forall row, In row (findall flag_SI row_re html) -> row_body row = Continue) ->
  parse_leaderboard_table html = Raise empty_table_error.
Proof.
  intros H. unfold parse_leaderboard_table.
  now rewrite (parse_rows_all_continue _ _ H).
Qed.

End ExtractorFacts.

(** *** The matcher matches what the pattern says *)

Section MatcherFacts.
Context {R : PyRuntime}.
Variable fl : flags.

Lemma one_within {A} (ok : char -> bool) :
  within (A:=A) (fun _ s g k => one ok s g k)
    (fun w => exists x, w = [x] /\ ok x = true).
Proof.
  intros prev s g k x H. unfold one in H.
  destruct s as [|c s']; [discriminate|].
  destruct (ok c) eqn:E; [|discriminate].
  exists [c], (Some c), s', g. repeat split; eauto.
Qed.

Lemma greedy_within {A} (step : matcher A) (P : str -> Prop) (fuel : nat) :
  within step P ->
  within (greedy step fuel) (fun w => exists ws, w = List.concat ws /\ Forall P ws).
Proof.
  intros Hstep. induction fuel as [|f IH]; intros prev s g k x H; simpl in H.
  - exists [], prev, s, g. repeat split; auto. exists []. auto.
  - match type of H with
    | match ?m with _ => _ end = _ => destruct m as [a|] eqn:E
    end.
    + inversion H; subst a. clear H.
      apply Hstep in E. destruct E as (w & p' & s' & g' & -> & Hw & E).
      destruct (List.length s' <? List.length (w ++ s'))%nat; [|discriminate].
      apply IH in E. destruct E as (w2 & p2 & s2 & g2 & -> & (ws & -> & Hws) & E).
      exists (w ++ List.concat ws), p2, s2, g2. repeat split.
      * now rewrite app_assoc.
      * exists (w :: ws). split; [reflexivity|now constructor].
      * exact E.
    + exists [], prev, s, g. repeat split; auto. exists []. auto.
Qed.

Lemma lazy_within {A} (step : matcher A) (P : str -> Prop) (fuel : nat) :
  within step P ->
  within (lazy step fuel) (fun w => exists ws, w = List.concat ws /\ Forall P ws).
Proof.
  intros Hstep. induction fuel as [|f IH]; intros prev s g k x H; simpl in H.
  - destruct (k prev s g) as [a|] eqn:E; [|discriminate].
    exists [], prev, s, g. repeat split; [exists []; auto|congruence].
  - destruct (k prev s g) as [a|] eqn:E.
    + exists [], prev, s, g. repeat split; [exists []; auto|congruence].
    + apply Hstep in H. destruct H as (w & p' & s' & g' & -> & Hw & H).
      destruct (List.length s' <? List.length (w ++ s'))%nat; [|discriminate].
      apply IH in H. destruct H as (w2 & p2 & s2 & g2 & -> & (ws & -> & Hws) & H).
      exists (w ++ List.concat ws), p2, s2, g2. repeat split.
      * now rewrite app_assoc.
      * exists (w :: ws). split; [reflexivity|now constructor].
      * exact H.
Qed.

Lemma times_within {A} (step : matcher A) (P : str -> Prop) (n : nat) :
  within step P ->
  within (times step n)
    (fun w => exists ws, List.length ws = n /\ w = List.concat ws /\ Forall P ws).
Proof.
  intros Hstep. induction n as [|n IH]; intros prev s g k x H; simpl in H.
  - exists [], prev, s, g. repeat split; auto. exists []. auto.
  - apply Hstep in H. destruct H as (w & p' & s' & g' & -> & Hw & H).
    apply IH in H.
    destruct H as (w2 & p2 & s2 & g2 & -> & (ws & Hlen & -> & Hws) & H).
    exists (w ++ List.concat ws), p2, s2, g2. repeat split.
    + now rewrite app_assoc.
    + exists (w :: ws). repeat split; [simpl; congruence|now constructor].
    + exact H.
Qed.

Lemma same_text_suffix (w : str) (prev : option char) (s : str)
    (p' : option char) (s' : str) :
  same_text fl w prev s = Some (p', s') -> exists u, s = u ++ s'.
Proof.
  revert prev s. induction w as [|a w IH]; intros prev s H; simpl in H.
  - inversion H; subst. now exists [].
  - destruct s as [|c s0]; [discriminate|].
    destruct (if ignorecase fl then ref_ieq a c else (c =? a)%N); [|discriminate].
    apply IH in H. destruct H as [u ->]. now exists (c :: u).
Qed.

(** The matcher is sound for the reading [lang] of the patterns. *)
Lemma run_within {A} (r : re) : within (A:=A) (run fl r) (lang fl r).
Proof.
  induction r; intros prev s g k x H; cbn [run lang] in *.
  - exists [], prev, s, g. auto.
  - now apply (one_within (chr_match fl c) prev) in H.
  - now apply (one_within (any_match fl) prev) in H.
  - apply (one_within (fun x => negb (chr_match fl c x)) prev) in H.
    destruct H as (w & p' & s' & g' & -> & (y & -> & Hy) & H).
    exists [y], p', s', g'. repeat split; auto.
    exists y. split; [reflexivity|]. now apply negb_true_iff.
  - now apply (one_within (fun x => existsb (fun c => chr_match fl c x) cs) prev) in H.
  - now apply (one_within is_digit prev) in H.
  - now apply (one_within is_space prev) in H.
  - destruct (at_boundary prev s); [|discriminate].
    exists [], prev, s, g. auto.
  - apply IHr1 in H. destruct H as (w1 & p1 & s1 & g1 & -> & Hw1 & H).
    apply IHr2 in H. destruct H as (w2 & p2 & s2 & g2 & -> & Hw2 & H).
    exists (w1 ++ w2), p2, s2, g2. repeat split.
    + now rewrite app_assoc.
    + now exists w1, w2.
    + exact H.
  - now apply (greedy_within _ _ _ IHr) in H.
  - apply IHr in H. destruct H as (w1 & p1 & s1 & g1 & -> & Hw1 & H).
    apply (greedy_within _ _ _ IHr) in H.
    destruct H as (w2 & p2 & s2 & g2 & -> & (ws & -> & Hws) & H).
    exists (w1 ++ List.concat ws), p2, s2, g2. repeat split.
    + now rewrite app_assoc.
    + now exists w1, ws.
    + exact H.
  - destruct (run fl r prev s g k) as [a|] eqn:E.
    + inversion H; subst a. apply IHr in E.
      destruct E as (w & p' & s' & g' & -> & Hw & E).
      exists w, p', s', g'. auto.
    + exists [], prev, s, g. auto.
  - now apply (lazy_within _ _ _ IHr) in H.
  - now apply (times_within _ _ _ IHr) in H.
  - apply IHr in H. destruct H as (w & p' & s' & g' & -> & Hw & H).
    eauto 10.
  - destruct (group n g) as [w|]; [|discriminate].
    destruct (same_text fl w prev s) as [[p' s']|] eqn:E; [|discriminate].
    apply same_text_suffix in E. destruct E as [u ->].
    exists u, p', s', g. auto.
Qed.

Lemma match_at_lang (r : re) (prev : option char) (s : str) (n : nat) (g : caps) :
  match_at fl r prev s = Some (n, g) -> lang fl r (firstn n s).
Proof.
  unfold match_at. intros H. apply run_within in H.
  destruct H as (w & p' & s' & g' & -> & Hw & H).
  inversion H; subst.
  rewrite length_app, Nat.add_sub.
  now rewrite firstn_app, Nat.sub_diag, firstn_all, app_nil_r.
Qed.

Lemma findall_from_lang (r : re) (s : str) (prev : option char) (skip : nat)
    (tok : str) :
  In tok (findall_from fl r prev s skip) -> lang fl r tok.
Proof.
  revert prev skip.
  induction s as [|c s IH]; intros prev skip H.
  - destruct skip; simpl in H; [|contradiction].
    destruct (match_at fl r prev []) as [[n g]|] eqn:E; [|contradiction].
    destruct H as [<-|[]]. now apply match_at_lang in E.
  - destruct skip; simpl in H; [|now apply IH in H].
    destruct (match_at fl r prev (c :: s)) as [[n g]|] eqn:E.
    + destruct H as [<-|H]; [now apply match_at_lang in E|now apply IH in H].
    + now apply IH in H.
Qed.

Lemma findall_lang (r : re) (s tok : str) :
  In tok (findall fl r s) -> lang fl r tok.
Proof. apply findall_from_lang. Qed.

End MatcherFacts.

(** *** The patterns of the program *)

Section PatternFacts.
Context {R : PyRuntime}.

(** None of the patterns of the program matches the empty text, so the
    searches [findall] and [sub] always move on by a match. *)
Lemma program_patterns_nonempty (fl : flags) (r : re) (w : str) :
  In r [row_re; cell_re; title_re; tag_re; spaces_re; number_re] ->
  lang fl r w -> w <> [].
Proof.
  intros Hr Hw. simpl in Hr.
  destruct Hr as [<-|[<-|[<-|[<-|[<-|[<-|[]]]]]]];
    cbn in Hw.
  - destruct Hw as (u & v & -> & (u0 & v0 & -> & (x & -> & _) & _) & _).
    discriminate.
  - destruct Hw as (u & v & -> & (u0 & v0 & -> & (x & -> & _) & _) & _).
    discriminate.
  - destruct Hw as (u & v & -> & (u0 & v0 & -> & (x & -> & _) & _) & _).
    discriminate.
  - destruct Hw as (u & v & -> & (x & -> & _) & _). discriminate.
  - destruct Hw as (u & ws & -> & (x & -> & _) & _). discriminate.
  - destruct Hw as (u & v & -> & (u' & ws & -> & (x & -> & _) & _) & _).
    discriminate.
Qed.

Lemma program_patterns_consume (fl : flags) (r : re) (prev : option char)
    (s : str) (n : nat) (g : caps) :
  In r [row_re; cell_re; title_re; tag_re; spaces_re; number_re] ->
  match_at fl r prev s = Some (n, g) -> (0 < n)%nat.
Proof.
  intros Hr H. apply match_at_lang in H.
  destruct n; [|lia].
  exfalso. now apply (program_patterns_nonempty fl r _ Hr H).
Qed.

End PatternFacts.

(** The matcher on small texts: the number pattern takes groups of
    three digits only after a comma; the name is that of the last
    title attribute before the end of the anchor's tag, since [[^>]*]
    is greedy; tags are matched without regard to case, and [\b]
    keeps [<trx] from being a row. *)
Example findall_numbers :
  @findall ascii_runtime no_flags number_re (lit "1,234,567.25 +-12,34 5. .7")
  = [lit "1,234,567.25"; lit "12"; lit "34"; lit "5"; lit "7"].
Proof. vm_compute. reflexivity. Qed.

Example search_title :
  @row_name ascii_runtime
    (lit "<a data-title='x' TITLE=" ++ [dquote] ++ lit " it's " ++ [dquote] ++ lit " z>")
  = Some (lit "it's").
Proof. vm_compute. reflexivity. Qed.

Example findall_rows :
  @findall ascii_runtime flag_SI row_re
    (lit "<TR class='a'><td>1</td></tR><trx>no</trx><tr>2</tr>")
  = [lit "<TR class='a'><td>1</td></tR>"; lit "<tr>2</tr>"].
Proof. vm_compute. reflexivity. Qed.

Example strip_tags_cell :
  @strip_tags ascii_runtime (lit "<td> <span class='x'>1,234</span> <i>+/-</i> 5.5  </td>")
  = lit "1,234 +/- 5.5".
Proof. vm_compute. reflexivity. Qed.

(** *** Floats *)

Module F64Facts.
Import F64.

Lemma pow2_pos (j : N) : 0 < 2 ^ j.
Proof. apply N.neq_0_lt_0, N.pow_nonzero. discriminate. Qed.

(** The parts of a rounding: the spacing exponent [j], the quotient
    [m] and the remainder [r] of the value by the spacing. *)
Lemma round_units_parts (num den : N) :
  den <> 0 ->
  exists j m r,
    num = den * 2 ^ j * m + r /\ r < den * 2 ^ j /\
    m < 2 ^ 53 /\ (j <> 0 -> 2 ^ 52 <= m) /\
    exists m', round_units num den = m' * 2 ^ j /\
               m <= m' <= m + 1 /\ (r = 0 -> m' = m).
Proof.
  intros Hden.
  set (q := num / den). set (j := N.log2 q - 52).
  set (d := den * 2 ^ j).
  assert (Hpow : 0 < 2 ^ j) by apply pow2_pos.
  assert (Hd : d <> 0) by (unfold d; nia).
  exists j, (num / d), (num mod d).
  assert (Hm : num / d = q / 2 ^ j).
  { unfold d, q. rewrite N.Div0.div_div. reflexivity. }
  split; [apply N.div_mod; exact Hd|].
  split; [apply N.mod_lt; exact Hd|].
  split.
  { rewrite Hm.
    destruct (N.eq_dec q 0) as [Hq|Hq].
    - rewrite Hq. rewrite N.Div0.div_0_l. reflexivity.
    - apply N.Div0.div_lt_upper_bound.
      rewrite N.mul_comm, <- N.pow_add_r.
      apply N.lt_le_trans with (2 ^ N.succ (N.log2 q)).
      + apply N.log2_spec. lia.
      + apply N.pow_le_mono_r; [discriminate|]. unfold j. lia. }
  split.
  { intros Hj. rewrite Hm.
    assert (Hq : 0 < q).
    { destruct (N.eq_dec q 0) as [Hq|Hq]; [|lia].
      exfalso. apply Hj. unfold j. now rewrite Hq. }
    apply N.div_le_lower_bound; [lia|].
    rewrite <- N.pow_add_r.
    apply N.le_trans with (2 ^ N.log2 q).
    + apply N.pow_le_mono_r; [discriminate|]. unfold j in *. lia.
    + apply N.log2_spec. exact Hq. }
  unfold round_units. fold q. fold j. fold d.
  set (m := num / d). set (r := num mod d).
  assert (Hr : r < d) by (apply N.mod_lt; exact Hd).
  destruct (2 * r <? d) eqn:E1.
  - exists m. repeat split; lia.
  - apply N.ltb_ge in E1.
    destruct (d <? 2 * r) eqn:E2.
    + exists (m + 1). repeat split; try lia.
    + destruct (N.even m).
      * exists m. repeat split; lia.
      * exists (m + 1). repeat split; try lia.
Qed.

Lemma round_units_representable (num den : N) :
  den <> 0 -> representable (round_units num den).
Proof.
  intros Hden.
  destruct (round_units_parts num den Hden)
    as (j & m & r & _ & _ & Hm & _ & m' & -> & Hm' & _).
  destruct (N.eq_dec m' (2 ^ 53)) as [->|Hne].
  - exists 1, (53 + j). split; [|reflexivity].
    rewrite N.pow_add_r. lia.
  - exists m', j. split; [reflexivity|lia].
Qed.

(** A value of the format below the exact value is below its rounding. *)
Lemma round_units_ge (num den k : N) :
  den <> 0 -> representable k -> k * den <= num -> k <= round_units num den.
Proof.
  intros Hden (m0 & j0 & -> & Hm0) Hle.
  destruct (round_units_parts num den Hden)
    as (j & m & r & Hnum & Hr & Hm & Hj & m' & -> & Hm' & _).
  assert (Hpj : 0 < 2 ^ j) by apply pow2_pos.
  assert (Hpj0 : 0 < 2 ^ j0) by apply pow2_pos.
  apply N.le_trans with (m * 2 ^ j); [|apply N.mul_le_mono_r; lia].
  destruct (N.le_gt_cases j j0) as [Hjj|Hjj].
  - replace j0 with ((j0 - j) + j) in * by lia.
    rewrite N.pow_add_r in *.
    set (c := m0 * 2 ^ (j0 - j)) in *.
    rewrite N.mul_assoc in *. fold c in Hle |- *.
    apply N.mul_le_mono_r.
    destruct (N.le_gt_cases c m) as [|Hlt]; [assumption|exfalso].
    assert (den * 2 ^ j * (m + 1) <= den * 2 ^ j * c)
      by (apply N.mul_le_mono_l; lia).
    nia.
  - assert (Hj' : j <> 0) by lia.
    specialize (Hj Hj').
    assert (2 ^ j = 2 * 2 ^ (j - 1)) as Hs.
    { replace j with (N.succ (j - 1)) at 1 by lia. apply N.pow_succ_r'. }
    assert (2 ^ j0 <= 2 ^ (j - 1)) by (apply N.pow_le_mono_r; lia).
    change (2 ^ 53) with (2 * 2 ^ 52) in Hm0.
    nia.
Qed.

(** A value of the format above the exact value is above its rounding. *)
Lemma round_units_le (num den k : N) :
  den <> 0 -> representable k -> num <= k * den -> round_units num den <= k.
Proof.
  intros Hden (m0 & j0 & -> & Hm0) Hle.
  destruct (round_units_parts num den Hden)
    as (j & m & r & Hnum & Hr & Hm & Hj & m' & -> & Hm' & Hexact).
  assert (Hpj : 0 < 2 ^ j) by apply pow2_pos.
  assert (Hpj0 : 0 < 2 ^ j0) by apply pow2_pos.
  destruct (N.le_gt_cases j j0) as [Hjj|Hjj].
  - replace j0 with ((j0 - j) + j) in * by lia.
    rewrite N.pow_add_r in *.
    set (c := m0 * 2 ^ (j0 - j)) in *.
    rewrite N.mul_assoc in *. fold c in Hle |- *.
    apply N.mul_le_mono_r.
    destruct (N.le_gt_cases m' c) as [|Hlt]; [assumption|exfalso].
    destruct (N.eq_dec r 0) as [Hr0|Hr0].
    + specialize (Hexact Hr0). subst m'.
      assert (den * 2 ^ j * (c + 1) <= den * 2 ^ j * m)
        by (apply N.mul_le_mono_l; lia).
      nia.
    + assert (den * 2 ^ j * c <= den * 2 ^ j * m)
        by (apply N.mul_le_mono_l; lia).
      nia.
  - exfalso.
    assert (Hj' : j <> 0) by lia.
    specialize (Hj Hj').
    assert (2 ^ j = 2 * 2 ^ (j - 1)) as Hs.
    { replace j with (N.succ (j - 1)) at 1 by lia. apply N.pow_succ_r'. }
    assert (2 ^ j0 <= 2 ^ (j - 1)) by (apply N.pow_le_mono_r; lia).
    change (2 ^ 53) with (2 * 2 ^ 52) in Hm0.
    assert (den * 2 ^ j * 2 ^ 52 <= den * 2 ^ j * m)
      by (apply N.mul_le_mono_l; lia).
    assert (m0 * 2 ^ j0 * den < 2 * 2 ^ 52 * 2 ^ (j - 1) * den).
    { apply N.mul_lt_mono_pos_r; [lia|].
      apply N.lt_le_trans with (2 * 2 ^ 52 * 2 ^ j0).
      - apply N.mul_lt_mono_pos_r; lia.
      - apply N.mul_le_mono_l. lia. }
    nia.
Qed.

(** Rounding leaves a value of the format as it is. *)
Lemma round_units_exact (k : N) :
  representable k -> round_units k 1 = k.
Proof.
  intros Hk. apply N.le_antisymm.
  - apply round_units_le; [discriminate|exact Hk|lia].
  - apply round_units_ge; [discriminate|exact Hk|lia].
Qed.

Lemma finish_nonneg (k : N) : representable k -> nonneg (finish false k).
Proof.
  intros Hk. unfold finish.
  destruct (k <? top) eqn:E; simpl; [|reflexivity].
  apply N.ltb_lt in E. auto.
Qed.

Lemma of_rat_nonneg (num den : N) : den <> 0 -> nonneg (of_rat false num den).
Proof.
  intros Hden. apply finish_nonneg. now apply round_units_representable.
Qed.

Lemma le_finish_ge (k v : N) :
  k <= v -> le (Fin false k) (finish false v) = true.
Proof.
  intros H. unfold finish. destruct (v <? top); simpl; [|reflexivity].
  apply Z.leb_le. lia.
Qed.

(** The sum of two values that are not negative is not below the
    first. *)
Lemma le_add (x y : t) : nonneg x -> nonneg y -> le x (add x y) = true.
Proof.
  destruct x as [|a|a k]; destruct y as [|b|b l]; simpl; try tauto.
  - intros -> ->. reflexivity.
  - intros -> _. reflexivity.
  - intros _ ->. unfold add. reflexivity.
  - intros (-> & Hk & Hkt) (-> & Hl & Hlt).
    unfold add. cbn [Bool.eqb].
    apply le_finish_ge.
    apply round_units_ge; [discriminate|exact Hk|lia].
Qed.

(** The difference of two values that are not negative is not above
    the first, unless both are infinite: then it is a NaN. *)
Lemma le_sub (x y : t) :
  nonneg x -> nonneg y ->
  (x = Inf false /\ y = Inf false /\ sub x y = NaN) \/ le (sub x y) x = true.
Proof.
  destruct x as [|a|a k]; destruct y as [|b|b l]; simpl; try tauto.
  - intros -> ->. left. auto.
  - intros -> _. right. reflexivity.
  - intros _ ->. right. reflexivity.
  - intros (-> & Hk & Hkt) (-> & Hl & Hlt). right.
    unfold sub, add. cbn [opp negb Bool.eqb].
    destruct (k <? l) eqn:E1.
    + unfold finish. destruct (_ <? top); simpl; [|reflexivity].
      apply Z.leb_le. lia.
    + destruct (l <? k) eqn:E2.
      * apply N.ltb_lt in E2.
        assert (Hv : round_units (k - l) 1 <= k)
          by (apply round_units_le; [discriminate|exact Hk|lia]).
        unfold finish.
        assert ((round_units (k - l) 1 <? top) = true) as ->
          by (apply N.ltb_lt; lia).
        simpl. apply Z.leb_le. lia.
      * simpl. apply Z.leb_le. lia.
Qed.

(** Adding or subtracting [0.0] leaves a value that is not negative
    as it is. *)
Lemma add_zero (x : t) : nonneg x -> add x lit_0_0 = x.
Proof.
  destruct x as [|a|a k]; intros H.
  - destruct H.
  - reflexivity.
  - destruct H as (-> & Hk & Hkt). unfold add, lit_0_0, zero. cbn [Bool.eqb].
    rewrite N.add_0_r, round_units_exact by exact Hk.
    unfold finish. apply N.ltb_lt in Hkt. now rewrite Hkt.
Qed.

Lemma sub_zero (x : t) : nonneg x -> sub x lit_0_0 = x.
Proof.
  destruct x as [|a|a k]; intros H.
  - destruct H.
  - reflexivity.
  - destruct H as (-> & Hk & Hkt). unfold sub, add, lit_0_0, zero.
    cbn [opp negb Bool.eqb].
    assert ((k <? 0) = false) as -> by (apply N.ltb_ge; lia).
    destruct (0 <? k) eqn:E.
    + rewrite N.sub_0_r, round_units_exact by exact Hk.
      unfold finish. apply N.ltb_lt in Hkt. now rewrite Hkt.
    + apply N.ltb_ge in E. f_equal. lia.
Qed.
(** On sample values the operations agree with the Standard Library's
    specification of the binary64 operations ([prec = 53],
    [emax = 1024]). *)
Example agrees_with_spec_float :
  let x := of_rat false 1200 1 in
  let y := of_rat false 15 1 in
  let third := of_rat false 1 3 in
  let big := of_rat false (10 ^ 308) 1 in
  let tiny := of_rat false 1 (10 ^ 320) in
  SpecFloat.SFadd 53 1024 (to_spec x) (to_spec y) = to_spec (add x y) /\
  SpecFloat.SFadd 53 1024 (to_spec x) (to_spec (opp y)) = to_spec (sub x y) /\
  SpecFloat.SFadd 53 1024 (to_spec y) (to_spec (opp x)) = to_spec (sub y x) /\
  SpecFloat.SFadd 53 1024 (to_spec third) (to_spec tiny) = to_spec (add third tiny) /\
  SpecFloat.SFadd 53 1024 (to_spec big) (to_spec big) = to_spec (add big big) /\
  SpecFloat.SFadd 53 1024 (to_spec big) (to_spec third) = to_spec (add big third) /\
  SpecFloat.SFmul 53 1024 (to_spec lit_1_2) (to_spec (of_N 2))
  = to_spec (mul lit_1_2 (of_N 2)) /\
  SpecFloat.SFmul 53 1024 (to_spec third) (to_spec tiny) = to_spec (mul third tiny) /\
  SpecFloat.SFmul 53 1024 (to_spec big) (to_spec big) = to_spec (mul big big) /\
  SpecFloat.SFdiv 53 1024 (to_spec (of_N 1)) (to_spec (of_N 3)) = to_spec third /\
  SpecFloat.SFdiv 53 1024 (to_spec (of_N 12)) (to_spec (of_N 10)) = to_spec lit_1_2 /\
  to_spec (add big big) = SpecFloat.S754_infinity false /\
  to_spec x = SpecFloat.S754_finite false 5277655813324800 (-42).
Proof. vm_compute. repeat split; reflexivity. Qed.

End F64Facts.

(** *** Numeric tokens *)

Section TokenFacts.
Context {R : PyRuntime}.

Lemma chr_match_exact (p c : char) : chr_match no_flags p c = true -> c = p.
Proof. unfold chr_match. simpl. apply N.eqb_eq. Qed.

Lemma digit_not_comma (c : char) : is_digit c = true -> c <> 44.
Proof. intros H ->. discriminate. Qed.

Lemma remove_char_app (c : char) (a b : str) :
  remove_char c (a ++ b) = remove_char c a ++ remove_char c b.
Proof. apply filter_app. Qed.

Lemma remove_comma_digits (w : str) :
  Forall (fun c => is_digit c = true) w -> remove_char 44 w = w.
Proof.
  induction 1 as [|c w Hc _ IH]; simpl; [reflexivity|].
  apply digit_not_comma in Hc. apply N.eqb_neq in Hc.
  rewrite Hc. simpl. now rewrite IH.
Qed.

Lemma concat_digits (fl : flags) (ws : list str) :
  Forall (lang fl Digit) ws ->
  Forall (fun c => is_digit c = true) (List.concat ws).
Proof.
  induction 1 as [|w ws (x & -> & Hx) _ IH]; simpl; auto.
Qed.

Lemma plus_digit_shape (fl : flags) (w : str) :
  lang fl (Plus Digit) w ->
  w <> [] /\ Forall (fun c => is_digit c = true) w.
Proof.
  intros (u & ws & -> & (x & -> & Hx) & Hws). split; [discriminate|].
  simpl. constructor; [exact Hx|]. now apply concat_digits in Hws.
Qed.

Lemma groups_shape (w : str) :
  lang no_flags (Star (Cat (Chr 44) (Times 3%nat Digit))) w ->
  Forall (fun c => is_digit c = true) (remove_char 44 w).
Proof.
  intros (ws & -> & Hws).
  induction Hws as [|g ws Hg _ IH]; simpl; [constructor|].
  rewrite remove_char_app.
  destruct Hg as (u & v & -> & (x & -> & Hx) & (ds & _ & -> & Hds)).
  apply chr_match_exact in Hx. subst x.
  apply concat_digits in Hds.
  rewrite remove_char_app. simpl remove_char at 1.
  rewrite (remove_comma_digits _ Hds). simpl.
  apply Forall_app. now split.
Qed.

Lemma fraction_shape (w : str) :
  lang no_flags (Opt (Cat (Chr 46) (Plus Digit))) w ->
  w = [] \/
  exists ds, w = 46 :: ds /\ ds <> [] /\ Forall (fun c => is_digit c = true) ds.
Proof.
  intros [->|(u & v & -> & (x & -> & Hx) & Hv)]; [now left|right].
  apply chr_match_exact in Hx. subst x.
  apply plus_digit_shape in Hv. now exists v.
Qed.

(** A match of the number pattern, its commas removed, is a run of
    digits, or two runs of digits around a point. *)
Lemma number_shape (tok : str) :
  lang no_flags number_re tok ->
  exists ds fr,
    remove_char 44 tok = ds ++ fr /\
    ds <> [] /\ Forall (fun c => is_digit c = true) ds /\
    (fr = [] \/
     exists ds2, fr = 46 :: ds2 /\ ds2 <> [] /\
                 Forall (fun c => is_digit c = true) ds2).
Proof.
  intros (u & v0 & -> & Hu & (v & f0 & -> & Hv & (f & e & -> & Hf & ->))).
  apply plus_digit_shape in Hu. destruct Hu as [Hne Hu].
  apply groups_shape in Hv. apply fraction_shape in Hf.
  rewrite app_nil_r, !remove_char_app, (remove_comma_digits _ Hu).
  exists (u ++ remove_char 44 v), (remove_char 44 f).
  split; [now rewrite app_assoc|].
  split; [destruct u; [congruence|discriminate]|].
  split; [apply Forall_app; now split|].
  destruct Hf as [->|(ds & -> & Hds & Hall)]; [now left|right].
  exists ds. simpl. now rewrite (remove_comma_digits _ Hall).
Qed.

Lemma read_digits_run (ds rest : str) (acc count : N) :
  Forall (fun c => is_digit c = true) ds ->
  match rest with [] => True | c :: _ => is_digit c = false end ->
  exists acc',
    read_digits (ds ++ rest) acc count
    = (acc', count + N.of_nat (List.length ds), rest).
Proof.
  intros Hds Hrest. revert acc count.
  induction Hds as [|c ds Hc _ IH]; intros acc count.
  - exists acc. rewrite N.add_0_r. simpl.
    destruct rest as [|c rest]; [reflexivity|].
    simpl. unfold is_digit in Hrest.
    destruct (decimal c); [discriminate|reflexivity].
  - cbn [app read_digits List.length]. unfold is_digit in Hc.
    destruct (decimal c) as [d|]; [|discriminate].
    destruct (IH (10 * acc + digit_value d) (count + 1)) as [acc' ->].
    exists acc'. f_equal. f_equal. lia.
Qed.

(** [float] reads such a text, and returns a value of the format that
    is not negative and not a NaN. *)
Lemma py_float_number (ds fr : str) :
  ds <> [] -> Forall (fun c => is_digit c = true) ds ->
  (fr = [] \/
   exists ds2, fr = 46 :: ds2 /\ ds2 <> [] /\
               Forall (fun c => is_digit c = true) ds2) ->
  exists v, py_float (ds ++ fr) = Ok v /\ F64.nonneg v.
Proof.
  intros Hne Hds Hfr. unfold py_float.
  assert (Hlen : N.of_nat (List.length ds) <> 0) by (destruct ds; [congruence|simpl; lia]).
  destruct Hfr as [->|(ds2 & -> & Hne2 & Hds2)].
  - destruct (read_digits_run ds [] 0 0 Hds I) as [ip ->].
    rewrite N.add_0_l. apply N.eqb_neq in Hlen. rewrite Hlen.
    eexists. split; [reflexivity|]. apply F64Facts.of_rat_nonneg. discriminate.
  - destruct (read_digits_run ds (46 :: ds2) 0 0 Hds eq_refl) as [ip ->].
    rewrite N.eqb_refl.
    destruct (read_digits_run ds2 [] ip 0 Hds2 I) as [v H2].
    rewrite app_nil_r in H2. rewrite H2.
    match goal with
    | |- context [(?a =? 0)] =>
        assert ((a =? 0) = false) as -> by (apply N.eqb_neq; lia)
    end.
    eexists. split; [reflexivity|]. apply F64Facts.of_rat_nonneg.
    apply N.pow_nonzero. discriminate.
Qed.

Lemma py_float_token (s tok : str) :
  In tok (findall no_flags number_re s) ->
  exists v, py_float (remove_char 44 tok) = Ok v /\ F64.nonneg v.
Proof.
  intros H. apply findall_lang in H. apply number_shape in H.
  destruct H as (ds & fr & -> & Hne & Hds & Hfr).
  now apply py_float_number.
Qed.

Lemma nonneg_zero : F64.nonneg F64.lit_0_0.
Proof.
  simpl. split; [reflexivity|]. split.
  - exists 0, 0. split; reflexivity.
  - apply F64Facts.pow2_pos.
Qed.

(** [parse_rating_cell] raises only for a text without a number, and
    then the error that names the text; otherwise it returns a rating
    and an uncertainty that are not negative, the uncertainty [0.0]
    when the text has one number. *)
Lemma parse_rating_cell_cases (cell_text : str) :
  (findall no_flags number_re cell_text = [] /\
   parse_rating_cell cell_text = Raise (no_rating_error cell_text)) \/
  (exists rating uncertainty,
      parse_rating_cell cell_text = Ok (rating, uncertainty) /\
      F64.nonneg rating /\ F64.nonneg uncertainty /\
      findall no_flags number_re cell_text <> [] /\
      (List.length (findall no_flags number_re cell_text) = 1%nat ->
       uncertainty = F64.lit_0_0)).
Proof.
  unfold parse_rating_cell.
  destruct (findall no_flags number_re cell_text) as [|first more] eqn:E.
  - left. split; reflexivity.
  - right.
    destruct (py_float_token cell_text first) as (r & -> & Hr);
      [rewrite E; now left|].
    destruct more as [|second more].
    + exists r, F64.lit_0_0.
      split; [reflexivity|]. split; [exact Hr|]. split; [exact nonneg_zero|].
      split; [discriminate|reflexivity].
    + destruct (py_float_token cell_text second) as (u & -> & Hu);
        [rewrite E; right; now left|].
      exists r, u.
      split; [reflexivity|]. split; [exact Hr|]. split; [exact Hu|].
      split; discriminate.
Qed.

End TokenFacts.

(** *** The extractor *)

Section ExtractorClaims.
Context {R : PyRuntime}.

Lemma row_body_store (row name : str) (rec : score_record) :
  row_body row = Store name rec ->
  passes_filters row = true /\
  exists rating uncertainty,
    rec = record_of rating uncertainty /\
    F64.nonneg rating /\ F64.nonneg uncertainty /\
    (List.length (findall no_flags number_re (rating_text row)) = 1%nat ->
     uncertainty = F64.lit_0_0).
Proof.
  intros H. destruct (passes_filters row) eqn:E.
  - split; [reflexivity|].
    destruct (row_body_passed row E) as (n & _ & _ & Hbody).
    rewrite Hbody in H.
    destruct (parse_rating_cell_cases (rating_text row))
      as [[_ Hc]|(r & u & Hc & Hr & Hu & _ & Hone)]; rewrite Hc in H.
    + discriminate.
    + inversion H; subst. exists r, u. auto.
  - rewrite (row_body_filtered row E) in H. discriminate.
Qed.

Lemma row_body_abort (row : str) (e : exn) :
  row_body row = Abort e ->
  lacks_rating row = true /\ e = no_rating_error (rating_text row).
Proof.
  intros H. unfold lacks_rating. destruct (passes_filters row) eqn:E.
  - destruct (row_body_passed row E) as (n & _ & _ & Hbody).
    rewrite Hbody in H.
    destruct (parse_rating_cell_cases (rating_text row))
      as [[Hnone Hc]|(r & u & Hc & _)]; rewrite Hc in H.
    + rewrite Hnone. inversion H. auto.
    + discriminate.
  - rewrite (row_body_filtered row E) in H. discriminate.
Qed.

Lemma row_body_lacks_rating (row : str) :
  lacks_rating row = true ->
  row_body row = Abort (no_rating_error (rating_text row)).
Proof.
  unfold lacks_rating. intros H. apply andb_prop in H. destruct H as [Hp Hn].
  destruct (row_body_passed row Hp) as (n & _ & _ & ->).
  destruct (findall no_flags number_re (rating_text row)) eqn:E; [|discriminate].
  now rewrite (parse_rating_cell_no_number _ E).
Qed.

(** The first row of a list that satisfies a test. *)
Lemma first_such (P : str -> bool) (rows : list str) (row : str) :
  In row rows -> P row = true ->
  exists before bad after,
    rows = before ++ bad :: after /\ P bad = true /\
    forall r, In r before -> P r = false.
Proof.
  induction rows as [|r rows IH]; intros Hin HP; [contradiction|].
  destruct (P r) eqn:E.
  - exists [], r, rows. repeat split; auto. intros ? [].
  - destruct Hin as [->|Hin]; [congruence|].
    destruct (IH Hin HP) as (before & bad & after & -> & Hbad & Hbefore).
    exists (r :: before), bad, after. repeat split; auto.
    intros r' [<-|Hr']; auto.
Qed.

Lemma record_bounds (r u : F64.t) :
  F64.nonneg r -> F64.nonneg u ->
  let rec := record_of r u in
  F64.le (rating rec) (rating_q975 rec) = true /\
  (r = F64.Inf false /\ u = F64.Inf false -> rating_q025 rec = F64.NaN) /\
  (~ (r = F64.Inf false /\ u = F64.Inf false) ->
   F64.le (rating_q025 rec) (rating rec) = true).
Proof.
  intros Hr Hu. simpl. split; [now apply F64Facts.le_add|]. split.
  - intros [-> ->]. reflexivity.
  - intros Hfin.
    destruct (F64Facts.le_sub r u Hr Hu) as [(-> & -> & _)|H]; [|exact H].
    exfalso. apply Hfin. now split.
Qed.

(** C3, as the program has it.  Every record of a table the extractor
    returns was stored by a row of the page: it holds a rating that is
    not negative, the rating plus an uncertainty that is not negative,
    and the rating minus it.  In it [rating <= rating_q975]; and
    [rating_q025 <= rating] unless the rating and the uncertainty are
    both [+inf] (two numbers too large for a float), in which case
    [rating_q025] is a NaN.  When the fourth cell of the row has one
    number only, both bounds are equal to the rating. *)
Theorem bound_invariant (html : str) (parsed : table) (name : str)
    (rec : score_record) :
  parse_leaderboard_table html = Ok parsed ->
  In (name, rec) parsed ->
  exists row uncertainty,
    In row (findall flag_SI row_re html) /\
    row_body row = Store name rec /\
    rec = record_of (rating rec) uncertainty /\
    F64.nonneg (rating rec) /\ F64.nonneg uncertainty /\
    F64.le (rating rec) (rating_q975 rec) = true /\
    (rating rec = F64.Inf false /\ uncertainty = F64.Inf false ->
     rating_q025 rec = F64.NaN) /\
    (~ (rating rec = F64.Inf false /\ uncertainty = F64.Inf false) ->
     F64.le (rating_q025 rec) (rating rec) = true) /\
    (List.length (findall no_flags number_re (rating_text row)) = 1%nat ->
     rating_q975 rec = rating rec /\ rating_q025 rec = rating rec).
Proof.
  intros Hok Hin.
  apply parse_leaderboard_table_ok in Hok. destruct Hok as [Hrows _].
  destruct (parse_rows_origin _ _ _ _ _ Hrows Hin) as [[]|(row & Hrow & Hbody)].
  destruct (row_body_store _ _ _ Hbody) as (_ & r & u & -> & Hr & Hu & Hone).
  exists row, u. split; [exact Hrow|]. split; [exact Hbody|].
  split; [reflexivity|]. split; [exact Hr|]. split; [exact Hu|].
  destruct (record_bounds r u Hr Hu) as (Hup & Hnan & Hlow).
  split; [exact Hup|]. split; [exact Hnan|]. split; [exact Hlow|].
  intros H1. rewrite (Hone H1). simpl.
  split; [now apply F64Facts.add_zero|now apply F64Facts.sub_zero].
Qed.

(** C4. When two rows of a page store a record under the same name,
    and no row after the second does, the table the extractor returns
    has the record of the second row under that name, and has the name
    once. *)
Theorem last_row_wins (html : str) (before between after : list str)
    (row1 row2 name : str) (rec1 rec2 : score_record) (parsed : table) :
  findall flag_SI row_re html = before ++ row1 :: between ++ row2 :: after ->
  row_body row1 = Store name rec1 ->
  row_body row2 = Store name rec2 ->
  (forall r rec, In r after -> row_body r <> Store name rec) ->
  parse_leaderboard_table html = Ok parsed ->
  dict_get name parsed = Some rec2 /\
  NoDup (keys parsed) /\
  (forall rec, In (name, rec) parsed -> rec = rec2).
Proof.
  intros Hrows _ H2 Hafter Hok.
  apply parse_leaderboard_table_ok in Hok. destruct Hok as [Hparse _].
  assert (Hnd : NoDup (keys parsed))
    by (apply (parse_rows_keys_nodup _ [] _ (NoDup_nil _) Hparse)).
  rewrite Hrows in Hparse.
  change (before ++ row1 :: between ++ row2 :: after)
    with (before ++ (row1 :: between) ++ row2 :: after) in Hparse.
  rewrite app_assoc in Hparse.
  pose proof (parse_rows_last_store _ _ _ _ _ _ _ H2 Hafter Hparse) as Hget.
  split; [exact Hget|]. split; [exact Hnd|].
  intros rec Hin. apply dict_get_in in Hget.
  clear - Hnd Hin Hget. unfold keys in Hnd.
  induction parsed as [|[k v] parsed IH]; [contradiction|].
  simpl in Hnd. inversion Hnd as [|? ? Hnotin Hnd']; subst.
  destruct Hin as [Hin|Hin]; destruct Hget as [Hget|Hget].
  - congruence.
  - inversion Hin; subst. exfalso. apply Hnotin.
    change name with (fst (name, rec2)). now apply in_map.
  - inversion Hget; subst. exfalso. apply Hnotin.
    change name with (fst (name, rec)). now apply in_map.
  - now apply IH.
Qed.

(** C10. A row with fewer than four cells, or without a titled anchor,
    or whose name is empty once trimmed, makes the loop go on to the
    next row before its fourth cell is read: its body stores nothing
    and raises nothing, whatever its fourth cell holds, and the loop
    does with the other rows what it does without it. *)
Theorem filters_shield_row (row : str) :
  (List.length (row_cells row) < 4)%nat \/
  search flag_SI title_re row = None \/
  row_name row = Some [] ->
  row_body row = Continue /\
  (forall e, row_body row <> Abort e) /\
  forall before after parsed,
    parse_rows (before ++ row :: after) parsed
    = parse_rows (before ++ after) parsed.
Proof.
  intros H.
  assert (Hf : passes_filters row = false).
  { unfold passes_filters. destruct H as [H|[H|H]].
    - apply Nat.leb_gt in H. now rewrite H.
    - unfold row_name. rewrite H. apply andb_false_r.
    - rewrite H. apply andb_false_r. }
  pose proof (row_body_filtered row Hf) as Hc.
  split; [exact Hc|]. split; [intros e; rewrite Hc; discriminate|].
  intros before after parsed. now apply parse_rows_skip.
Qed.

End ExtractorClaims.

(** *** The row of the specification *)

Section ConcreteRow.
Context {R : PyRuntime}.

Lemma rows_of_row_model_a : findall flag_SI row_re row_model_a = [row_model_a].
Proof. destruct R. vm_compute. reflexivity. Qed.

Lemma cells_of_row_model_a :
  row_cells row_model_a
  = [lit "<td>1</td>"; lit "<td>X</td>"; lit "<td>1200</td>"; cell_model_a].
Proof. destruct R. vm_compute. reflexivity. Qed.

Lemma name_of_row_model_a : row_name row_model_a = Some (lit "Model A").
Proof. destruct R. vm_compute. reflexivity. Qed.

Lemma text_of_cell_model_a :
  uni_space 177 = false -> strip_tags cell_model_a = text_model_a.
Proof. destruct R. simpl. intros Hs. vm_compute. rewrite !Hs. reflexivity. Qed.

Lemma numbers_of_text_model_a :
  uni_decimal 177 = None ->
  findall no_flags number_re text_model_a = [lit "1200"; lit "15"].
Proof. destruct R. simpl. intros Hd. vm_compute. rewrite !Hd. reflexivity. Qed.

Lemma float_1200 : py_float (remove_char 44 (lit "1200")) = Ok (F64.of_rat false 1200 1).
Proof. destruct R. vm_compute. reflexivity. Qed.

Lemma float_15 : py_float (remove_char 44 (lit "15")) = Ok (F64.of_rat false 15 1).
Proof. destruct R. vm_compute. reflexivity. Qed.

Lemma bounds_1200_15 :
  record_of (F64.of_rat false 1200 1) (F64.of_rat false 15 1)
  = {| rating := F64.of_rat false 1200 1;
       rating_q975 := F64.of_rat false 1215 1;
       rating_q025 := F64.of_rat false 1185 1 |}.
Proof. vm_compute. reflexivity. Qed.

(** C2. The extractor, on the page made of the row
    [row_model_a], returns the table with the one
    name [Model A] and for it the rating 1200.0 and the bounds 1215.0
    and 1185.0.  That the plus-minus sign is neither a blank
    nor a digit is what the Unicode tables say of it. *)
Theorem concrete_row_extraction :
  uni_space 177 = false -> uni_decimal 177 = None ->
  parse_leaderboard_table row_model_a
  = Ok [(lit "Model A",
         {| rating := F64.of_rat false 1200 1;
            rating_q975 := F64.of_rat false 1215 1;
            rating_q025 := F64.of_rat false 1185 1 |})].
Proof.
  intros Hs Hd.
  assert (Hpass : passes_filters row_model_a = true).
  { unfold passes_filters.
    now rewrite cells_of_row_model_a, name_of_row_model_a. }
  assert (Hbody : row_body row_model_a
                  = Store (lit "Model A")
                      (record_of (F64.of_rat false 1200 1) (F64.of_rat false 15 1))).
  { destruct (row_body_passed _ Hpass) as (n & Hn & _ & ->).
    rewrite name_of_row_model_a in Hn. inversion Hn; subst n.
    unfold rating_text. rewrite cells_of_row_model_a. cbn [nth].
    rewrite (text_of_cell_model_a Hs).
    unfold parse_rating_cell.
    rewrite (numbers_of_text_model_a Hd), float_1200, float_15.
    reflexivity. }
  unfold parse_leaderboard_table.
  rewrite rows_of_row_model_a. cbn [parse_rows].
  rewrite Hbody, bounds_1200_15. reflexivity.
Qed.

End ConcreteRow.

Lemma concrete_row_extraction_witness :
  @uni_space ascii_runtime 177 = false /\
  @uni_decimal ascii_runtime 177 = None /\
  @parse_leaderboard_table ascii_runtime row_model_a
  = Ok [(lit "Model A",
         {| rating := F64.of_rat false 1200 1;
            rating_q975 := F64.of_rat false 1215 1;
            rating_q025 := F64.of_rat false 1185 1 |})].
Proof.
  split; [reflexivity|]. split; [reflexivity|].
  apply (@concrete_row_extraction ascii_runtime); reflexivity.
Defined.

(** *** The refresher *)

Section PipelineClaims.
Context {R : PyRuntime}.
Variable network : trace -> str -> Z -> reply.

(** What [refresh_categories] does with a category whose page was
    fetched. *)
Lemma refresh_category_fetched (J : Type) (modality : str)
    (style_control : option bool) (output_key category_slug : str)
    (st : refresh_state J) (tr tr' : trace) (html : str) (e : exn) :
  http_get_text network (category_url modality style_control category_slug)
    default_timeout default_retries tr = (Ok html, tr') ->
  parse_leaderboard_table html = Raise e ->
  refresh_category network modality style_control output_key category_slug st tr
  = (Ok (skip_state st output_key
           (if contains (lit "<table") (lower html) then e else no_table_error)),
     tr').
Proof.
  intros Hget Hparse. apply refresh_category_fail.
  rewrite (fetch_table_fetched _ _ _ _ _ Hget), Hparse.
  destruct (contains (lit "<table") (lower html)); reflexivity.
Qed.

(** C5. When no row of a page passes the tests of the extractor, the
    extractor raises; it never returns an empty table.  A category for
    which [refresh_categories] fetched such a page is skipped, with the
    extractor's message or with that of the missing table, and the
    document is left as it was. *)
Theorem empty_table_rejection (html : str) :
  (forall row, In row (findall flag_SI row_re html) -> passes_filters row = false) ->
  parse_leaderboard_table html = Raise empty_table_error /\
  (forall page, parse_leaderboard_table page <> Ok []) /\
  forall (J : Type) (st : refresh_state J) modality style_control
         output_key category_slug tr tr',
    http_get_text network (category_url modality style_control category_slug)
      default_timeout default_retries tr = (Ok html, tr') ->
    exists e,
      refresh_category network modality style_control output_key category_slug st tr
      = (Ok (skip_state st output_key e), tr') /\
      (e = empty_table_error \/ e = no_table_error) /\
      target_data (skip_state st output_key e) = target_data st /\
      updated (skip_state st output_key e) = updated st /\
      skipped (skip_state st output_key e)
      = skipped st ++ [(output_key, message e)].
Proof.
  intros Hnone.
  assert (Hraise : parse_leaderboard_table html = Raise empty_table_error).
  { apply parse_leaderboard_table_empty.
    intros row Hrow. apply row_body_filtered. now apply Hnone. }
  split; [exact Hraise|]. split.
  - intros page H. apply parse_leaderboard_table_ok in H. now destruct H.
  - intros J st modality style_control output_key category_slug tr tr' Hget.
    eexists. split; [apply (refresh_category_fetched _ _ _ _ _ _ _ _ _ _ Hget Hraise)|].
    split; [destruct (contains _ _); auto|]. repeat split.
Qed.

(** C9. When a row of a page passes the tests and its fourth cell,
    stripped, has no number, the extractor raises for the whole page:
    the error names the text of the first such row, and nothing of the
    rows before it is returned.  A category for which
    [refresh_categories] fetched the page is skipped with that message
    (with the message of the missing table when the page has no table
    marker). *)
Theorem unparseable_cell_aborts (html row : str) :
  In row (findall flag_SI row_re html) ->
  passes_filters row = true ->
  findall no_flags number_re (rating_text row) = [] ->
  exists before bad after,
    findall flag_SI row_re html = before ++ bad :: after /\
    lacks_rating bad = true /\
    (forall r, In r before -> lacks_rating r = false) /\
    parse_leaderboard_table html = Raise (no_rating_error (rating_text bad)) /\
    forall (J : Type) (st : refresh_state J) modality style_control
           output_key category_slug tr tr',
      http_get_text network (category_url modality style_control category_slug)
        default_timeout default_retries tr = (Ok html, tr') ->
      refresh_category network modality style_control output_key category_slug st tr
      = (Ok (skip_state st output_key
               (if contains (lit "<table") (lower html)
                then no_rating_error (rating_text bad) else no_table_error)),
         tr').
Proof.
  intros Hin Hpass Hnone.
  assert (Hlack : lacks_rating row = true)
    by (unfold lacks_rating; now rewrite Hpass, Hnone).
  destruct (first_such lacks_rating _ _ Hin Hlack)
    as (before & bad & after & Hrows & Hbad & Hbefore).
  assert (Hraise : parse_leaderboard_table html
                   = Raise (no_rating_error (rating_text bad))).
  { apply parse_leaderboard_table_raise. rewrite Hrows.
    apply parse_rows_abort.
    - intros r Hr e He. apply row_body_abort in He.
      destruct He as [He _]. rewrite (Hbefore r Hr) in He. discriminate.
    - now apply row_body_lacks_rating. }
  exists before, bad, after.
  split; [exact Hrows|]. split; [exact Hbad|]. split; [exact Hbefore|].
  split; [exact Hraise|].
  intros J st modality style_control output_key category_slug tr tr' Hget.
  apply (refresh_category_fetched _ _ _ _ _ _ _ _ _ _ Hget Hraise).
Qed.

(** When the fetch and the extraction of a category succeed: the state
    at the end of the run. *)
Lemma refresh_split_ok (J : Type) (modality : str) (style_control : option bool)
    (data : dict (entry J)) (before after : dict str)
    (key slug : str) (tr0 tr1 tr2 : trace) (st1 : refresh_state J) (parsed : table) :
  NoDup (keys (before ++ (key, slug) :: after)) ->
  refresh_categories network data modality before style_control tr0 = (Ok st1, tr1) ->
  fetch_table network (category_url modality style_control slug) tr1 = (Ok parsed, tr2) ->
  exists final tr3,
    refresh_categories network data modality (before ++ (key, slug) :: after)
      style_control tr0 = (Ok final, tr3) /\
    dict_get key (target_data final) = Some (Extracted parsed) /\
    In key (updated final).
Proof.
  intros Hnd Hbefore Hok.
  unfold refresh_categories in *.
  destruct (refresh_loop_total network J modality style_control after
              (store_state st1 key parsed) tr2) as (final & tr3 & Hafter).
  exists final, tr3.
  assert (Hrun : refresh_loop network modality style_control
                   (before ++ (key, slug) :: after)
                   {| target_data := data; updated := []; skipped := [] |} tr0
                 = (Ok final, tr3)).
  { rewrite (refresh_loop_app _ _ _ _ _ _ _ _ _ _ Hbefore).
    rewrite (refresh_loop_cons _ _ _ _ _ _ _ _ _ _ _
               (refresh_category_ok _ _ _ _ key slug st1 _ _ _ Hok)).
    exact Hafter. }
  split; [exact Hrun|].
  unfold keys in Hnd. rewrite map_app in Hnd. simpl in Hnd.
  apply NoDup_remove in Hnd. destruct Hnd as [_ Hnotin].
  destruct (refresh_loop_frame _ _ _ _ _ _ _ _ _ Hafter) as (Hd2 & _ & _ & _).
  split.
  - rewrite Hd2; [apply dict_get_set_same|].
    intros Hin. apply Hnotin, in_or_app. now right.
  - clear - Hafter. 
    assert (Hmono : forall items (st st' : refresh_state J) tr tr' k,
               refresh_loop network modality style_control items st tr = (Ok st', tr') ->
               In k (updated st) -> In k (updated st')).
    { induction items as [|[k0 s0] items IH]; intros st st' tr tr' k H Hk.
      - simpl in H. unfold ret in H. now inversion H; subst.
      - destruct (refresh_category_cases network J modality style_control k0 s0 st tr)
          as [tr9 [[p [_ H0]]|[e [_ H0]]]];
          rewrite (refresh_loop_cons _ _ _ _ _ _ _ _ _ _ _ H0) in H;
          apply (IH _ _ _ _ _ H); simpl; [apply in_or_app; now left|exact Hk]. }
    apply (Hmono _ _ _ _ _ _ Hafter). simpl. apply in_or_app. right. now left.
Qed.

(** C1. In a run of [refresh_categories] over a category map (a
    dictionary: no key twice), take a category whose fetch, table
    check or extraction raises when its turn comes.  The run ends
    without raising; at its end the document has for the key of the
    category the entry it had before the call, the key is in [skipped]
    with the message of the exception and not in [updated]; the loop
    went on over the categories after it from the state it had, with
    that pair added to [skipped] and nothing else changed; every
    category is in one of the two lists; and any category whose table
    is fetched and extracted at its turn has that table in the
    document at the end. *)
Theorem partial_failure_preservation (J : Type) (data : dict (entry J))
    (modality : str) (style_control : option bool)
    (before after : dict str) (key slug : str)
    (tr0 tr1 tr2 : trace) (st1 : refresh_state J) (e : exn) :
  NoDup (keys (before ++ (key, slug) :: after)) ->
  refresh_categories network data modality before style_control tr0 = (Ok st1, tr1) ->
  fetch_table network (category_url modality style_control slug) tr1 = (Raise e, tr2) ->
  exists final tr3,
    refresh_categories network data modality (before ++ (key, slug) :: after)
      style_control tr0 = (Ok final, tr3) /\
    dict_get key (target_data final) = dict_get key data /\
    In (key, message e) (skipped final) /\
    ~ In key (updated final) /\
    refresh_loop network modality style_control after
      {| target_data := target_data st1;
         updated := updated st1;
         skipped := skipped st1 ++ [(key, message e)] |} tr2
    = (Ok final, tr3) /\
    (List.length (updated final) + List.length (skipped final)
     = List.length (before ++ (key, slug) :: after))%nat /\
    forall before' after' key' slug' st' tr' tr'' parsed,
      before ++ (key, slug) :: after = before' ++ (key', slug') :: after' ->
      refresh_categories network data modality before' style_control tr0
      = (Ok st', tr') ->
      fetch_table network (category_url modality style_control slug') tr'
      = (Ok parsed, tr'') ->
      dict_get key' (target_data final) = Some (Extracted parsed) /\
      In key' (updated final).
Proof.
  intros Hnd Hbefore Hfail.
  destruct (refresh_split_fail network J modality style_control data before after
              key slug tr0 tr1 tr2 st1 e Hnd Hbefore Hfail)
    as (final & tr3 & Hrun & Hafter & _ & Hdoc & Hskip & Hupd & Hlen).
  exists final, tr3.
  split; [exact Hrun|]. split; [exact Hdoc|]. split; [exact Hskip|].
  split; [exact Hupd|]. split; [exact Hafter|]. split; [exact Hlen|].
  intros before' after' key' slug' st' tr' tr'' parsed Heq Hbefore' Hok.
  rewrite Heq in Hnd, Hrun.
  destruct (refresh_split_ok J modality style_control data before' after'
              key' slug' tr0 tr' tr'' st' parsed Hnd Hbefore' Hok)
    as (final' & tr3' & Hrun' & Hget & Hin).
  rewrite Hrun in Hrun'. inversion Hrun'; subst. auto.
Qed.

(** C6. When the three attempts of a call of [http_get_text] with the
    defaults fail with errors that are retried, the call sleeps
    [1.2 * 1] seconds after the first and [1.2 * 2] after the second,
    does not sleep after the third, and raises one [RuntimeError] whose
    message is [Request failed after 3 retries: ], the address, and
    the last error between parentheses.  [refresh_categories] then
    skips the category with that message and leaves the document as it
    was. *)
Theorem retry_exhaustion (url : str) (tr : trace) (e1 e2 e3 : exn) :
  let req := request url default_timeout in
  let d1 := F64.mul F64.lit_1_2 (float_of_Z 1) in
  let d2 := F64.mul F64.lit_1_2 (float_of_Z 2) in
  let failure := retries_exhausted default_retries url (Some e3) in
  attempt_fails network url default_timeout tr e1 ->
  attempt_fails network url default_timeout (tr ++ [req; Slept d1]) e2 ->
  attempt_fails network url default_timeout (tr ++ [req; Slept d1; req; Slept d2]) e3 ->
  http_get_text network url default_timeout default_retries tr
  = (Raise failure, tr ++ [req; Slept d1; req; Slept d2; req]) /\
  cls failure = RuntimeError /\
  message failure
  = lit "Request failed after 3 retries: " ++ url ++ lit " (" ++ message e3 ++ lit ")" /\
  d1 = F64.of_rat false 12 10 /\
  d2 = F64.of_rat false 24 10 /\
  forall (J : Type) (st : refresh_state J) modality style_control
         output_key category_slug,
    url = category_url modality style_control category_slug ->
    refresh_category network modality style_control output_key category_slug st tr
    = (Ok {| target_data := target_data st;
             updated := updated st;
             skipped := skipped st ++ [(output_key, message failure)] |},
       tr ++ [req; Slept d1; req; Slept d2; req]).
Proof.
  intros req d1 d2 failure H1 H2 H3.
  pose proof (three_failures network url tr e1 e2 e3 H1 H2 H3) as Hget.
  split; [exact Hget|]. split; [reflexivity|].
  split.
  { unfold failure, retries_exhausted. cbn [message str_of_last_error].
    change (str_of_Z default_retries) with (lit "3").
    reflexivity. }
  split; [vm_compute; reflexivity|]. split; [vm_compute; reflexivity|].
  intros J st modality style_control output_key category_slug ->.
  apply (refresh_category_fail network J modality style_control output_key
           category_slug st tr _ failure).
  now apply fetch_table_not_fetched.
Qed.

(** C7, as the program has it.  On every attempt: a response with a
    2xx status ends the call, which returns the body whatever it
    holds, without another request; a response with another status is
    an [HTTPError] and, like any error of the three classes named in
    the [except] clause, makes the loop sleep (when attempts remain)
    and go on with the next attempt; an exception of another class
    ends the call, which raises it. *)
Theorem retry_only_on_caught_errors (url : str) (timeout retries attempt : Z)
    (rest : list Z) (last_error : option exn) (tr : trace) :
  http_get_text_loop network url timeout retries (attempt :: rest) last_error tr
  = match network tr url timeout with
    | Response status reason body =>
        if (200 <=? status) && (status <? 300)
        then (Ok body, tr ++ [request url timeout])
        else after_failure network url timeout retries attempt rest
               {| cls := HTTPError;
                  message := lit "HTTP Error " ++ str_of_N status
                               ++ lit ": " ++ reason |}
               (tr ++ [request url timeout])
    | NoResponse e =>
        if is_transport_error e
        then after_failure network url timeout retries attempt rest e
               (tr ++ [request url timeout])
        else (Raise e, tr ++ [request url timeout])
    end.
Proof.
  cbn [http_get_text_loop]. unfold urlopen_read, after_failure, request.
  destruct (network tr url timeout) as [status reason body|e].
  - destruct ((200 <=? status) && (status <? 300)); reflexivity.
  - destruct (is_transport_error e); reflexivity.
Qed.

End PipelineClaims.

(** *** The properties on the example inputs *)

Lemma bound_invariant_witness :
  @parse_leaderboard_table ascii_runtime page_two_rows = Ok table_example /\
  In (lit "Model A", rec_1300_10) table_example /\
  exists row uncertainty,
    In row (@findall ascii_runtime flag_SI row_re page_two_rows) /\
    @row_body ascii_runtime row = Store (lit "Model A") rec_1300_10 /\
    rec_1300_10 = record_of (rating rec_1300_10) uncertainty /\
    F64.le (rating rec_1300_10) (rating_q975 rec_1300_10) = true /\
    (~ (rating rec_1300_10 = F64.Inf false /\ uncertainty = F64.Inf false) ->
     F64.le (rating_q025 rec_1300_10) (rating rec_1300_10) = true).
Proof.
  assert (H1 : @parse_leaderboard_table ascii_runtime page_two_rows
               = Ok table_example)
    by (vm_compute; reflexivity).
  assert (H2 : In (lit "Model A", rec_1300_10) table_example)
    by (simpl; left; reflexivity).
  split; [exact H1|]. split; [exact H2|].
  destruct (@bound_invariant ascii_runtime page_two_rows _ _ _ H1 H2)
    as (row & u & Hrow & Hbody & Hrec & _ & _ & Hup & _ & Hlow & _).
  exists row, u. auto.
Defined.

(** The claim C3 as the specification words it fails on a page whose
    fourth cell holds two numbers too large for a float: the rating
    and the uncertainty are both [+inf], and the lower bound, their
    difference, is a NaN, which is below nothing. *)
Lemma bound_invariant_fails_on_overflow :
  exists rec,
    @parse_leaderboard_table ascii_runtime row_overflow = Ok [(lit "M", rec)] /\
    F64.le (rating_q025 rec) (rating rec) = false.
Proof.
  exists {| rating := F64.Inf false;
            rating_q975 := F64.Inf false;
            rating_q025 := F64.NaN |}.
  split; vm_compute; reflexivity.
Qed.

Lemma last_row_wins_witness :
  @findall ascii_runtime flag_SI row_re page_two_rows
  = [] ++ row_two_rows_1 :: [] ++ row_two_rows_2 :: [] /\
  @row_body ascii_runtime row_two_rows_1 = Store (lit "Model A") rec_1200_15 /\
  @row_body ascii_runtime row_two_rows_2 = Store (lit "Model A") rec_1300_10 /\
  @parse_leaderboard_table ascii_runtime page_two_rows
  = Ok [(lit "Model A", rec_1300_10)] /\
  rec_1200_15 <> rec_1300_10 /\
  dict_get (lit "Model A") [(lit "Model A", rec_1300_10)] = Some rec_1300_10 /\
  NoDup (keys [(lit "Model A", rec_1300_10)]) /\
  (forall rec, In (lit "Model A", rec) [(lit "Model A", rec_1300_10)] ->
               rec = rec_1300_10).
Proof.
  assert (H0 : @findall ascii_runtime flag_SI row_re page_two_rows
               = [] ++ row_two_rows_1 :: [] ++ row_two_rows_2 :: [])
    by (vm_compute; reflexivity).
  assert (H1 : @row_body ascii_runtime row_two_rows_1
               = Store (lit "Model A") rec_1200_15)
    by (vm_compute; reflexivity).
  assert (H2 : @row_body ascii_runtime row_two_rows_2
               = Store (lit "Model A") rec_1300_10)
    by (vm_compute; reflexivity).
  assert (H3 : forall r rec, In r [] ->
                 @row_body ascii_runtime r <> Store (lit "Model A") rec)
    by (intros r rec []).
  assert (H4 : @parse_leaderboard_table ascii_runtime page_two_rows
               = Ok [(lit "Model A", rec_1300_10)])
    by (vm_compute; reflexivity).
  split; [exact H0|]. split; [exact H1|]. split; [exact H2|].
  split; [exact H4|]. split; [vm_compute; discriminate|].
  exact (@last_row_wins ascii_runtime page_two_rows [] [] []
           row_two_rows_1 row_two_rows_2 (lit "Model A")
           rec_1200_15 rec_1300_10 _ H0 H1 H2 H3 H4).
Defined.

Lemma filters_shield_row_witness :
  @search ascii_runtime flag_SI title_re row_untitled = None /\
  @findall ascii_runtime no_flags number_re
    (@rating_text ascii_runtime row_untitled) = [] /\
  @row_body ascii_runtime row_untitled = Continue /\
  (forall e, @row_body ascii_runtime row_untitled <> Abort e) /\
  forall before after parsed,
    @parse_rows ascii_runtime (before ++ row_untitled :: after) parsed
    = @parse_rows ascii_runtime (before ++ after) parsed.
Proof.
  assert (H : @search ascii_runtime flag_SI title_re row_untitled = None)
    by (vm_compute; reflexivity).
  split; [exact H|]. split; [vm_compute; reflexivity|].
  exact (@filters_shield_row ascii_runtime row_untitled (or_intror (or_introl H))).
Defined.

Lemma empty_table_rejection_witness :
  (forall row,
      In row (@findall ascii_runtime flag_SI row_re page_header_only) ->
      @passes_filters ascii_runtime row = false) /\
  @parse_leaderboard_table ascii_runtime page_header_only
  = Raise empty_table_error.
Proof.
  assert (H : forall row,
             In row (@findall ascii_runtime flag_SI row_re page_header_only) ->
             @passes_filters ascii_runtime row = false).
  { intros row Hin. vm_compute in Hin. destruct Hin as [<-|[]].
    vm_compute. reflexivity. }
  split; [exact H|].
  exact (proj1 (@empty_table_rejection ascii_runtime
                  (network_page page_header_only) page_header_only H)).
Defined.

Lemma unparseable_cell_aborts_witness :
  In row_unrated (@findall ascii_runtime flag_SI row_re page_unrated) /\
  @passes_filters ascii_runtime row_unrated = true /\
  @findall ascii_runtime no_flags number_re
    (@rating_text ascii_runtime row_unrated) = [] /\
  exists bad,
    @parse_leaderboard_table ascii_runtime page_unrated
    = Raise (@no_rating_error ascii_runtime (@rating_text ascii_runtime bad)).
Proof.
  assert (H1 : In row_unrated (@findall ascii_runtime flag_SI row_re page_unrated))
    by (vm_compute; left; reflexivity).
  assert (H2 : @passes_filters ascii_runtime row_unrated = true)
    by (vm_compute; reflexivity).
  assert (H3 : @findall ascii_runtime no_flags number_re
                 (@rating_text ascii_runtime row_unrated) = [])
    by (vm_compute; reflexivity).
  split; [exact H1|]. split; [exact H2|]. split; [exact H3|].
  destruct (@unparseable_cell_aborts ascii_runtime
              (network_page page_unrated) page_unrated row_unrated H1 H2 H3)
    as (before & bad & after & _ & _ & _ & Hraise & _).
  exists bad. exact Hraise.
Defined.

Lemma retry_exhaustion_witness :
  let req := request url_math default_timeout in
  let d1 := F64.mul F64.lit_1_2 (float_of_Z 1) in
  let d2 := F64.mul F64.lit_1_2 (float_of_Z 2) in
  attempt_fails network_timeout url_math default_timeout [] timed_out /\
  http_get_text network_timeout url_math default_timeout
    default_retries []
  = (Raise (retries_exhausted default_retries url_math (Some timed_out)),
     [req; Slept d1; req; Slept d2; req]) /\
  message (retries_exhausted default_retries url_math (Some timed_out))
  = lit "Request failed after 3 retries: https://arena.ai/leaderboard/text/math (timed out)".
Proof.
  intros req d1 d2.
  assert (H : forall tr,
             attempt_fails network_timeout url_math
               default_timeout tr timed_out)
    by (intros tr; split; reflexivity).
  split; [exact (H [])|].
  destruct (@retry_exhaustion ascii_runtime network_timeout url_math []
              timed_out timed_out timed_out (H _) (H _) (H _))
    as (Hget & _ & Hmsg & _).
  split; [exact Hget|]. rewrite Hmsg. reflexivity.
Defined.

(** The claim C7 as the specification words it fails on a server that
    answers 404 with a body: the call does not return the body; it
    makes the three attempts, sleeps between them and raises. *)
Lemma http_error_is_retried :
  network_404 [] url_math default_timeout
  = Response 404 (lit "Not Found") (lit "<html>gone</html>") /\
  let req := request url_math default_timeout in
  let d1 := F64.mul F64.lit_1_2 (float_of_Z 1) in
  let d2 := F64.mul F64.lit_1_2 (float_of_Z 2) in
  http_get_text network_404 url_math default_timeout
    default_retries []
  = (Raise (retries_exhausted default_retries url_math
              (Some {| cls := HTTPError;
                       message := lit "HTTP Error 404: Not Found" |})),
     [req; Slept d1; req; Slept d2; req]) /\
  http_get_text network_404 url_math default_timeout
    default_retries []
  <> (Ok (lit "<html>gone</html>"), [req]).
Proof.
  split; [reflexivity|]. intros req d1 d2.
  assert (H : http_get_text network_404 url_math default_timeout
                default_retries []
              = (Raise (retries_exhausted default_retries url_math
                          (Some {| cls := HTTPError;
                                   message := lit "HTTP Error 404: Not Found" |})),
                 [req; Slept d1; req; Slept d2; req]))
    by (vm_compute; reflexivity).
  split; [exact H|]. rewrite H. discriminate.
Qed.

Lemma partial_failure_preservation_witness :
  NoDup (keys map_example) /\
  @fetch_table ascii_runtime network_coding_only
    (category_url (lit "text") None (lit "math")) trace_after_coding
  = (Raise (retries_exhausted default_retries url_math (Some timed_out)),
     trace_after_math) /\
  exists final tr3,
    @refresh_categories ascii_runtime network_coding_only unit data_example
      (lit "text") map_example None []
    = (Ok final, tr3) /\
    dict_get (lit "math") (target_data final) = Some (Loaded tt) /\
    dict_get (lit "coding") (target_data final) = Some (Extracted table_example) /\
    In (lit "math",
        lit "Request failed after 3 retries: https://arena.ai/leaderboard/text/math (timed out)")
       (skipped final) /\
    ~ In (lit "math") (updated final).
Proof.
  assert (H1 : NoDup (keys ([(lit "coding", lit "coding")]
                              ++ (lit "math", lit "math") :: [])))
    by (repeat constructor; simpl; intuition discriminate).
  assert (H2 : @refresh_categories ascii_runtime network_coding_only unit
                 data_example (lit "text") [(lit "coding", lit "coding")] None []
               = (Ok state_after_coding, trace_after_coding))
    by (vm_compute; reflexivity).
  assert (H3 : @fetch_table ascii_runtime network_coding_only
                 (category_url (lit "text") None (lit "math")) trace_after_coding
               = (Raise (retries_exhausted default_retries url_math (Some timed_out)),
                  trace_after_math))
    by (vm_compute; reflexivity).
  split; [exact H1|]. split; [exact H3|].
  destruct (@partial_failure_preservation ascii_runtime network_coding_only unit
              data_example (lit "text") None [(lit "coding", lit "coding")] []
              (lit "math") (lit "math") [] _ _ _ _ H1 H2 H3)
    as (final & tr3 & Hrun & Hdoc & Hskip & Hupd & _ & _ & Hothers).
  exists final, tr3. split; [exact Hrun|]. split; [exact Hdoc|].
  split.
  - refine (proj1 (Hothers [] [(lit "math", lit "math")] (lit "coding") (lit "coding")
                     _ [] trace_after_coding table_example eq_refl _ _)).
    + reflexivity.
    + vm_compute. reflexivity.
  - split; [exact Hskip|exact Hupd].
Defined.

(* ================================================================== *)
(** ** Further properties *)
(* ================================================================== *)

(** *** The attempts of [http_get_text] *)

Section AttemptFacts.
Variable network : trace -> str -> Z -> reply.
Variables (url : str) (timeout retries : Z).

Lemma attempt_events_cons (i : Z) (k : nat) :
  (1 <= k)%nat ->
  request url timeout
    :: Slept (F64.mul F64.lit_1_2 (float_of_Z (i + 1)))
    :: attempt_events url timeout (i + 1) k
  = attempt_events url timeout i (S k).
Proof.
  intros Hk. destruct k as [|k]; [lia|]. reflexivity.
Qed.

Lemma attempt_events_last (i : Z) (k : nat) :
  attempt_events url timeout i (S k)
  = failed_events url timeout i k ++ [request url timeout].
Proof.
  revert i. induction k as [|k IH]; intros i; [reflexivity|].
  change (attempt_events url timeout i (S (S k)))
    with (request url timeout
            :: Slept (F64.mul F64.lit_1_2 (float_of_Z (i + 1)))
            :: attempt_events url timeout (i + 1) (S k)).
  rewrite IH. reflexivity.
Qed.

(** What the loop does over [n] attempts still to make: it makes [k] of
    them, at least one when there is one to make; it returns the text
    of the last one made, or raises the exception of the last one made
    when it is not of the retried classes, or has made them all and
    raises the error that names the last failure. *)
Lemma loop_outcome (n : nat) :
  forall (i : nat) (last : option exn) (tr : trace),
    ((0 < n)%nat -> retries = Z.of_nat (i + n)) ->
    exists k : nat,
      (k <= n)%nat /\ ((0 < n)%nat -> (1 <= k)%nat) /\
      snd (http_get_text_loop network url timeout retries (attempts_from i n) last tr)
      = tr ++ attempt_events url timeout (Z.of_nat i) k /\
      match fst (http_get_text_loop network url timeout retries
                   (attempts_from i n) last tr) with
      | Ok text =>
          (1 <= k)%nat /\
          fst (urlopen_read network url timeout
                 (tr ++ failed_events url timeout (Z.of_nat i) (k - 1))) = Ok text
      | Raise e =>
          (k = n /\ exists last', e = retries_exhausted retries url last' /\
                                  (n = O -> last' = last) /\
                                  ((0 < n)%nat -> exists e', last' = Some e' /\
                                                   is_transport_error e' = true)) \/
          ((1 <= k)%nat /\ is_transport_error e = false /\
           fst (urlopen_read network url timeout
                  (tr ++ failed_events url timeout (Z.of_nat i) (k - 1))) = Raise e)
      end.
Proof.
  induction n as [|n IH]; intros i last tr Hret.
  - exists O. simpl. unfold raise. simpl. rewrite app_nil_r.
    split; [lia|]. split; [lia|]. split; [reflexivity|].
    left. split; [reflexivity|]. exists last.
    split; [reflexivity|]. split; [reflexivity|lia].
  - unfold attempts_from. cbn [List.seq List.map].
    fold (attempts_from (S i) n).
    cbn [http_get_text_loop].
    rewrite urlopen_read_eq.
    destruct (fst (urlopen_read network url timeout tr)) as [text|exc] eqn:E.
    + exists 1%nat. simpl. rewrite app_nil_r.
      split; [lia|]. split; [lia|]. split; [reflexivity|]. split; [lia|exact E].
    + destruct (is_transport_error exc) eqn:Et.
      * assert (Hr : retries = Z.of_nat (i + S n)) by (apply Hret; lia).
        destruct n as [|n].
        -- (* the last attempt *)
           assert (Hlast : (Z.of_nat i <? retries - 1)%Z = false)
             by (apply Z.ltb_ge; lia).
           rewrite Hlast. unfold bind, ret. cbn [attempts_from List.seq List.map].
           cbn [http_get_text_loop]. unfold raise.
           exists 1%nat. simpl. split; [lia|]. split; [lia|].
           split; [reflexivity|].
           left. split; [reflexivity|]. exists (Some exc).
           split; [reflexivity|]. split; [discriminate|].
           intros _. now exists exc.
        -- assert (Hmore : (Z.of_nat i <? retries - 1)%Z = true)
             by (apply Z.ltb_lt; lia).
           rewrite Hmore. unfold bind, sleep.
           destruct (IH (S i) (Some exc)
                       ((tr ++ [request url timeout]) ++
                        [Slept (F64.mul F64.lit_1_2 (float_of_Z (Z.of_nat i + 1)))]))
             as (k & Hk & Hk1 & Htr & Hres); [intros _; lia|].
           assert (Hk1' : (1 <= k)%nat) by (apply Hk1; lia).
           assert (Hpre : ((tr ++ [request url timeout]) ++
                           [Slept (F64.mul F64.lit_1_2 (float_of_Z (Z.of_nat i + 1)))])
                            ++ failed_events url timeout (Z.of_nat (S i)) (k - 1)
                          = tr ++ failed_events url timeout (Z.of_nat i) (S k - 1)).
           { replace (S k - 1)%nat with (S (k - 1)) by lia.
             cbn [failed_events]. rewrite <- !app_assoc. cbn [app].
             replace (Z.of_nat (S i)) with (Z.of_nat i + 1)%Z by lia. reflexivity. }
           exists (S k). split; [lia|]. split; [lia|]. split.
           ++ rewrite Htr. rewrite <- !app_assoc. cbn [app].
              replace (Z.of_nat (S i)) with (Z.of_nat i + 1)%Z by lia.
              now rewrite (attempt_events_cons _ _ Hk1').
           ++ destruct (fst (http_get_text_loop network url timeout retries
                               (attempts_from (S i) (S n)) (Some exc) _))
                as [text|e].
              ** destruct Hres as [_ Hres]. split; [lia|].
                 rewrite <- Hpre. exact Hres.
              ** destruct Hres as [(-> & last' & -> & _ & Hl)|(_ & Hnt & Hres)].
                 --- left. split; [reflexivity|]. exists last'.
                     split; [reflexivity|]. split; [discriminate|].
                     intros _. apply Hl. lia.
                 --- right. split; [lia|]. split; [exact Hnt|].
                     rewrite <- Hpre. exact Hres.
      * exists 1%nat. simpl. rewrite app_nil_r. split; [lia|]. split; [lia|].
        split; [reflexivity|]. right. split; [lia|]. split; [exact Et|exact E].
Qed.

Lemma requests_request (t : trace) :
  requests (request url timeout :: t) = request url timeout :: requests t.
Proof. reflexivity. Qed.

Lemma requests_slept (d : F64.t) (t : trace) : requests (Slept d :: t) = requests t.
Proof. reflexivity. Qed.

Lemma sleeps_request (t : trace) : sleeps (request url timeout :: t) = sleeps t.
Proof. reflexivity. Qed.

Lemma sleeps_slept (d : F64.t) (t : trace) : sleeps (Slept d :: t) = Slept d :: sleeps t.
Proof. reflexivity. Qed.

Lemma attempt_events_counts (i : Z) (k : nat) :
  requests (attempt_events url timeout i k) = repeat (request url timeout) k /\
  List.length (sleeps (attempt_events url timeout i k)) = (k - 1)%nat.
Proof.
  revert i. induction k as [|k IH]; intros i; [split; reflexivity|].
  destruct k as [|k]; [split; reflexivity|].
  destruct (IH (i + 1)%Z) as [Hr Hs].
  change (attempt_events url timeout i (S (S k)))
    with (request url timeout
            :: Slept (F64.mul F64.lit_1_2 (float_of_Z (i + 1)))
            :: attempt_events url timeout (i + 1) (S k)).
  rewrite requests_request, requests_slept, sleeps_request, sleeps_slept, Hr.
  split; [reflexivity|]. cbn [List.length]. rewrite Hs. lia.
Qed.


(** X2. An error of the classes [http_get_text] retries never leaves
    it.  What it raises is either the [RuntimeError] that says the
    attempts are used up, after it has made them all, naming the last
    failure ([None] when [retries <= 0]: it then raises without any
    request); or the exception of another class that one of its
    requests raised. *)
Theorem http_get_text_raises (tr : trace) (e : exn) :
  fst (http_get_text network url timeout retries tr) = Raise e ->
  is_transport_error e = false /\
  ((exists last,
       e = retries_exhausted retries url last /\
       snd (http_get_text network url timeout retries tr)
       = tr ++ attempt_events url timeout 0 (Z.to_nat retries) /\
       ((retries <= 0)%Z -> last = None) /\
       ((0 < retries)%Z ->
        exists e', last = Some e' /\ is_transport_error e' = true)) \/
   (exists k : nat,
       (k < Z.to_nat retries)%nat /\
       fst (urlopen_read network url timeout
              (tr ++ failed_events url timeout 0 k)) = Raise e)).
Proof.
  unfold http_get_text, range. fold (attempts_from 0 (Z.to_nat retries)).
  intros He.
  destruct (loop_outcome (Z.to_nat retries) 0 None tr) as (k & Hk & Hk1 & Htr & Hres);
    [intros H; simpl; lia|].
  rewrite He in Hres.
  destruct Hres as [(-> & last' & -> & Hnone & Hsome)|(Hk1' & Hnt & Hreq)].
  - split; [reflexivity|]. left. exists last'.
    split; [reflexivity|]. split; [exact Htr|]. split.
    + intros Hle. apply Hnone. lia.
    + intros Hpos. apply Hsome. lia.
  - split; [exact Hnt|]. right. exists (k - 1)%nat. split; [lia|exact Hreq].
Qed.

(** The loop after [k] failed attempts that are retried. *)
Lemma loop_recovers (k : nat) :
  forall (i n : nat) (last : option exn) (tr : trace) (text : str),
    (k < n)%nat -> retries = Z.of_nat (i + n) ->
    (forall j, (j < k)%nat ->
       exists e, attempt_fails network url timeout
                   (tr ++ failed_events url timeout (Z.of_nat i) j) e) ->
    fst (urlopen_read network url timeout
           (tr ++ failed_events url timeout (Z.of_nat i) k)) = Ok text ->
    http_get_text_loop network url timeout retries (attempts_from i n) last tr
    = (Ok text, tr ++ failed_events url timeout (Z.of_nat i) k ++ [request url timeout]).
Proof.
  induction k as [|k IH]; intros i n last tr text Hkn Hret Hfail Hok.
  - destruct n as [|n]; [lia|].
    unfold attempts_from. cbn [List.seq List.map].
    simpl failed_events in *. rewrite app_nil_r in Hok.
    now apply loop_step_ok.
  - destruct n as [|n]; [lia|].
    unfold attempts_from. cbn [List.seq List.map].
    fold (attempts_from (S i) n).
    destruct (Hfail O) as [e He]; [lia|].
    simpl failed_events in He. rewrite app_nil_r in He.
    rewrite (loop_step_retry _ _ _ _ _ _ _ _ _ He).
    rewrite after_failure_sleep by lia.
    rewrite <- app_assoc. cbn [app].
    rewrite (IH (S i) n (Some e) _ text).
    + cbn [failed_events]. rewrite <- !app_assoc. cbn [app].
      replace (Z.of_nat (S i)) with (Z.of_nat i + 1)%Z by lia. reflexivity.
    + lia.
    + lia.
    + intros j Hj. destruct (Hfail (S j)) as [e' He']; [lia|].
      exists e'. cbn [failed_events] in He'.
      rewrite <- app_assoc. cbn [app].
      replace (Z.of_nat (S i)) with (Z.of_nat i + 1)%Z by lia. exact He'.
    + cbn [failed_events] in Hok. rewrite <- app_assoc. cbn [app].
      replace (Z.of_nat (S i)) with (Z.of_nat i + 1)%Z by lia. exact Hok.
Qed.

(** X3. When the first [k] attempts of a call fail with errors that
    are retried and the next one, which [retries] still allows, gets a
    text, [http_get_text] returns that text: it has made [k + 1]
    requests and slept [1.2 * 1], ..., [1.2 * k] seconds after the
    failed ones. *)
Theorem http_get_text_recovers (k : nat) (tr : trace) (text : str) :
  (Z.of_nat k < retries)%Z ->
  (forall j, (j < k)%nat ->
     exists e, attempt_fails network url timeout
                 (tr ++ failed_events url timeout 0 j) e) ->
  fst (urlopen_read network url timeout (tr ++ failed_events url timeout 0 k))
  = Ok text ->
  http_get_text network url timeout retries tr
  = (Ok text, tr ++ failed_events url timeout 0 k ++ [request url timeout]) /\
  List.length (requests (failed_events url timeout 0 k ++ [request url timeout]))
  = S k /\
  List.length (sleeps (failed_events url timeout 0 k ++ [request url timeout])) = k.
Proof.
  intros Hk Hfail Hok.
  split.
  - unfold http_get_text, range. fold (attempts_from 0 (Z.to_nat retries)).
    apply (loop_recovers k 0 (Z.to_nat retries) None tr text); try assumption; lia.
  - clear. generalize 0%Z as i. induction k as [|k IH]; intros i; [split; reflexivity|].
    destruct (IH (i + 1)%Z) as [Hr Hs].
    cbn [failed_events app].
    rewrite requests_request, requests_slept, sleeps_request, sleeps_slept.
    cbn [List.length]. now rewrite Hr, Hs.
Qed.

End AttemptFacts.

(** *** More on the extractor *)

Section ExtractorExtras.
Context {R : PyRuntime}.

Lemma nonneg_le_zero (x : F64.t) : F64.nonneg x -> F64.le F64.zero x = true.
Proof.
  destruct x as [|neg|neg k]; simpl.
  - intros [].
  - intros ->. reflexivity.
  - intros (-> & _ & _). apply Z.leb_le. simpl. lia.
Qed.

(** X4. [parse_rating_cell] raises exactly when the text has no number,
    and then the [ValueError] that shows the text: [float] accepts
    every match of the number pattern.  What it returns otherwise is a
    rating and an uncertainty that are not below zero, so not NaNs;
    the uncertainty is [0.0] when the text has one number only. *)
Theorem parse_rating_cell_result (cell_text : str) :
  (findall no_flags number_re cell_text = [] /\
   parse_rating_cell cell_text = Raise (no_rating_error cell_text)) \/
  (exists rating uncertainty,
      parse_rating_cell cell_text = Ok (rating, uncertainty) /\
      findall no_flags number_re cell_text <> [] /\
      F64.le F64.zero rating = true /\
      F64.le F64.zero uncertainty = true /\
      (List.length (findall no_flags number_re cell_text) = 1%nat ->
       uncertainty = F64.lit_0_0)).
Proof.
  destruct (parse_rating_cell_cases cell_text)
    as [H|(r & u & Hok & Hr & Hu & Hne & Hone)]; [now left|right].
  exists r, u. split; [exact Hok|]. split; [exact Hne|].
  split; [now apply nonneg_le_zero|]. split; [now apply nonneg_le_zero|exact Hone].
Qed.

Lemma parse_rows_raise (rows : list str) (parsed : table) (e : exn) :
  parse_rows rows parsed = Raise e ->
  exists before row after,
    rows = before ++ row :: after /\
    row_body row = Abort e /\
    forall r, In r before -> forall e', row_body r <> Abort e'.
Proof.
  revert parsed. induction rows as [|row rows IH]; intros parsed H; simpl in H.
  - discriminate.
  - destruct (row_body row) as [|n rec|e0] eqn:E.
    + destruct (IH _ H) as (before & bad & after & -> & Hbad & Hbefore).
      exists (row :: before), bad, after. split; [reflexivity|]. split; [exact Hbad|].
      intros r [<-|Hr] e'; [rewrite E; discriminate|now apply Hbefore].
    + destruct (IH _ H) as (before & bad & after & -> & Hbad & Hbefore).
      exists (row :: before), bad, after. split; [reflexivity|]. split; [exact Hbad|].
      intros r [<-|Hr] e'; [rewrite E; discriminate|now apply Hbefore].
    + inversion H; subst e0.
      exists [], row, rows. split; [reflexivity|]. split; [exact E|]. intros r [].
Qed.

(** X5. The extractor raises two errors only: the [RuntimeError] of the
    table without a model, and the [ValueError] of a fourth cell
    without a number, for the first row of the page that passes the
    tests and has such a cell. *)
Theorem parse_leaderboard_table_raises (html : str) (e : exn) :
  parse_leaderboard_table html = Raise e ->
  (e = empty_table_error /\
   forall row, In row (findall flag_SI row_re html) -> row_body row = Continue) \/
  (exists before row after,
      findall flag_SI row_re html = before ++ row :: after /\
      lacks_rating row = true /\
      (forall r, In r before -> lacks_rating r = false) /\
      e = no_rating_error (rating_text row)).
Proof.
  unfold parse_leaderboard_table. intros H.
  destruct (parse_rows (findall flag_SI row_re html) []) as [[|p t]|e0] eqn:E;
    try discriminate.
  - left. inversion H; subst e. split; [reflexivity|].
    intros row Hrow. destruct (row_body row) as [|n rec|e'] eqn:Eb; [reflexivity| |].
    + exfalso. apply in_split in Hrow. destruct Hrow as (l1 & l2 & Hrows).
      rewrite Hrows, parse_rows_app in E.
      destruct (parse_rows l1 []) as [p1|]; [|discriminate].
      simpl in E. rewrite Eb in E.
      apply parse_rows_not_empty in E; [now apply E|apply dict_set_not_empty].
    + exfalso. apply in_split in Hrow. destruct Hrow as (l1 & l2 & Hrows).
      rewrite Hrows, parse_rows_app in E.
      destruct (parse_rows l1 []) as [p1|]; [|discriminate].
      simpl in E. rewrite Eb in E. discriminate.
  - right. inversion H; subst e0.
    destruct (parse_rows_raise _ _ _ E) as (before & row & after & Hrows & Hbad & Hbefore).
    apply row_body_abort in Hbad. destruct Hbad as [Hlack ->].
    exists before, row, after. split; [exact Hrows|]. split; [exact Hlack|].
    split; [|reflexivity].
    intros r Hr. destruct (lacks_rating r) eqn:El; [|reflexivity].
    exfalso. apply (Hbefore r Hr (no_rating_error (rating_text r))).
    now apply row_body_lacks_rating.
Qed.

Lemma lstrip_split (s : str) : exists p, s = p ++ lstrip s.
Proof.
  induction s as [|c s [p IH]]; [now exists []|].
  simpl. destruct (is_space c).
  - exists (c :: p). simpl. now rewrite <- IH.
  - now exists [].
Qed.

Lemma lstrip_head (s : str) (c : char) (t : str) :
  lstrip s = c :: t -> is_space c = false.
Proof.
  induction s as [|x s IH]; simpl; [discriminate|].
  destruct (is_space x) eqn:E; [exact IH|].
  intros [= <- _]. exact E.
Qed.

Lemma lstrip_fixed (c : char) (s : str) :
  is_space c = false -> lstrip (c :: s) = c :: s.
Proof. intros H. simpl. now rewrite H. Qed.

Lemma rstrip_split (s : str) : exists q, s = rstrip s ++ q.
Proof.
  unfold rstrip. destruct (lstrip_split (rev s)) as [p Hp].
  exists (rev p). rewrite <- rev_app_distr, <- Hp. now rewrite rev_involutive.
Qed.

Lemma last_snoc (s : str) (c d : char) : last (s ++ [c]) d = c.
Proof.
  induction s as [|x s IH]; [reflexivity|].
  simpl. destruct (s ++ [c]) eqn:E; [destruct s; discriminate|exact IH].
Qed.

Lemma strip_trimmed (s : str) : trimmed (strip s).
Proof.
  unfold strip, rstrip.
  destruct (lstrip (rev (lstrip s))) as [|c u] eqn:E; [exact I|].
  pose proof (lstrip_head _ _ _ E) as Hc.
  destruct (lstrip_split (rev (lstrip s))) as [p Hp]. rewrite E in Hp.
  apply (f_equal (@rev char)) in Hp.
  rewrite rev_involutive, rev_app_distr in Hp. simpl in Hp.
  simpl rev.
  assert (Hlast : forall d, last (rev u ++ [c]) d = c) by (intros d; apply last_snoc).
  destruct (rev u ++ [c]) as [|x t] eqn:Ex; [destruct (rev u); discriminate|].
  split.
  - now apply (lstrip_head s x (t ++ rev p)).
  - now rewrite Hlast.
Qed.

Lemma rev_head_last (s : str) :
  forall c d : char, exists t, rev (c :: s) = last (c :: s) d :: t.
Proof.
  induction s as [|x s IH]; intros c d; [now exists []|].
  destruct (IH x d) as [t Ht]. exists (t ++ [c]).
  change (rev (c :: x :: s)) with (rev (x :: s) ++ [c]). rewrite Ht. reflexivity.
Qed.

Lemma trimmed_strip (s : str) : trimmed s -> strip s = s.
Proof.
  destruct s as [|c s]; [reflexivity|]. intros [Hc Hl].
  unfold strip. rewrite (lstrip_fixed _ _ Hc). unfold rstrip.
  destruct (rev_head_last s c c) as [t Ht].
  rewrite Ht, (lstrip_fixed _ _ Hl), <- Ht.
  apply rev_involutive.
Qed.

(** X6. The names of the table the extractor returns are not empty and
    have no blank at either end: [strip] leaves them as they are. *)
Theorem table_names_trimmed (html : str) (parsed : table) (name : str) :
  parse_leaderboard_table html = Ok parsed ->
  In name (keys parsed) ->
  name <> [] /\ strip name = name.
Proof.
  intros Hok Hin.
  apply parse_leaderboard_table_ok in Hok. destruct Hok as [Hrows _].
  unfold keys in Hin. apply in_map_iff in Hin. destruct Hin as ([n rec] & <- & Hin).
  destruct (parse_rows_origin _ _ _ _ _ Hrows Hin) as [[]|(row & _ & Hbody)].
  destruct (row_body_store _ _ _ Hbody) as (Hpass & _).
  destruct (row_body_passed row Hpass) as (n' & Hname & Hne & Hbody').
  rewrite Hbody' in Hbody.
  destruct (parse_rating_cell (rating_text row)) as [[r u]|e]; [|discriminate].
  inversion Hbody; subst. split; [exact Hne|].
  unfold row_name in Hname.
  destruct (search flag_SI title_re row) as [g|]; [|discriminate].
  inversion Hname. apply trimmed_strip, strip_trimmed.
Qed.

Lemma keys_dict_set {V} (k : str) (v : V) (d : dict V) :
  keys (dict_set k v d)
  = if existsb (str_eqb k) (keys d) then keys d else keys d ++ [k].
Proof.
  unfold keys. induction d as [|[k' v'] d IH]; simpl; [reflexivity|].
  destruct (str_eqb k k'); simpl; [reflexivity|].
  rewrite IH. now destruct (existsb _ _).
Qed.

Lemma parse_rows_keys (rows : list str) (parsed final : table) :
  parse_rows rows parsed = Ok final ->
  keys final = keys parsed ++ first_seen (stored_names rows) (keys parsed).
Proof.
  revert parsed. induction rows as [|row rows IH]; intros parsed H; simpl in H.
  - inversion H; subst. simpl. now rewrite app_nil_r.
  - unfold stored_names. cbn [flat_map]. fold (stored_names rows).
    destruct (row_body row) as [|n rec|e].
    + now apply IH.
    + rewrite (IH _ H), keys_dict_set. cbn [app first_seen].
      destruct (existsb (str_eqb n) (keys parsed)); [reflexivity|].
      now rewrite <- app_assoc.
    + discriminate.
Qed.

(** X7. The table the extractor returns has its names in the order in
    which the rows of the page first store them, each once: a later
    row with a name that is there replaces the record and leaves the
    name at its place. *)
Theorem table_names_order (html : str) (parsed : table) :
  parse_leaderboard_table html = Ok parsed ->
  keys parsed = first_seen (stored_names (findall flag_SI row_re html)) [] /\
  NoDup (keys parsed) /\
  forall name,
    In name (keys parsed) <->
    exists row rec,
      In row (findall flag_SI row_re html) /\ row_body row = Store name rec.
Proof.
  intros Hok. apply parse_leaderboard_table_ok in Hok. destruct Hok as [Hrows _].
  split; [exact (parse_rows_keys _ _ _ Hrows)|].
  split; [exact (parse_rows_keys_nodup _ [] _ (NoDup_nil _) Hrows)|].
  intros name. split.
  - intros Hin. unfold keys in Hin. apply in_map_iff in Hin.
    destruct Hin as ([n rec] & <- & Hin).
    destruct (parse_rows_origin _ _ _ _ _ Hrows Hin) as [[]|(row & Hrow & Hbody)].
    now exists row, rec.
  - intros (row & rec & Hrow & Hbody).
    apply in_split in Hrow. destruct Hrow as (l1 & l2 & Hsplit).
    rewrite Hsplit, parse_rows_app in Hrows.
    destruct (parse_rows l1 []) as [p1|]; [|discriminate].
    simpl in Hrows. rewrite Hbody in Hrows.
    assert (Hmono : forall rows (p t : table),
               parse_rows rows p = Ok t -> In name (keys p) -> In name (keys t)).
    { clear. induction rows as [|r rows IH]; intros p t H Hin; simpl in H.
      - now inversion H; subst.
      - destruct (row_body r) as [|n rc|e]; [now apply (IH p)| |discriminate].
        apply (IH _ _ H). apply dict_set_keys_in. now right. }
    apply (Hmono _ _ _ Hrows). apply dict_set_keys_in. now left.
Qed.

(** [\s*] before a continuation that always succeeds takes all the
    blanks at the start of the text. *)
Lemma greedy_spaces {A} (F : str -> caps -> A) (fuel : nat) :
  forall (s : str) (prev : option char) (g : caps),
    (List.length s < fuel)%nat ->
    greedy (run no_flags Space) fuel prev s g (fun _ s' g' => Some (F s' g'))
    = Some (F (lstrip s) g).
Proof.
  induction fuel as [|fuel IH]; intros s prev g Hlen; [lia|].
  cbn [greedy run]. destruct s as [|c s]; [reflexivity|].
  cbn [one lstrip]. destruct (is_space c); [|reflexivity].
  assert ((List.length s <? List.length (c :: s))%nat = true) as ->
    by (apply Nat.ltb_lt; simpl; lia).
  rewrite IH by (simpl in Hlen; lia). reflexivity.
Qed.

Lemma match_at_spaces (prev : option char) (s : str) :
  match_at no_flags spaces_re prev s
  = match s with
    | [] => None
    | c :: s' =>
        if is_space c
        then Some ((List.length s - List.length (lstrip s'))%nat, [])
        else None
    end.
Proof.
  unfold match_at, spaces_re. cbn [run]. destruct s as [|c s']; [reflexivity|].
  cbn [one]. destruct (is_space c); [|reflexivity].
  now rewrite (greedy_spaces (fun s'0 g => ((List.length (c :: s') - List.length s'0)%nat, g)))
    by lia.
Qed.

Lemma sub_spaces_prev (s : str) (prev prev' : option char) (k : nat) :
  sub_from no_flags spaces_re [32] prev s k
  = sub_from no_flags spaces_re [32] prev' s k.
Proof.
  destruct s as [|c s]; destruct k as [|k]; cbn [sub_from];
    rewrite ?match_at_spaces; reflexivity.
Qed.

Lemma sub_spaces_skip (p r : str) (prev : option char) :
  sub_from no_flags spaces_re [32] prev (p ++ r) (List.length p)
  = sub_from no_flags spaces_re [32] None r 0.
Proof.
  revert prev. induction p as [|x p IH]; intros prev; [apply sub_spaces_prev|].
  cbn [app List.length sub_from]. apply IH.
Qed.

Lemma sub_spaces_blank (prev : option char) (c : char) (s : str) :
  is_space c = true ->
  sub_from no_flags spaces_re [32] prev (c :: s) 0
  = 32 :: sub_from no_flags spaces_re [32] None (lstrip s) 0.
Proof.
  intros Hc. cbn [sub_from]. rewrite match_at_spaces, Hc.
  destruct (lstrip_split s) as [p Hp].
  assert (Hn : (List.length (c :: s) - List.length (lstrip s))%nat = S (List.length p)).
  { rewrite Hp at 1. cbn [List.length]. rewrite length_app. lia. }
  rewrite Hn. cbn [app]. f_equal.
  rewrite Hp at 1. apply sub_spaces_skip.
Qed.

Lemma sub_spaces_other (prev : option char) (c : char) (s : str) :
  is_space c = false ->
  sub_from no_flags spaces_re [32] prev (c :: s) 0
  = c :: sub_from no_flags spaces_re [32] None s 0.
Proof.
  intros Hc. cbn [sub_from]. rewrite match_at_spaces, Hc.
  f_equal. apply sub_spaces_prev.
Qed.

Lemma sub_spaces_single (n : nat) :
  forall s, (List.length s <= n)%nat ->
            single_spaced (sub_from no_flags spaces_re [32] None s 0).
Proof.
  induction n as [|n IH]; intros s Hlen.
  - destruct s; [|simpl in Hlen; lia].
    cbn [sub_from]. rewrite match_at_spaces. exact I.
  - destruct s as [|c s].
    + cbn [sub_from]. rewrite match_at_spaces. exact I.
    + destruct (is_space c) eqn:Hc.
      * rewrite (sub_spaces_blank _ _ _ Hc).
        assert (Hl : (List.length (lstrip s) <= n)%nat).
        { destruct (lstrip_split s) as [p Hp].
          apply (f_equal (@List.length char)) in Hp. rewrite length_app in Hp.
          simpl in Hlen. lia. }
        cbn [single_spaced]. split; [|now apply IH].
        intros _. split; [reflexivity|].
        destruct (lstrip s) as [|d r] eqn:E.
        -- cbn [sub_from]. rewrite match_at_spaces. exact I.
        -- pose proof (lstrip_head _ _ _ E) as Hd.
           now rewrite (sub_spaces_other _ _ _ Hd).
      * rewrite (sub_spaces_other _ _ _ Hc).
        cbn [single_spaced]. split; [|apply IH; simpl in Hlen; lia].
        intros Hsp.
        destruct (sub_from no_flags spaces_re [32] None s 0); congruence.
Qed.

Lemma single_spaced_suffix (p t : str) : single_spaced (p ++ t) -> single_spaced t.
Proof.
  induction p as [|x p IH]; [trivial|].
  cbn [app single_spaced]. intros [_ H]. now apply IH.
Qed.

Lemma single_spaced_prefix (a b : str) : single_spaced (a ++ b) -> single_spaced a.
Proof.
  induction a as [|x a IH]; [intros _; exact I|]. cbn [app single_spaced].
  intros [Hx H]. split; [|now apply IH].
  intros Hsp. destruct (Hx Hsp) as [-> Hnext]. split; [reflexivity|].
  destruct a; [exact I|exact Hnext].
Qed.

Lemma strip_single_spaced (s : str) : single_spaced s -> single_spaced (strip s).
Proof.
  intros H. unfold strip.
  destruct (lstrip_split s) as [p Hp]. rewrite Hp in H.
  apply single_spaced_suffix in H.
  destruct (rstrip_split (lstrip s)) as [q Hq]. rewrite Hq in H.
  now apply single_spaced_prefix in H.
Qed.

(** X8. The text [strip_tags] returns has no blank at either end, and
    its blanks are single space characters, each between two
    characters that are not blanks: whatever the markup, the entities
    and the layout of the cell, words come out one space apart. *)
Theorem strip_tags_normal (text : str) :
  strip (strip_tags text) = strip_tags text /\
  single_spaced (strip_tags text).
Proof.
  unfold strip_tags. split.
  - apply trimmed_strip, strip_trimmed.
  - apply strip_single_spaced. unfold sub.
    change (lit " ") with [32].
    now apply (sub_spaces_single (List.length (unescape (sub_from flag_S tag_re [32] None text 0)))).
Qed.

End ExtractorExtras.

(** X9. For one modality and one value of the flag, two slugs have the
    same path only when they are the same slug; and the path of a slug
    with the flag off is never its path with the flag on or absent. *)
Theorem build_leaderboard_path_distinct (modality slug1 slug2 : str)
    (style_control : option bool) :
  (build_leaderboard_path modality slug1 style_control
   = build_leaderboard_path modality slug2 style_control -> slug1 = slug2) /\
  build_leaderboard_path modality slug1 (Some false)
  <> build_leaderboard_path modality slug1 (Some true) /\
  build_leaderboard_path modality slug1 (Some false)
  <> build_leaderboard_path modality slug1 None.
Proof.
  split; [|split].
  - destruct style_control as [[|]|]; unfold build_leaderboard_path; intros H.
    + now apply app_inv_head, app_inv_head, app_inv_head in H.
    + apply app_inv_head, app_inv_head, app_inv_head in H.
      now apply app_inv_tail in H.
    + now apply app_inv_head, app_inv_head, app_inv_head in H.
  - unfold build_leaderboard_path. intros H.
    apply (f_equal (@List.length char)) in H. rewrite !length_app in H.
    simpl in H. lia.
  - unfold build_leaderboard_path. intros H.
    apply (f_equal (@List.length char)) in H. rewrite !length_app in H.
    simpl in H. lia.
Qed.

(** *** More on the refresher *)

Section RefresherExtras.
Context {R : PyRuntime}.
Variable network : trace -> str -> Z -> reply.
Variable J : Type.
Variables (modality : str) (style_control : option bool).

Lemma fetch_table_inv (url : str) (tr : trace) :
  match http_get_text network url default_timeout default_retries tr with
  | (Raise e, tr') => fetch_table network url tr = (Raise e, tr')
  | (Ok html, tr') =>
      fetch_table network url tr
      = (if contains (lit "<table") (lower html)
         then parse_leaderboard_table html else Raise no_table_error, tr')
  end.
Proof.
  destruct (http_get_text network url default_timeout default_retries tr)
    as [[html|e] tr'] eqn:E.
  - now apply fetch_table_fetched.
  - now apply fetch_table_not_fetched.
Qed.

Lemma fetch_table_trace (url : str) (tr : trace) :
  snd (fetch_table network url tr)
  = snd (http_get_text network url default_timeout default_retries tr).
Proof.
  pose proof (fetch_table_inv url tr) as H.
  destruct (http_get_text network url default_timeout default_retries tr)
    as [[html|e] tr']; now rewrite H.
Qed.

Lemma fetch_table_ok (url : str) (tr tr' : trace) (parsed : table) :
  fetch_table network url tr = (Ok parsed, tr') -> parsed <> [].
Proof.
  intros H. pose proof (fetch_table_inv url tr) as Hinv.
  destruct (http_get_text network url default_timeout default_retries tr)
    as [[html|e] tr0]; rewrite Hinv in H; [|discriminate].
  destruct (contains (lit "<table") (lower html)); [|discriminate].
  inversion H as [[Hp Ht]]. now apply parse_leaderboard_table_ok in Hp.
Qed.

Lemma parse_leaderboard_table_error_kind (html : str) (e : exn) :
  parse_leaderboard_table html = Raise e ->
  e = empty_table_error \/ exists cell_text, e = no_rating_error cell_text.
Proof.
  unfold parse_leaderboard_table. intros H.
  destruct (parse_rows (findall flag_SI row_re html) []) as [[|p t]|e0] eqn:E;
    try discriminate; inversion H; subst; [now left|right].
  destruct (parse_rows_raise _ _ _ E) as (before & row & after & _ & Hbad & _).
  apply row_body_abort in Hbad. destruct Hbad as [_ ->]. eauto.
Qed.

Lemma http_get_text_default (url : str) (tr : trace) :
  exists k : nat,
    (1 <= k <= 3)%nat /\
    snd (http_get_text network url default_timeout default_retries tr)
    = tr ++ attempt_events url default_timeout 0 k /\
    forall e,
      fst (http_get_text network url default_timeout default_retries tr) = Raise e ->
      (exists e', e = retries_exhausted default_retries url (Some e') /\
                  is_transport_error e' = true) \/
      (is_transport_error e = false /\
       exists tr0, fst (urlopen_read network url default_timeout tr0) = Raise e).
Proof.
  unfold http_get_text, range, default_retries.
  change (Z.to_nat 3) with 3%nat. fold (attempts_from 0 3).
  destruct (loop_outcome network url default_timeout 3 3 0 None tr)
    as (k & Hk & Hk1 & Htr & Hres); [reflexivity|].
  exists k. split; [lia|]. split; [exact Htr|].
  intros e He. rewrite He in Hres.
  destruct Hres as [(_ & last' & -> & _ & Hsome)|(_ & Hnt & Hreq)].
  - left. destruct Hsome as (e' & -> & He'); [lia|]. now exists e'.
  - right. split; [exact Hnt|]. eauto.
Qed.

Lemma fetch_table_cause (url : str) (tr tr' : trace) (e : exn) :
  fetch_table network url tr = (Raise e, tr') -> skip_cause network url e.
Proof.
  intros H. pose proof (fetch_table_inv url tr) as Hinv.
  destruct (http_get_text_default url tr) as (_ & _ & _ & Hraise).
  destruct (http_get_text network url default_timeout default_retries tr)
    as [[html|e0] tr0]; rewrite Hinv in H.
  - destruct (contains (lit "<table") (lower html)).
    + inversion H as [[Hp Ht]].
      destruct (parse_leaderboard_table_error_kind _ _ Hp) as [->|Hcell].
      * right. right. right. now left.
      * right. right. right. now right.
    + inversion H. right. right. now left.
  - inversion H; subst. destruct (Hraise e eq_refl) as [Hx|Hx].
    + now left.
    + right. now left.
Qed.

(** The state of the loop after any number of turns. *)
Lemma refresh_loop_extras (items : dict str) :
  forall (st st' : refresh_state J) (tr tr' : trace),
    refresh_loop network modality style_control items st tr = (Ok st', tr') ->
    (exists mask,
        List.length mask = List.length items /\
        updated st' = updated st ++ select mask (keys items) /\
        List.map fst (skipped st')
        = List.map fst (skipped st) ++ select (List.map negb mask) (keys items)) /\
    (forall k, ~ In k (updated st') ->
               dict_get k (target_data st') = dict_get k (target_data st)) /\
    (forall k, extracted_entry (target_data st) k ->
               extracted_entry (target_data st') k) /\
    (forall k, In k (updated st') ->
               In k (updated st) \/ extracted_entry (target_data st') k) /\
    (forall k, In k (keys (target_data st)) -> In k (keys (target_data st'))) /\
    (updated st' = updated st -> target_data st' = target_data st) /\
    (forall key reason,
        In (key, reason) (skipped st') ->
        In (key, reason) (skipped st) \/
        exists slug e,
          In (key, slug) items /\ reason = message e /\
          skip_cause network (category_url modality style_control slug) e) /\
    exists ks,
      List.length ks = List.length items /\
      Forall (fun k => (1 <= k <= 3)%nat) ks /\
      tr' = tr ++ refresh_events modality style_control items ks.
Proof.
  induction items as [|[key slug] items IH]; intros st st' tr tr' H.
  - simpl in H. unfold ret in H. inversion H; subst.
    split; [exists []; simpl; now rewrite !app_nil_r|].
    split; [reflexivity|]. split; [trivial|]. split; [now left|].
    split; [trivial|]. split; [reflexivity|]. split; [now left|].
    exists []. split; [reflexivity|]. split; [constructor|].
    unfold refresh_events. simpl. now rewrite app_nil_r.
  - pose proof (fetch_table_trace (category_url modality style_control slug) tr) as Htrace.
    destruct (http_get_text_default (category_url modality style_control slug) tr)
      as (k0 & Hk0 & Hev & _).
    rewrite <- Htrace in Hev.
    destruct (refresh_category_cases network J modality style_control key slug st tr)
      as [tr1 [[parsed [Hfetch Hstep]]|[e [Hfetch Hstep]]]];
      rewrite (refresh_loop_cons _ _ _ _ _ _ _ _ _ _ _ Hstep) in H;
      rewrite Hfetch in Hev; simpl in Hev; subst tr1;
      destruct (IH _ _ _ _ H)
        as ((mask & Hmlen & Hupd & Hskip) & Hframe & Hext & Hin & Hkeys & Hsame
            & Hreason & (ks & Hklen & Hkall & Htr)).
    + (* the category is stored *)
      assert (Hnew : extracted_entry (target_data (store_state st key parsed)) key).
      { exists parsed. split; [apply dict_get_set_same|].
        exact (fetch_table_ok _ _ _ _ Hfetch). }
      assert (Hkeyin : In key (updated st')).
      { rewrite Hupd. apply in_or_app. left. simpl. apply in_or_app. right. now left. }
      split.
      { exists (true :: mask). simpl. split; [now rewrite Hmlen|].
        split; [rewrite Hupd; simpl; now rewrite <- app_assoc|exact Hskip]. }
      split.
      { intros k Hk. rewrite (Hframe k Hk). simpl.
        apply dict_get_set_other. intros ->. now apply Hk. }
      split.
      { intros k (t & Hget & Hne). apply Hext.
        destruct (list_eq_dec N.eq_dec key k) as [->|Hneq].
        - exact Hnew.
        - exists t. split; [|exact Hne]. simpl.
          now rewrite dict_get_set_other. }
      split.
      { intros k Hk. destruct (Hin k Hk) as [Hk'|Hk']; [|now right].
        simpl in Hk'. apply in_app_or in Hk'. destruct Hk' as [Hk'|[<-|[]]].
        - now left.
        - right. now apply Hext. }
      split.
      { intros k Hk. apply Hkeys. simpl. apply dict_set_keys_in. now right. }
      split.
      { intros Heq. exfalso. rewrite Hupd in Heq. simpl in Heq.
        apply (f_equal (@List.length str)) in Heq.
        rewrite !length_app in Heq. simpl in Heq. lia. }
      split.
      { intros k reason Hk. destruct (Hreason k reason Hk) as [Hk'|(s & e & Hs & Hr & Hc)].
        - now left.
        - right. exists s, e. split; [now right|]. now split. }
      exists (k0 :: ks). split; [simpl; now rewrite Hklen|].
      split; [now constructor|].
      rewrite Htr. unfold refresh_events. simpl. now rewrite <- app_assoc.
    + (* the category is skipped *)
      split.
      { exists (false :: mask). simpl. split; [now rewrite Hmlen|].
        split; [exact Hupd|].
        rewrite Hskip. simpl. rewrite map_app. simpl. now rewrite <- app_assoc. }
      split; [exact Hframe|]. split; [exact Hext|]. split; [exact Hin|].
      split; [exact Hkeys|]. split; [exact Hsame|].
      split.
      { intros k reason Hk.
        destruct (Hreason k reason Hk) as [Hk'|(s & e' & Hs & Hr & Hc)].
        - simpl in Hk'. apply in_app_or in Hk'. destruct Hk' as [Hk'|[Hk'|[]]].
          + now left.
          + inversion Hk'; subst. right. exists slug, e.
            split; [now left|]. split; [reflexivity|].
            exact (fetch_table_cause _ _ _ _ Hfetch).
        - right. exists s, e'. split; [now right|]. now split. }
      exists (k0 :: ks). split; [simpl; now rewrite Hklen|].
      split; [now constructor|].
      rewrite Htr. unfold refresh_events. simpl. now rewrite <- app_assoc.
Qed.

Lemma requests_app (a b : trace) : requests (a ++ b) = requests a ++ requests b.
Proof. apply filter_app. Qed.

Lemma sleeps_app (a b : trace) : sleeps (a ++ b) = sleeps a ++ sleeps b.
Proof. apply filter_app. Qed.

Lemma refresh_events_counts (items : dict str) :
  forall ks,
    List.length ks = List.length items ->
    Forall (fun k => (1 <= k <= 3)%nat) ks ->
    let evs := refresh_events modality style_control items ks in
    (List.length items <= List.length (requests evs) <= 3 * List.length items)%nat /\
    (List.length (sleeps evs) <= 2 * List.length items)%nat /\
    Forall (fun ev =>
              exists key slug,
                In (key, slug) items /\
                ev = request (category_url modality style_control slug)
                       default_timeout)
           (requests evs).
Proof.
  induction items as [|[key slug] items IH]; intros ks Hlen Hall.
  - destruct ks; [|discriminate]. simpl. repeat split; try lia. constructor.
  - destruct ks as [|k ks]; [discriminate|].
    inversion Hall as [|? ? Hk Hall']; subst.
    destruct (IH ks) as (Hreq & Hsl & Hfor); [simpl in Hlen; lia|exact Hall'|].
    unfold refresh_events in *. cbn [combine List.map List.concat fst snd].
    destruct (attempt_events_counts
                (category_url modality style_control slug) default_timeout 0 k)
      as [Hr Hs].
    rewrite requests_app, sleeps_app, !length_app, Hr, Hs, repeat_length.
    cbn [List.length]. split; [lia|]. split; [lia|].
    apply Forall_app. split.
    + apply Forall_forall. intros ev Hev. apply repeat_spec in Hev. subst ev.
      exists key, slug. split; [now left|reflexivity].
    + eapply Forall_impl; [|exact Hfor].
      intros ev (k' & s' & Hin & ->). exists k', s'. split; [now right|reflexivity].
Qed.

(** X10. A run of [refresh_categories] ends without raising, and
    returns every key of the category map in one of its two lists:
    [updated] has the keys of the categories it stored and [skipped]
    those of the others, both in the order of the map. *)
Theorem refresh_categories_lists (data : dict (entry J)) (category_map : dict str)
    (tr : trace) :
  exists final tr' mask,
    refresh_categories network data modality category_map style_control tr
    = (Ok final, tr') /\
    List.length mask = List.length category_map /\
    updated final = select mask (keys category_map) /\
    List.map fst (skipped final) = select (List.map negb mask) (keys category_map) /\
    (List.length (updated final) + List.length (skipped final)
     = List.length category_map)%nat.
Proof.
  unfold refresh_categories.
  destruct (refresh_loop_total network J modality style_control category_map
              {| target_data := data; updated := []; skipped := [] |} tr)
    as (final & tr' & Hrun).
  destruct (refresh_loop_extras _ _ _ _ _ Hrun) as ((mask & Hlen & Hupd & Hskip) & _).
  destruct (refresh_loop_frame _ _ _ _ _ _ _ _ _ Hrun) as (_ & _ & _ & Hcount).
  exists final, tr', mask. simpl in *. auto.
Qed.

(** X11. At the end of a run of [refresh_categories] an entry of the
    document differs from what it was before the call only if its key
    is in [updated]; the entry of a key in [updated] is a table the
    program extracted, with a model at least; and no key of the
    document is lost. *)
Theorem refresh_categories_entries (data : dict (entry J)) (category_map : dict str)
    (tr : trace) :
  exists final tr',
    refresh_categories network data modality category_map style_control tr
    = (Ok final, tr') /\
    (forall k, ~ In k (updated final) ->
               dict_get k (target_data final) = dict_get k data) /\
    (forall k, In k (updated final) ->
               exists t, dict_get k (target_data final) = Some (Extracted t) /\
                         t <> []) /\
    (forall k, In k (keys data) -> In k (keys (target_data final))) /\
    (forall k, In k (updated final) -> In k (keys category_map)).
Proof.
  unfold refresh_categories.
  destruct (refresh_loop_total network J modality style_control category_map
              {| target_data := data; updated := []; skipped := [] |} tr)
    as (final & tr' & Hrun).
  destruct (refresh_loop_extras _ _ _ _ _ Hrun)
    as (_ & Hframe & _ & Hin & Hkeys & _).
  destruct (refresh_loop_frame _ _ _ _ _ _ _ _ _ Hrun) as (_ & _ & Hu & _).
  exists final, tr'. split; [exact Hrun|]. split; [exact Hframe|].
  split; [|split; [exact Hkeys|]].
  - intros k Hk. destruct (Hin k Hk) as [[]|H]. exact H.
  - intros k Hk. destruct (Hu k Hk) as [[]|H]. exact H.
Qed.

(** X12. When a run of [refresh_categories] stores no category (every
    fetch or extraction failed), the document it leaves is the one it
    was given, entry for entry and in the same order, and every
    category is in [skipped]. *)
Theorem refresh_categories_noop (data : dict (entry J)) (category_map : dict str)
    (tr : trace) :
  exists final tr',
    refresh_categories network data modality category_map style_control tr
    = (Ok final, tr') /\
    (updated final = [] ->
     target_data final = data /\
     List.map fst (skipped final) = keys category_map).
Proof.
  unfold refresh_categories.
  destruct (refresh_loop_total network J modality style_control category_map
              {| target_data := data; updated := []; skipped := [] |} tr)
    as (final & tr' & Hrun).
  destruct (refresh_loop_extras _ _ _ _ _ Hrun)
    as ((mask & Hlen & Hupd & Hskip) & _ & _ & _ & _ & Hsame & _).
  exists final, tr'. split; [exact Hrun|].
  intros Hnone. split; [now apply Hsame|].
  simpl in *. rewrite Hskip. rewrite Hnone in Hupd.
  clear - Hlen Hupd. unfold keys in *.
  revert mask Hlen Hupd.
  induction category_map as [|[k s] items IH]; intros mask Hlen Hupd;
    destruct mask as [|b mask]; try discriminate; [reflexivity|].
  simpl in *. destruct b; [discriminate|]. simpl. f_equal. apply IH; [lia|exact Hupd].
Qed.

(** X13. The network events of a run of [refresh_categories] are, for
    each category of the map in turn, those of one to three attempts
    at the address of the category.  So a run makes at least one and
    at most three requests for each category, all of them for
    addresses of its categories, with the default timeout and the
    browser headers, and sleeps at most twice for each. *)
Theorem refresh_categories_events (data : dict (entry J)) (category_map : dict str)
    (tr : trace) :
  exists ks,
    List.length ks = List.length category_map /\
    Forall (fun k => (1 <= k <= 3)%nat) ks /\
    let evs := refresh_events modality style_control category_map ks in
    snd (refresh_categories network data modality category_map style_control tr)
    = tr ++ evs /\
    (List.length category_map <= List.length (requests evs)
     <= 3 * List.length category_map)%nat /\
    (List.length (sleeps evs) <= 2 * List.length category_map)%nat /\
    Forall (fun ev =>
              exists key slug,
                In (key, slug) category_map /\
                ev = request (category_url modality style_control slug)
                       default_timeout)
           (requests evs).
Proof.
  unfold refresh_categories.
  destruct (refresh_loop_total network J modality style_control category_map
              {| target_data := data; updated := []; skipped := [] |} tr)
    as (final & tr' & Hrun).
  destruct (refresh_loop_extras _ _ _ _ _ Hrun)
    as (_ & _ & _ & _ & _ & _ & _ & (ks & Hlen & Hall & Htr)).
  exists ks. split; [exact Hlen|]. split; [exact Hall|].
  destruct (refresh_events_counts category_map ks Hlen Hall) as (Hreq & Hsl & Hfor).
  cbv zeta. rewrite Hrun. simpl. auto.
Qed.

(** X14. Every reason in the [skipped] list of a run is the message of
    one of five failures of the category it stands with: the attempts
    used up, an exception of a class that is not retried raised by a
    request, the page without the table marker, the table without a
    model, or a fourth cell without a number. *)
Theorem refresh_categories_skip_reasons (data : dict (entry J))
    (category_map : dict str) (tr : trace) :
  exists final tr',
    refresh_categories network data modality category_map style_control tr
    = (Ok final, tr') /\
    forall key reason,
      In (key, reason) (skipped final) ->
      exists slug e,
        In (key, slug) category_map /\ reason = message e /\
        skip_cause network (category_url modality style_control slug) e.
Proof.
  unfold refresh_categories.
  destruct (refresh_loop_total network J modality style_control category_map
              {| target_data := data; updated := []; skipped := [] |} tr)
    as (final & tr' & Hrun).
  destruct (refresh_loop_extras _ _ _ _ _ Hrun)
    as (_ & _ & _ & _ & _ & _ & Hreason & _).
  exists final, tr'. split; [exact Hrun|].
  intros key reason Hin. destruct (Hreason key reason Hin) as [[]|H]. exact H.
Qed.

End RefresherExtras.

(** *** Files, catalog and the run over the files *)

Section DriverFacts.
Context {R : PyRuntime}.
Variable J : Type.
Context {codec : JsonCodec J}.
Variable network : trace -> str -> Z -> reply.
Variable write_error : str -> option exn.
Variable mkdir_error : option exn.

(** A call of [http_get_text] with the arguments of
    [fetch_catalog_json]. *)
Lemma http_get_text_catalog (url : str) (tr : trace) :
  exists k : nat,
    (1 <= k <= 2)%nat /\
    snd (http_get_text network url 60 2 tr) = tr ++ attempt_events url 60 0 k.
Proof.
  unfold http_get_text, range.
  change (Z.to_nat 2) with 2%nat. fold (attempts_from 0 2).
  destruct (loop_outcome network url 60 2 2 0 None tr)
    as (k & Hk & Hk1 & Htr & _); [reflexivity|].
  exists k. split; [lia|exact Htr].
Qed.

Lemma fetch_catalog_json_trace (filename : str) (tr : trace) :
  snd (fetch_catalog_json network filename tr)
  = snd (http_get_text network (catalog_url filename) 60 2 tr).
Proof.
  unfold fetch_catalog_json, bind, lift.
  destruct (http_get_text network (catalog_url filename) 60 2 tr) as [[text|e] tr'];
    reflexivity.
Qed.

(** X15. [load_base_data] changes no file and prints nothing.  When
    the file is there it makes no request: it returns what [json.load]
    makes of the file's text, or raises what reading it raises.  When
    the file is missing it asks the catalog for it by its name, with a
    timeout of 60 seconds, once or twice with one sleep of [1.2]
    seconds between, and returns what [json.loads] makes of the text
    it got, or raises. *)
Theorem load_base_data_sources (filename : str) (w : world) :
  files (snd (load_base_data network filename w)) = files w /\
  console (snd (load_base_data network filename w)) = console w /\
  match dict_get filename (files w) with
  | Some (FileText content) =>
      load_base_data network filename w = (json_loads content, w)
  | Some (FileError e) =>
      load_base_data network filename w = (Raise e, w)
  | None =>
      exists k : nat,
        (1 <= k <= 2)%nat /\
        net (snd (load_base_data network filename w))
        = net w ++ attempt_events (CATALOG_BASE_URL ++ lit "/" ++ filename) 60 0 k /\
        forall text,
          fst (http_get_text network (CATALOG_BASE_URL ++ lit "/" ++ filename)
                 60 2 (net w)) = Ok text ->
          fst (load_base_data network filename w) = json_loads text
  end.
Proof.
  unfold load_base_data.
  destruct (dict_get filename (files w)) as [[content|e]|] eqn:E.
  - repeat split.
  - repeat split.
  - unfold on_net.
    pose proof (fetch_catalog_json_trace filename (net w)) as Htr.
    destruct (http_get_text_catalog (catalog_url filename) (net w)) as (k & Hk & Hev).
    unfold catalog_url in *.
    destruct (fetch_catalog_json network filename (net w)) as [r tr'] eqn:Ef.
    cbn [fst snd files console net] in *.
    split; [reflexivity|]. split; [reflexivity|].
    exists k. split; [exact Hk|]. split; [now rewrite Htr|].
    intros text Hok. unfold fetch_catalog_json, bind, lift, catalog_url in Ef.
    destruct (http_get_text network (CATALOG_BASE_URL ++ lit "/" ++ filename) 60 2 (net w))
      as [[t|e] tr0]; cbn [fst] in Hok; [|discriminate].
    inversion Hok; subst. now inversion Ef.
Qed.

Lemma select_in {A} (mask : list bool) (l : list A) (x : A) :
  In x (select mask l) -> In x l.
Proof.
  revert l. induction mask as [|b mask IH]; intros l H; [contradiction|].
  destruct l as [|y l]; [contradiction|]. simpl in H.
  destruct b; [destruct H as [<-|H]; [now left|right; now apply IH]|].
  right. now apply IH.
Qed.

(** The loop of [refresh_categories] on a document that is not a
    dict: every category is skipped, after its page was asked for. *)
Lemma refresh_loop_not_object_spec (assign_error modality : str)
    (style_control : option bool) (items : dict str) :
  forall (sk : list (str * str)) (tr : trace),
  exists sk' ks,
    refresh_loop_not_object network assign_error modality style_control items sk tr
    = (Ok (sk ++ sk'), tr ++ refresh_events modality style_control items ks) /\
    List.length ks = List.length items /\
    Forall (fun k => (1 <= k <= 3)%nat) ks /\
    List.map fst sk' = keys items.
Proof.
  induction items as [|[key slug] items IH]; intros sk tr.
  - exists [], []. simpl. unfold ret, refresh_events. simpl.
    rewrite !app_nil_r. repeat split. constructor.
  - cbn [refresh_loop_not_object]. unfold bind at 1.
    unfold refresh_category_not_object, try_except, bind.
    fold (category_url modality style_control slug).
    pose proof (fetch_table_trace network (category_url modality style_control slug) tr)
      as Htr.
    destruct (http_get_text_default network (category_url modality style_control slug) tr)
      as (k0 & Hk0 & Hev & _).
    rewrite <- Htr in Hev.
    destruct (fetch_table network (category_url modality style_control slug) tr)
      as [[parsed|e] tr1]; cbn [snd] in Hev; subst tr1; unfold raise, ret;
      match goal with
      | |- context [refresh_loop_not_object _ _ _ _ _ (sk ++ [?p]) ?t] =>
          destruct (IH (sk ++ [p]) t) as (sk' & ks & Hrun & Hlen & Hall & Hkeys);
          rewrite Hrun;
          exists (p :: sk'), (k0 :: ks)
      end;
      (split; [unfold refresh_events; cbn [combine List.map List.concat fst snd];
               now rewrite <- !app_assoc|]);
      (split; [simpl; now rewrite Hlen|]);
      (split; [now constructor|]);
      simpl; now rewrite Hkeys.
Qed.

(** [refresh_categories] on any document: it does not raise; its
    events are those of the categories; its two lists hold the keys of
    the category map; the document it leaves stands to the one it got
    as [carried_over] says. *)
Lemma refresh_document_spec (base : document J) (modality : str)
    (category_map : dict str) (style_control : option bool) (tr : trace) :
  exists data upd sk ks,
    refresh_document network base modality category_map style_control tr
    = (Ok (data, upd, sk),
       tr ++ refresh_events modality style_control category_map ks) /\
    List.length ks = List.length category_map /\
    Forall (fun k => (1 <= k <= 3)%nat) ks /\
    (List.length upd + List.length sk = List.length category_map)%nat /\
    carried_over category_map base data /\
    (forall p, In p sk -> In (fst p) (keys category_map)).
Proof.
  destruct base as [d|j msg]; unfold refresh_document, bind.
  - unfold refresh_categories.
    destruct (refresh_loop_total network J modality style_control category_map
                {| target_data := d; updated := []; skipped := [] |} tr)
      as (final & tr' & Hrun).
    rewrite Hrun. unfold ret.
    destruct (refresh_loop_extras network J modality style_control _ _ _ _ _ Hrun)
      as ((mask & Hmlen & Hupd & Hskip) & Hframe & _ & Hin & Hkeys & _ & _
          & (ks & Hklen & Hkall & Htr)).
    destruct (refresh_loop_frame _ _ _ _ _ _ _ _ _ Hrun) as (Hout & _ & _ & Hcount).
    cbn [target_data updated skipped List.length app List.map] in *.
    exists (Object (target_data final)), (updated final), (skipped final), ks.
    split; [now rewrite Htr|]. split; [exact Hklen|]. split; [exact Hkall|].
    split; [lia|]. split.
    + split; [exact Hkeys|]. split; [exact Hout|].
      intros k Hdiff.
      destruct (in_dec (list_eq_dec N.eq_dec) k (updated final)) as [Hk|Hk].
      * destruct (Hin k Hk) as [[]|H]. exact H.
      * exfalso. apply Hdiff. now apply Hframe.
    + intros p Hp. apply (select_in (List.map negb mask)).
      rewrite <- Hskip. now apply in_map.
  - destruct (refresh_loop_not_object_spec msg modality style_control category_map [] tr)
      as (sk' & ks & Hrun & Hlen & Hall & Hkeys).
    rewrite Hrun. unfold ret. cbn [app].
    exists (NotObject j msg), [], sk', ks.
    split; [reflexivity|]. split; [exact Hlen|]. split; [exact Hall|].
    split.
    + cbn [List.length]. rewrite <- (length_map fst sk'), Hkeys. unfold keys.
      now rewrite length_map.
    + split; [split; reflexivity|].
      intros p Hp. rewrite <- Hkeys. now apply in_map.
Qed.

(** One turn of the loop of [update_all_files]. *)
Lemma update_files_loop_cons (filename modality : str) (category_map : dict str)
    (style_control : option bool) (rest : dict file_spec)
    (acc : list (str * str * str)) (w : world) :
  update_files_loop network write_error
    ((filename, (modality, category_map, style_control)) :: rest) acc w
  = match load_base_data network filename w with
    | (Raise e, w1) => (Raise e, w1)
    | (Ok base, w1) =>
        match refresh_document network base modality category_map style_control
                (net w1) with
        | (Raise e, tr2) =>
            (Raise e, {| files := files w1; net := tr2; console := console w1 |})
        | (Ok (data, upd, sk), tr2) =>
            match write_error filename with
            | Some e =>
                (Raise e, {| files := files w1; net := tr2; console := console w1 |})
            | None =>
                update_files_loop network write_error rest
                  (acc ++ List.map (fun p : str * str => (filename, fst p, snd p)) sk)
                  {| files := dict_set filename (FileText (json_dumps data)) (files w1);
                     net := tr2;
                     console := console w1 ++ [updated_line filename (List.length upd)] |}
            end
        end
    end.
Proof.
  cbn [update_files_loop]. unfold io_bind at 1.
  destruct (load_base_data network filename w) as [[base|e] w1]; [|reflexivity].
  unfold io_bind at 1, on_net.
  destruct (refresh_document network base modality category_map style_control (net w1))
    as [[[[data upd] sk]|e] tr2]; [|reflexivity].
  unfold io_bind at 1, write_json. cbn [files net console].
  destruct (write_error filename); [reflexivity|].
  unfold io_bind at 1, print. reflexivity.
Qed.

Lemma load_base_data_spec (filename : str) (w : world) :
  exists ext,
    files (snd (load_base_data network filename w)) = files w /\
    console (snd (load_base_data network filename w)) = console w /\
    net (snd (load_base_data network filename w)) = net w ++ ext /\
    (List.length (requests ext) <= 2)%nat /\
    (List.length (sleeps ext) <= 1)%nat /\
    Forall (fun ev =>
              dict_get filename (files w) = None /\
              ev = request (CATALOG_BASE_URL ++ lit "/" ++ filename) 60)
           (requests ext) /\
    (forall content,
        dict_get filename (files w) = Some (FileText content) ->
        load_base_data network filename w = (json_loads content, w)).
Proof.
  unfold load_base_data.
  destruct (dict_get filename (files w)) as [[content|e]|] eqn:E.
  - exists []. cbn [snd]. rewrite app_nil_r. repeat split; simpl; try lia.
    + constructor.
    + now intros c [= <-].
  - exists []. cbn [snd]. rewrite app_nil_r. repeat split; simpl; try lia.
    + constructor.
    + discriminate.
  - unfold on_net.
    pose proof (fetch_catalog_json_trace filename (net w)) as Htr.
    destruct (http_get_text_catalog (catalog_url filename) (net w)) as (k & Hk & Hev).
    destruct (fetch_catalog_json network filename (net w)) as [r tr'].
    cbn [fst snd files console net] in *.
    exists (attempt_events (catalog_url filename) 60 0 k).
    destruct (attempt_events_counts (catalog_url filename) 60 0 k) as [Hr Hs].
    split; [reflexivity|]. split; [reflexivity|].
    split; [now rewrite Htr|].
    rewrite Hr, Hs, repeat_length. split; [lia|]. split; [lia|].
    split; [|discriminate].
    apply Forall_forall. intros ev Hin. apply repeat_spec in Hin. now subst.
Qed.

Lemma request_budget_cons (filename : str) (spec : file_spec)
    (rest : dict file_spec) :
  request_budget ((filename, spec) :: rest)
  = (2 + 3 * List.length (snd (fst spec)) + request_budget rest)%nat.
Proof. reflexivity. Qed.

Lemma sleep_budget_cons (filename : str) (spec : file_spec)
    (rest : dict file_spec) :
  sleep_budget ((filename, spec) :: rest)
  = (1 + 2 * List.length (snd (fst spec)) + sleep_budget rest)%nat.
Proof. reflexivity. Qed.

Lemma total_categories_cons (filename : str) (spec : file_spec)
    (rest : dict file_spec) :
  total_categories ((filename, spec) :: rest)
  = (List.length (snd (fst spec)) + total_categories rest)%nat.
Proof. reflexivity. Qed.

(** The run over the files, for any specifications without a file
    name twice. *)
Lemma update_files_loop_spec (specs : dict file_spec) :
  NoDup (keys specs) ->
  forall (acc : list (str * str * str)) (w : world),
    let res := update_files_loop network write_error specs acc w in
    (forall name, ~ In name (keys specs) ->
                  dict_get name (files (snd res)) = dict_get name (files w)) /\
    (forall name, In name (keys (files w)) -> In name (keys (files (snd res)))) /\
    (exists ext,
        net (snd res) = net w ++ ext /\
        (List.length (requests ext) <= request_budget specs)%nat /\
        (List.length (sleeps ext) <= sleep_budget specs)%nat /\
        Forall (allowed_request specs (files w)) (requests ext)) /\
    (forall acc',
        fst res = Ok acc' ->
        exists counts new,
          List.length counts = List.length specs /\
          console (snd res) = console w ++ updated_lines (keys specs) counts /\
          acc' = acc ++ new /\
          (list_sum counts + List.length new = total_categories specs)%nat /\
          Forall (fun item : str * str * str =>
                    exists spec,
                      In (fst (fst item), spec) specs /\
                      In (snd (fst item)) (keys (snd (fst spec))))
                 new /\
          (forall filename spec,
              In (filename, spec) specs ->
              exists refreshed,
                dict_get filename (files (snd res))
                = Some (FileText (json_dumps refreshed)) /\
                forall content,
                  dict_get filename (files w) = Some (FileText content) ->
                  exists loaded,
                    json_loads content = Ok loaded /\
                    carried_over (snd (fst spec)) loaded refreshed)).
Proof.
  induction specs as [|[filename [[modality category_map] style_control]] rest IH];
    intros Hnd acc w.
  - cbv zeta. cbn [update_files_loop]. unfold io_ret. cbn [fst snd].
    split; [reflexivity|]. split; [trivial|]. split.
    + exists []. rewrite app_nil_r. repeat split; simpl; try lia. constructor.
    + intros acc' [= <-]. exists [], []. unfold updated_lines. simpl.
      rewrite !app_nil_r.
      split; [reflexivity|]. split; [reflexivity|]. split; [reflexivity|].
      split; [reflexivity|]. split; [constructor|]. intros filename spec [].
  - cbv zeta. rewrite update_files_loop_cons.
    unfold keys in Hnd. cbn [List.map fst] in Hnd.
    inversion Hnd as [|? ? Hnotin Hnd']; subst.
    fold (keys rest) in Hnotin, Hnd'.
    destruct (load_base_data_spec filename w)
      as (ext1 & Hf1 & Hc1 & Hn1 & Hr1 & Hs1 & Hall1 & Hlocal).
    destruct (load_base_data network filename w) as [[base|e] w1] eqn:Eload;
      cbn [fst snd] in *.
    2:{ (* loading raises *)
      split; [intros name _; now rewrite Hf1|].
      split; [intros name Hin; now rewrite Hf1|].
      split; [|discriminate].
      exists ext1. split; [exact Hn1|].
      rewrite request_budget_cons, sleep_budget_cons. cbn [fst snd].
      split; [lia|]. split; [lia|].
      eapply Forall_impl; [|exact Hall1].
      intros ev [Hnone ->]. left. exists filename.
      split; [now left|]. now split. }
    destruct (refresh_document_spec base modality category_map style_control (net w1))
      as (data & upd & sk & ks & Hrun & Hklen & Hkall & Hcount & Hcarry & Hsk).
    rewrite Hrun.
    destruct (refresh_events_counts modality style_control category_map ks Hklen Hkall)
      as (Hreq2 & Hsl2 & Hall2).
    assert (Hallowed : Forall (allowed_request
                                 ((filename, (modality, category_map, style_control)) :: rest)
                                 (files w))
                              (requests ext1 ++
                               requests (refresh_events modality style_control
                                           category_map ks))).
    { apply Forall_app. split.
      - eapply Forall_impl; [|exact Hall1].
        intros ev [Hnone ->]. left. exists filename.
        split; [now left|]. now split.
      - eapply Forall_impl; [|exact Hall2].
        intros ev (key & slug & Hin & ->). right.
        exists filename, modality, category_map, style_control, key, slug.
        split; [now left|]. now split. }
    destruct (write_error filename) as [e|] eqn:Ew.
    { (* writing raises *)
      cbn [fst snd files net console].
      split; [intros name _; now rewrite Hf1|].
      split; [intros name Hin; now rewrite Hf1|].
      split; [|discriminate].
      exists (ext1 ++ refresh_events modality style_control category_map ks).
      split; [rewrite Hn1; now rewrite app_assoc|].
      rewrite requests_app, sleeps_app, !length_app.
      rewrite request_budget_cons, sleep_budget_cons. cbn [fst snd].
      split; [lia|]. split; [lia|exact Hallowed]. }
    match goal with
    | |- context [update_files_loop network write_error rest ?a ?w3] =>
        destruct (IH Hnd' a w3) as (HA & HB & (ext3 & Hn3 & Hr3 & Hs3 & Hall3) & HD);
        set (res := update_files_loop network write_error rest a w3) in *
    end.
    cbn [files net console] in *.
    split.
    { intros name Hname. rewrite HA.
      - rewrite dict_get_set_other; [now rewrite Hf1|].
        intros ->. apply Hname. now left.
      - intros Hin. apply Hname. now right. }
    split.
    { intros name Hin. apply HB. apply dict_set_keys_in. right. now rewrite Hf1. }
    split.
    { exists ((ext1 ++ refresh_events modality style_control category_map ks) ++ ext3).
      split; [rewrite Hn3, Hn1; now rewrite !app_assoc|].
      rewrite !requests_app, !sleeps_app, !length_app.
      rewrite request_budget_cons, sleep_budget_cons. cbn [fst snd].
      split; [lia|]. split; [lia|].
      apply Forall_app. split.
      - exact Hallowed.
      - eapply Forall_impl; [|exact Hall3].
        intros ev [(fn & Hfn & Hnone & ->)|(fn & m & c & s & key & slug & Hin & Hk & ->)].
        + left. exists fn. split; [now right|]. split; [|reflexivity].
          rewrite dict_get_set_other in Hnone; [now rewrite <- Hf1|].
          intros ->. now apply Hnotin.
        + right. exists fn, m, c, s, key, slug. split; [now right|]. now split. }
    intros acc' Hok.
    destruct (HD acc' Hok) as (counts & new & Hclen & Hcons & Hacc & Hsum & Hnew & Hfiles).
    exists (List.length upd :: counts),
           (List.map (fun p : str * str => (filename, fst p, snd p)) sk ++ new).
    split; [simpl; now rewrite Hclen|].
    split.
    { rewrite Hcons, Hc1. unfold updated_lines, keys.
      cbn [List.map combine fst snd]. now rewrite <- app_assoc. }
    split; [rewrite Hacc; now rewrite app_assoc|].
    split.
    { rewrite total_categories_cons. cbn [fst snd list_sum fold_right].
      fold (list_sum counts). rewrite length_app, length_map. lia. }
    split.
    { apply Forall_app. split.
      - apply Forall_forall. intros item Hitem. apply in_map_iff in Hitem.
        destruct Hitem as (p & <- & Hp).
        exists (modality, category_map, style_control).
        split; [now left|]. cbn [fst snd]. now apply Hsk.
      - eapply Forall_impl; [|exact Hnew].
        intros item (spec & Hin & Hk). exists spec. split; [now right|exact Hk]. }
    intros fn spec [Heq|Hin].
    { inversion Heq; subst fn spec. exists data. split.
      - rewrite HA by exact Hnotin. apply dict_get_set_same.
      - intros content Hcontent. cbn [fst snd].
        pose proof (Hlocal content Hcontent) as Hsame.
        inversion Hsame as [[Hbase Hw]].
        exists base. split; [reflexivity|exact Hcarry]. }
    destruct (Hfiles fn spec Hin) as (refreshed & Hget & Hfrom).
    exists refreshed. split; [exact Hget|].
    intros content Hcontent. apply Hfrom.
    rewrite dict_get_set_other; [now rewrite Hf1|].
    intros ->. apply Hnotin. unfold keys.
    change fn with (fst (fn, spec)). now apply in_map.
Qed.



Lemma print_all_spec (lines : list str) (w : world) :
  print_all lines w
  = (Ok tt, {| files := files w; net := net w; console := console w ++ lines |}).
Proof.
  revert w. induction lines as [|line lines IH]; intros w.
  - cbn [print_all]. unfold io_ret. rewrite app_nil_r. now destruct w.
  - cbn [print_all]. unfold io_bind, print. rewrite IH. cbn [files net console].
    now rewrite <- app_assoc.
Qed.

(** [main], by what the directory and the run over the files do. *)
Lemma main_cases (w : world) :
  main network write_error mkdir_error w
  = match mkdir_error with
    | Some e => (Raise e, w)
    | None =>
        match update_files_loop network write_error FILE_SPECS [] w with
        | (Raise e, w') => (Raise e, w')
        | (Ok all_skipped, w') =>
            (Ok tt,
             {| files := files w';
                net := net w';
                console := console w' ++ report all_skipped ++ [done_line] |})
        end
    end.
Proof.
  unfold main, update_all_files, io_bind.
  destruct mkdir_error as [e|].
  - reflexivity.
  - unfold io_ret.
    destruct (update_files_loop network write_error FILE_SPECS [] w)
      as [[all_skipped|e] w'].
    + rewrite print_all_spec. unfold print. cbn [files net console].
      now rewrite <- app_assoc.
    + reflexivity.
Qed.

Lemma FILE_SPECS_nodup : NoDup (keys FILE_SPECS).
Proof.
  assert (H : forall a b : str, str_eqb a b = false -> a <> b).
  { intros a b Hab ->. now rewrite str_eqb_refl in Hab. }
  unfold keys, FILE_SPECS. cbn [List.map fst].
  repeat (constructor;
          [cbn [In]; intros Hin;
           repeat (destruct Hin as [Hin|Hin];
                   [revert Hin; apply H; vm_compute; reflexivity|]);
           exact Hin|]).
  constructor.
Qed.

Lemma FILE_SPECS_totals :
  total_categories FILE_SPECS = 75%nat /\
  request_budget FILE_SPECS = 235%nat /\
  sleep_budget FILE_SPECS = 155%nat /\
  List.length FILE_SPECS = 5%nat.
Proof. repeat split; reflexivity. Qed.

(** X16. A run of [main] leaves every file of the data directory that
    is not one of the five of [FILE_SPECS] exactly as it was, whatever
    the network answers and however the run ends, and it removes no
    file. *)
Theorem main_files_frame (w : world) (name : str) :
  (~ In name (keys FILE_SPECS) ->
   dict_get name (files (snd (main network write_error mkdir_error w)))
   = dict_get name (files w)) /\
  (In name (keys (files w)) ->
   In name (keys (files (snd (main network write_error mkdir_error w))))).
Proof.
  rewrite main_cases.
  destruct mkdir_error as [e|]; [split; trivial|].
  destruct (update_files_loop_spec FILE_SPECS FILE_SPECS_nodup [] w)
    as (HA & HB & _).
  destruct (update_files_loop network write_error FILE_SPECS [] w)
    as [[all_skipped|e] w']; cbn [fst snd files] in *; split; auto.
Qed.

(** X17. A run of [main] makes at most 235 requests and sleeps at most
    155 times, however it ends.  Each request is either for a page of a
    category of [FILE_SPECS], with the default timeout, or for the
    catalog's copy of a file of [FILE_SPECS] that was missing when the
    run started, with a timeout of 60. *)
Theorem main_requests (w : world) :
  exists ext,
    net (snd (main network write_error mkdir_error w)) = net w ++ ext /\
    (List.length (requests ext) <= 235)%nat /\
    (List.length (sleeps ext) <= 155)%nat /\
    Forall (allowed_request FILE_SPECS (files w)) (requests ext).
Proof.
  rewrite main_cases.
  destruct mkdir_error as [e|].
  - exists []. cbn [snd]. rewrite app_nil_r.
    split; [reflexivity|]. simpl. split; [lia|]. split; [lia|constructor].
  - destruct (update_files_loop_spec FILE_SPECS FILE_SPECS_nodup [] w)
      as (_ & _ & (ext & Hnet & Hr & Hs & Hall) & _).
    destruct FILE_SPECS_totals as (_ & Hrb & Hsb & _).
    rewrite Hrb in Hr. rewrite Hsb in Hs.
    exists ext.
    destruct (update_files_loop network write_error FILE_SPECS [] w)
      as [[all_skipped|e] w']; cbn [fst snd net] in *; auto.
Qed.

(** X18. When [main] returns, it has printed one line for each of the
    five files, in their order, with the number of its updated
    categories; then, if a category was skipped, the header and one
    line for each skipped category; then the closing line.  The
    numbers of updated categories and the skipped categories make 75
    together, and each skipped category is a key of the category map
    of its file. *)
Theorem main_report (w : world) :
  fst (main network write_error mkdir_error w) = Ok tt ->
  exists counts all_skipped,
    List.length counts = 5%nat /\
    console (snd (main network write_error mkdir_error w))
    = console w ++ updated_lines (keys FILE_SPECS) counts
        ++ report all_skipped ++ [done_line] /\
    (list_sum counts + List.length all_skipped = 75)%nat /\
    Forall (fun item : str * str * str =>
              exists spec,
                In (fst (fst item), spec) FILE_SPECS /\
                In (snd (fst item)) (keys (snd (fst spec))))
           all_skipped.
Proof.
  rewrite main_cases.
  destruct mkdir_error as [e|]; [discriminate|].
  destruct (update_files_loop_spec FILE_SPECS FILE_SPECS_nodup [] w)
    as (_ & _ & _ & HD).
  destruct FILE_SPECS_totals as (Htot & _ & _ & Hlen).
  destruct (update_files_loop network write_error FILE_SPECS [] w)
    as [[all_skipped|e] w']; cbn [fst snd console] in *; [|discriminate].
  intros _.
  destruct (HD all_skipped eq_refl)
    as (counts & new & Hclen & Hcons & Hacc & Hsum & Hnew & _).
  cbn [app] in Hacc. subst new.
  exists counts, all_skipped.
  split; [now rewrite Hclen|].
  split; [rewrite Hcons; now rewrite <- app_assoc|].
  split; [now rewrite Hsum|exact Hnew].
Qed.

(** X19. When [main] returns, each of the five files holds the text
    [json.dump] writes for a document.  For a file that was there when
    the run started, [json.load] had returned on its text, and the
    document written is the one loaded, carried over: a dict keeps its
    keys and its entries outside the category map of the file, and an
    entry that differs is a table extracted in this run, not empty; a
    document that is not a dict is written as loaded. *)
Theorem main_rewrites_files (w : world) (filename : str) (spec : file_spec) :
  fst (main network write_error mkdir_error w) = Ok tt ->
  In (filename, spec) FILE_SPECS ->
  exists refreshed,
    dict_get filename (files (snd (main network write_error mkdir_error w)))
    = Some (FileText (json_dumps refreshed)) /\
    forall content,
      dict_get filename (files w) = Some (FileText content) ->
      exists loaded,
        json_loads content = Ok loaded /\
        carried_over (snd (fst spec)) loaded refreshed.
Proof.
  rewrite main_cases.
  destruct mkdir_error as [e|]; [discriminate|].
  destruct (update_files_loop_spec FILE_SPECS FILE_SPECS_nodup [] w)
    as (_ & _ & _ & HD).
  destruct (update_files_loop network write_error FILE_SPECS [] w)
    as [[all_skipped|e] w']; cbn [fst snd files] in *; [|discriminate].
  intros _ Hin.
  destruct (HD all_skipped eq_refl) as (counts & new & _ & _ & _ & _ & _ & Hfiles).
  exact (Hfiles filename spec Hin).
Qed.



(** X22. After a run of [main] that returned, the five files are
    there, so the next run asks the catalog for nothing: each of its
    requests is for a page of a category of [FILE_SPECS]. *)
Theorem main_second_run (w : world) :
  fst (main network write_error mkdir_error w) = Ok tt ->
  exists ext,
    net (snd (main network write_error mkdir_error
                (snd (main network write_error mkdir_error w))))
    = net (snd (main network write_error mkdir_error w)) ++ ext /\
    Forall (fun ev =>
              exists filename modality category_map style_control key slug,
                In (filename, (modality, category_map, style_control)) FILE_SPECS /\
                In (key, slug) category_map /\
                ev = request (category_url modality style_control slug)
                       default_timeout)
           (requests ext).
Proof.
  intros Hok.
  assert (Hfiles : forall filename,
             In filename (keys FILE_SPECS) ->
             dict_get filename
               (files (snd (main network write_error mkdir_error w))) <> None).
  { revert Hok. rewrite main_cases.
    destruct mkdir_error as [e|]; [discriminate|].
    destruct (update_files_loop_spec FILE_SPECS FILE_SPECS_nodup [] w)
      as (_ & _ & _ & HD).
    destruct (update_files_loop network write_error FILE_SPECS [] w)
      as [[all_skipped|e] w']; cbn [fst snd files] in *; [|discriminate].
    intros _ filename Hin.
    destruct (HD all_skipped eq_refl) as (counts & new & _ & _ & _ & _ & _ & Hf).
    unfold keys in Hin. apply in_map_iff in Hin.
    destruct Hin as ([fn spec] & <- & Hin).
    destruct (Hf fn spec Hin) as (refreshed & Hget & _).
    cbn [fst]. rewrite Hget. discriminate. }
  set (w1 := snd (main network write_error mkdir_error w)) in *.
  rewrite (main_cases w1).
  destruct mkdir_error as [e|].
  - exists []. cbn [snd]. rewrite app_nil_r. split; [reflexivity|constructor].
  - destruct (update_files_loop_spec FILE_SPECS FILE_SPECS_nodup [] w1)
      as (_ & _ & (ext & Hnet & _ & _ & Hall) & _).
    exists ext. split.
    + destruct (update_files_loop network write_error FILE_SPECS [] w1)
        as [[all_skipped|e] w']; cbn [fst snd net] in *; exact Hnet.
    + eapply Forall_impl; [|exact Hall].
      intros ev [(fn & Hin & Hnone & _)|Hpage].
      * exfalso. exact (Hfiles fn Hin Hnone).
      * exact Hpage.
Qed.

End DriverFacts.

(* ================================================================== *)
(** ** Examples for the properties with hypotheses *)

Lemma http_get_text_raises_witness :
  fst (http_get_text network_timeout url_math default_timeout 1 [])
  = Raise (retries_exhausted 1 url_math (Some timed_out)) /\
  is_transport_error (retries_exhausted 1 url_math (Some timed_out)) = false.
Proof.
  assert (H : fst (http_get_text network_timeout url_math default_timeout 1 [])
              = Raise (retries_exhausted 1 url_math (Some timed_out)))
    by (vm_compute; reflexivity).
  split; [exact H|].
  exact (proj1 (http_get_text_raises network_timeout url_math default_timeout 1 []
                  (retries_exhausted 1 url_math (Some timed_out)) H)).
Defined.

Lemma http_get_text_recovers_witness :
  (Z.of_nat 1 < 3)%Z /\
  http_get_text network_second_try url_math default_timeout 3 []
  = (Ok page_two_rows,
     [] ++ failed_events url_math default_timeout 0 1
        ++ [request url_math default_timeout]).
Proof.
  split; [reflexivity|].
  refine (proj1 (http_get_text_recovers network_second_try url_math default_timeout 3
                   1%nat [] page_two_rows _ _ _)).
  - reflexivity.
  - intros j Hj. exists timed_out.
    assert (Hj0 : j = 0%nat) by lia. rewrite Hj0.
    split; vm_compute; reflexivity.
  - vm_compute. reflexivity.
Defined.

Lemma parse_leaderboard_table_raises_witness :
  @parse_leaderboard_table ascii_runtime page_header_only = Raise empty_table_error /\
  ((empty_table_error = empty_table_error /\
    forall row, In row (@findall ascii_runtime flag_SI row_re page_header_only) ->
                @row_body ascii_runtime row = Continue) \/
   (exists before row after,
       @findall ascii_runtime flag_SI row_re page_header_only = before ++ row :: after /\
       @lacks_rating ascii_runtime row = true /\
       (forall r, In r before -> @lacks_rating ascii_runtime r = false) /\
       empty_table_error
       = @no_rating_error ascii_runtime (@rating_text ascii_runtime row))).
Proof.
  assert (H : @parse_leaderboard_table ascii_runtime page_header_only
              = Raise empty_table_error)
    by (vm_compute; reflexivity).
  split; [exact H|].
  exact (@parse_leaderboard_table_raises ascii_runtime page_header_only
           empty_table_error H).
Defined.

Lemma table_names_trimmed_witness :
  @parse_leaderboard_table ascii_runtime page_two_rows = Ok table_example /\
  In (lit "Model A") (keys table_example) /\
  lit "Model A" <> [] /\
  @strip ascii_runtime (lit "Model A") = lit "Model A".
Proof.
  assert (H : @parse_leaderboard_table ascii_runtime page_two_rows = Ok table_example)
    by (vm_compute; reflexivity).
  assert (Hin : In (lit "Model A") (keys table_example))
    by (vm_compute; left; reflexivity).
  split; [exact H|]. split; [exact Hin|].
  exact (@table_names_trimmed ascii_runtime page_two_rows table_example
           (lit "Model A") H Hin).
Defined.

Lemma table_names_order_witness :
  @parse_leaderboard_table ascii_runtime page_two_rows = Ok table_example /\
  keys table_example
  = first_seen (@stored_names ascii_runtime
                  (@findall ascii_runtime flag_SI row_re page_two_rows)) [] /\
  NoDup (keys table_example).
Proof.
  assert (H : @parse_leaderboard_table ascii_runtime page_two_rows = Ok table_example)
    by (vm_compute; reflexivity).
  split; [exact H|].
  destruct (@table_names_order ascii_runtime page_two_rows table_example H)
    as (Hkeys & Hnd & _).
  split; [exact Hkeys|exact Hnd].
Defined.

Lemma main_report_witness :
  fst (@main ascii_runtime unit keys_codec network_no_table no_write_error None
         world_empty_objects) = Ok tt /\
  exists counts all_skipped,
    List.length counts = 5%nat /\
    console (snd (@main ascii_runtime unit keys_codec network_no_table no_write_error
                    None world_empty_objects))
    = console world_empty_objects ++ updated_lines (keys FILE_SPECS) counts
        ++ report all_skipped ++ [done_line] /\
    (list_sum counts + List.length all_skipped = 75)%nat.
Proof.
  assert (H : fst (@main ascii_runtime unit keys_codec network_no_table no_write_error
                     None world_empty_objects) = Ok tt)
    by (vm_compute; reflexivity).
  split; [exact H|].
  destruct (@main_report ascii_runtime unit keys_codec network_no_table no_write_error
              None world_empty_objects H)
    as (counts & all_skipped & Hlen & Hcons & Hsum & _).
  exists counts, all_skipped.
  split; [exact Hlen|]. split; [exact Hcons|exact Hsum].
Defined.

Lemma main_rewrites_files_witness :
  fst (@main ascii_runtime unit keys_codec network_no_table no_write_error None
         world_empty_objects) = Ok tt /\
  In (lit "leaderboard-image.json", (lit "text-to-image", IMAGE_CATEGORY_SLUGS, None))
     FILE_SPECS /\
  exists refreshed,
    dict_get (lit "leaderboard-image.json")
      (files (snd (@main ascii_runtime unit keys_codec network_no_table no_write_error
                     None world_empty_objects)))
    = Some (FileText (@json_dumps unit keys_codec refreshed)).
Proof.
  assert (H : fst (@main ascii_runtime unit keys_codec network_no_table no_write_error
                     None world_empty_objects) = Ok tt)
    by (vm_compute; reflexivity).
  assert (Hin : In (lit "leaderboard-image.json",
                    (lit "text-to-image", IMAGE_CATEGORY_SLUGS, None)) FILE_SPECS)
    by (do 4 right; left; reflexivity).
  split; [exact H|]. split; [exact Hin|].
  destruct (@main_rewrites_files ascii_runtime unit keys_codec network_no_table
              no_write_error None world_empty_objects
              (lit "leaderboard-image.json")
              (lit "text-to-image", IMAGE_CATEGORY_SLUGS, None) H Hin)
    as (refreshed & Hget & _).
  exists refreshed. exact Hget.
Defined.



Lemma main_second_run_witness :
  fst (@main ascii_runtime unit keys_codec network_no_table no_write_error None
         world_empty_objects) = Ok tt /\
  exists ext,
    net (snd (@main ascii_runtime unit keys_codec network_no_table no_write_error None
                (snd (@main ascii_runtime unit keys_codec network_no_table
                        no_write_error None world_empty_objects))))
    = net (snd (@main ascii_runtime unit keys_codec network_no_table no_write_error
                  None world_empty_objects)) ++ ext.
Proof.
  assert (H : fst (@main ascii_runtime unit keys_codec network_no_table no_write_error
                     None world_empty_objects) = Ok tt)
    by (vm_compute; reflexivity).
  split; [exact H|].
  destruct (@main_second_run ascii_runtime unit keys_codec network_no_table
              no_write_error None world_empty_objects H)
    as (ext & Hnet & _).
  exists ext. exact Hnet.
Defined.
